(** * statscan_wrapper: the download / cache / extract pipeline

    A shallow embedding of [statscan_wrapper/statscan.py]:
    [get_cache_dir], [get_table_url], [download_table] and [get_table],
    together with the parts of [pathlib], [zipfile], [requests] and the
    file system that these four functions drive.

    Python [str] values are [string]s (byte strings; [str.lower] is the
    ASCII one, which decides the same [.csv] suffix test).  A [pathlib]
    path is the list of its [parts].  The file system is a finite map from
    paths to nodes, the network is a reply function together with a log of
    the requests issued, and every effectful function is a state
    transformer that returns either a value or the exception raised.
    [polars.read_csv] is taken from outside, as a function from the bytes of
    a file and a separator to a table or an exception. *)

From Stdlib Require Import Ascii String DecimalString.
From stdpp Require Import base option list strings gmap.

Local Open Scope string_scope.
Local Open Scope list_scope.

(** ** Python strings *)

Module Str.

(** [s.replace(c, "")] for a one-character [c]. *)
Fixpoint remove_char (c : ascii) (s : string) : string :=
  match s with
  | EmptyString => EmptyString
  | String a s' =>
      if Ascii.eqb a c then remove_char c s' else String a (remove_char c s')
  end.

(** [c in s] for a one-character [c]. *)
Fixpoint has_char (c : ascii) (s : string) : bool :=
  match s with
  | EmptyString => false
  | String a s' => Ascii.eqb a c || has_char c s'
  end.

Definition lower_char (a : ascii) : ascii :=
  let n := nat_of_ascii a in
  if (65 <=? n)%nat && (n <=? 90)%nat then ascii_of_nat (n + 32) else a.

(** [s.lower()]. *)
Fixpoint lower (s : string) : string :=
  match s with
  | EmptyString => EmptyString
  | String a s' => String (lower_char a) (lower s')
  end.

(** [s.endswith(suffix)]. *)
Fixpoint endswith (s suffix : string) : bool :=
  if String.eqb s suffix then true
  else match s with
       | EmptyString => false
       | String _ s' => endswith s' suffix
       end.

(** [s.startswith(c)] for a one-character [c]. *)
Definition startswith_char (c : ascii) (s : string) : bool :=
  match s with
  | String a _ => Ascii.eqb a c
  | EmptyString => false
  end.

(** [s.split(c)] for a one-character [c]: never the empty list. *)
Fixpoint split (c : ascii) (s : string) : list string :=
  match s with
  | EmptyString => [EmptyString]
  | String a s' =>
      if Ascii.eqb a c then EmptyString :: split c s'
      else match split c s' with
           | [] => [String a EmptyString]
           | p :: ps => String a p :: ps
           end
  end.

(** [sub in s]. *)
Definition contains (sub s : string) : Prop :=
  ∃ pre post, s = pre +:+ sub +:+ post.

(** [str(n)] for a natural number. *)
Definition of_nat (n : nat) : string := NilEmpty.string_of_uint (Nat.to_uint n).

(** [repr(s)]: the string between single quotes, or between double quotes
    when it holds a single quote and no double one; the backslash, the quote
    in use and the control characters are escaped.  Exact on ASCII. *)
Definition double_quote : ascii := ascii_of_nat 34.

Definition hex_digit (n : nat) : ascii :=
  nth n (list_ascii_of_string "0123456789abcdef") "?"%char.

Definition repr_char (q c : ascii) : string :=
  let n := nat_of_ascii c in
  if Ascii.eqb c "\" then "\\"
  else if Ascii.eqb c q then String "\" (String q "")
  else if Nat.eqb n 9 then "\t"
  else if Nat.eqb n 10 then "\n"
  else if Nat.eqb n 13 then "\r"
  else if Nat.ltb n 32 || Nat.eqb n 127
       then "\x" +:+ String (hex_digit (n / 16)) (String (hex_digit (n mod 16)) "")
  else String c "".

Fixpoint repr_body (q : ascii) (s : string) : string :=
  match s with
  | EmptyString => EmptyString
  | String c s' => repr_char q c +:+ repr_body q s'
  end.

Definition repr (s : string) : string :=
  let q := if has_char "'" s && negb (has_char double_quote s)
           then double_quote else "'"%char in
  String q (repr_body q s +:+ String q "").

End Str.

(** ** The URL builder *)

Definition base_url : string := "https://www150.statcan.gc.ca/n1/tbl/csv/".

Definition get_table_url (table_id language : string) : string :=
  let clean_id := Str.remove_char " " (Str.remove_char "-" table_id) in
  base_url +:+ clean_id +:+ "-" +:+ language +:+ ".zip".

(** The specification's wording of the normalisation: the identifier with
    its hyphens and spaces left out. *)
Fixpoint strip_separators (s : string) : string :=
  match s with
  | EmptyString => EmptyString
  | String a s' =>
      if Ascii.eqb a "-" || Ascii.eqb a " " then strip_separators s'
      else String a (strip_separators s')
  end.

(** Two identifiers differ only in hyphens and spaces: one is obtained from
    the other by inserting and deleting such characters. *)
Inductive same_up_to_separators : string → string → Prop :=
  | sep_nil : same_up_to_separators "" ""
  | sep_keep a s t :
      same_up_to_separators s t → same_up_to_separators (String a s) (String a t)
  | sep_left a s t :
      a = "-"%char ∨ a = " "%char →
      same_up_to_separators s t → same_up_to_separators (String a s) t
  | sep_right a s t :
      a = "-"%char ∨ a = " "%char →
      same_up_to_separators s t → same_up_to_separators s (String a t).

(** ** Paths: the [parts] of a [pathlib.PurePosixPath] *)

Abbreviation path := (list string).

(** The anchor of a path string: [/] for one or for three and more leading
    slashes, [//] for exactly two, none for a relative string. *)
Definition path_root (s : string) : path :=
  match s with
  | String "/" (String "/" (String "/" _)) => ["/"]
  | String "/" (String "/" _) => ["//"]
  | String "/" _ => ["/"]
  | _ => []
  end.

(** [pathlib] drops the empty and the [.] segments, and keeps [..]. *)
Definition kept_segment (p : string) : bool :=
  negb (String.eqb p "") && negb (String.eqb p ".").

Definition segments (s : string) : path :=
  List.filter kept_segment (Str.split "/" s).

(** [Path(s)]. *)
Definition Path (s : string) : path := path_root s ++ segments s.

(** [p / s]: an absolute right operand replaces the left one. *)
Definition joinpath (p : path) (s : string) : path :=
  if Str.startswith_char "/" s then Path s else p ++ segments s.

Notation "p // s" := (joinpath p s) (at level 40, left associativity).

(** [p.parent]. *)
Definition parent (p : path) : path := removelast p.

(** [str(p)]. *)
Definition path_str (p : path) : string :=
  match p with
  | [] => "."
  | r :: ps =>
      if Str.startswith_char "/" r then r +:+ String.concat "/" ps
      else String.concat "/" p
  end.

(** ** Exceptions

    An exception is its class and the data its message is made of, which is
    what an [except] clause and [str] observe.  The subclasses of [OSError]
    are told apart by the error number, as Python does.  An [Exception]
    raised while another exception is handled carries that one as its
    [__context__]; the context that library exceptions may carry is not
    modelled. *)

Inductive errno : Type := ENOENT | EEXIST | ENOTDIR | EISDIR | EINVAL | ENOTEMPTY.

Inductive exn : Type :=
  | OSError (code : errno) (filename : path) (filename2 : option path)
  | ConnectionError (msg : string)
  | HTTPError (status : nat) (reason url : string)
  | BadZipFile
  | KeyError (key : string)
  | ValueError (msg : string)
  | ComputeError (msg : string)
  | Exception (msg : string) (context : exn).

Definition errno_number (c : errno) : string :=
  match c with
  | ENOENT => "2" | EEXIST => "17" | ENOTDIR => "20"
  | EISDIR => "21" | EINVAL => "22" | ENOTEMPTY => "39"
  end.

Definition strerror (c : errno) : string :=
  match c with
  | ENOENT => "No such file or directory"
  | EEXIST => "File exists"
  | ENOTDIR => "Not a directory"
  | EISDIR => "Is a directory"
  | EINVAL => "Invalid argument"
  | ENOTEMPTY => "Directory not empty"
  end.

(** [type(e).__name__]. *)
Definition class_name (e : exn) : string :=
  match e with
  | OSError ENOENT _ _ => "FileNotFoundError"
  | OSError EEXIST _ _ => "FileExistsError"
  | OSError ENOTDIR _ _ => "NotADirectoryError"
  | OSError EISDIR _ _ => "IsADirectoryError"
  | OSError _ _ _ => "OSError"
  | ConnectionError _ => "ConnectionError"
  | HTTPError _ _ _ => "HTTPError"
  | BadZipFile => "BadZipFile"
  | KeyError _ => "KeyError"
  | ValueError _ => "ValueError"
  | ComputeError _ => "ComputeError"
  | Exception _ _ => "Exception"
  end.

(** [str(e)]. *)
Definition str (e : exn) : string :=
  match e with
  | OSError c p p2 =>
      "[Errno " +:+ errno_number c +:+ "] " +:+ strerror c +:+ ": "
      +:+ Str.repr (path_str p)
      +:+ match p2 with
          | Some q => " -> " +:+ Str.repr (path_str q)
          | None => ""
          end
  | ConnectionError msg => msg
  | HTTPError status reason url =>
      Str.of_nat status +:+
      (if (status <? 500)%nat then " Client Error: " else " Server Error: ")
      +:+ reason +:+ " for url: " +:+ url
  | BadZipFile => "File is not a zip file"
  | KeyError key => Str.repr key
  | ValueError msg => msg
  | ComputeError msg => msg
  | Exception msg _ => msg
  end.

(** [e.__context__]. *)
Definition context (e : exn) : option exn :=
  match e with
  | Exception _ c => Some c
  | _ => None
  end.

Inductive outcome (A : Type) : Type :=
  | Ok (a : A)
  | Raise (e : exn).
Arguments Ok {A} a.
Arguments Raise {A} e.

(** ** The file system

    The bytes of a file are kept as what [zipfile.ZipFile] makes of them: the
    members (name and content, in the order of the central directory) of a
    well-formed archive, or plain bytes that are no archive. *)

Definition archive : Type := list (string * string).

Inductive content : Type :=
  | Bytes (s : string)
  | Archive (members : archive).

Inductive node : Type :=
  | Dir
  | File (c : content).

(** The store maps the parts of a path to the node found there.  The empty
    path is the working directory.  Symbolic links, permissions, the limits
    on the length of a name and the resolution of [..] are outside the model:
    [..] is a name like any other, and a relative path is not the absolute
    one of the same file. *)
Abbreviation store := (gmap path node).

Definition is_dir (m : store) (p : path) : bool :=
  match p with
  | [] => true
  | _ => match m !! p with Some Dir => true | _ => false end
  end.

Definition is_file (m : store) (p : path) : bool :=
  match m !! p with Some (File _) => true | _ => false end.


(** Directories stay directories, regular files stay regular files. *)
Definition kinds_kept (m m' : store) : Prop :=
  (∀ q, m !! q = Some Dir → m' !! q = Some Dir) ∧
  (∀ q, is_file m q = true → is_file m' q = true).

(** [Path.mkdir(parents=True, exist_ok=True)], walking down from [base]: a
    directory on the way is kept, a missing one is created, a regular file
    in the way raises ([FileExistsError] at the last component,
    [NotADirectoryError] before it).  [target] is the path in the message. *)
Fixpoint mkdir_from (target base : path) (rest : list string) (m : store)
  : outcome store :=
  match rest with
  | [] => Ok m
  | x :: rest' =>
      let p := base ++ [x] in
      match m !! p with
      | Some Dir => mkdir_from target p rest' m
      | Some (File _) =>
          match rest' with
          | [] => Raise (OSError EEXIST target None)
          | _ => Raise (OSError ENOTDIR target None)
          end
      | None => mkdir_from target p rest' (<[p := Dir]> m)
      end
  end.

Definition mkdir_p (p : path) (m : store) : outcome store := mkdir_from p [] p m.

(** What [open(p, 'wb')] raises when the directory of [p] is not there. *)
Definition parent_error (m : store) (p : path) (p2 : option path) : exn :=
  match m !! parent (default p p2) with
  | Some (File _) => OSError ENOTDIR p p2
  | _ => OSError ENOENT p p2
  end.

(** [open(p, 'wb')] followed by the writes and the close. *)
Definition write_file (p : path) (c : content) (m : store) : outcome store :=
  match p with
  | [] => Raise (OSError EISDIR p None)
  | _ =>
      if negb (is_dir m (parent p)) then Raise (parent_error m p None)
      else match m !! p with
           | Some Dir => Raise (OSError EISDIR p None)
           | _ => Ok (<[p := File c]> m)
           end
  end.

(** [Path.unlink()]. *)
Definition unlink_file (p : path) (m : store) : outcome store :=
  match m !! p with
  | Some (File _) => Ok (delete p m)
  | Some Dir => Raise (OSError EISDIR p None)
  | None => Raise (OSError ENOENT p None)
  end.

(** The entries strictly below [p]. *)
Definition below (p : path) (m : store) : store :=
  filter (λ kv, p `prefix_of` kv.1 ∧ kv.1 ≠ p) m.

(** The subtree at [src] re-rooted at [dst]. *)
Definition moved (src dst : path) (m : store) : store :=
  kmap (λ k, dst ++ drop (length src) k) (filter (λ kv, src `prefix_of` kv.1) m).

(** [Path.rename(dst)], that is POSIX [rename]: a regular file replaces a
    regular file at [dst] and never a directory; a directory moves with all
    that is below it, to a free name or onto an empty directory, and not
    into itself. *)
Definition rename_path (src dst : path) (m : store) : outcome store :=
  match m !! src with
  | None => Raise (OSError ENOENT src (Some dst))
  | Some (File c) =>
      if negb (is_dir m (parent dst)) then Raise (parent_error m src (Some dst))
      else if is_dir m dst then Raise (OSError EISDIR src (Some dst))
      else Ok (<[dst := File c]> (delete src m))
  | Some Dir =>
      if bool_decide (src = dst) then Ok m
      else if bool_decide (src `prefix_of` dst)
           then Raise (OSError EINVAL src (Some dst))
      else if negb (is_dir m (parent dst)) then Raise (parent_error m src (Some dst))
      else if is_file m dst then Raise (OSError ENOTDIR src (Some dst))
      else if negb (bool_decide (below dst m = ∅))
           then Raise (OSError ENOTEMPTY src (Some dst))
      else Ok (moved src dst m ∪ filter (λ kv, ¬ src `prefix_of` kv.1) m)
  end.

(** ** zipfile *)

(** [ZipFile.namelist()]. *)
Definition namelist (z : archive) : list string := z.*1.

(** [ZipFile.getinfo(name)]: of several members of one name the last one. *)
Definition getinfo (z : archive) (name : string) : option string :=
  snd <$> last (List.filter (λ m, String.eqb (fst m) name) z).

(** The segments of a member name that extraction keeps: none of the empty
    one, [.] and [..], so the member lands below the target directory. *)
Definition arc_segment (p : string) : bool :=
  kept_segment p && negb (String.eqb p "..").

Definition arcname (name : string) : path :=
  List.filter arc_segment (Str.split "/" name).

(** [os.makedirs(base / rest)], walking down from [base] as [mkdir_from]
    does; the exception names the directory that could not be made. *)
Fixpoint makedirs_from (base : path) (rest : list string) (m : store) : outcome store :=
  match rest with
  | [] => Ok m
  | x :: rest' =>
      let p := base ++ [x] in
      match m !! p with
      | Some Dir => makedirs_from p rest' m
      | Some (File _) =>
          match rest' with
          | [] => Raise (OSError EEXIST p None)
          | y :: _ => Raise (OSError ENOTDIR (p ++ [y]) None)
          end
      | None => makedirs_from p rest' (<[p := Dir]> m)
      end
  end.

(** [if upperdirs and not os.path.exists(upperdirs): os.makedirs(upperdirs)]. *)
Definition make_upperdirs (targetpath : path) (m : store) : outcome store :=
  let upperdirs := parent targetpath in
  if bool_decide (upperdirs = []) || bool_decide (is_Some (m !! upperdirs)) then Ok m
  else makedirs_from [] upperdirs m.

(** [ZipFile._extract_member]: make the upper directories, then a directory
    for a name that ends in a slash, else the file.  The store is returned
    with the result, since what is made before a failure stays. *)
Definition extract_member (z : archive) (target_dir : path) (name : string)
  (m : store) : outcome unit * store :=
  let targetpath := target_dir ++ arcname name in
  match make_upperdirs targetpath m with
  | Raise e => (Raise e, m)
  | Ok m1 =>
      if Str.endswith name "/" then
        if is_dir m1 targetpath then (Ok tt, m1)
        else if is_file m1 targetpath then (Raise (OSError EEXIST targetpath None), m1)
        else if negb (is_dir m1 (parent targetpath))
             then (Raise (parent_error m1 targetpath None), m1)
        else (Ok tt, <[targetpath := Dir]> m1)
      else
        match getinfo z name with
        | Some data =>
            match write_file targetpath (Bytes data) m1 with
            | Ok m2 => (Ok tt, m2)
            | Raise e => (Raise e, m1)
            end
        | None => (Raise (KeyError ("There is no item named " +:+ Str.repr name
                                    +:+ " in the archive")), m1)
        end
  end.

(** [ZipFile.extractall(path)]: the members in the order of [namelist]; the
    members extracted before a failure stay extracted. *)
Fixpoint extract_names (z : archive) (target_dir : path) (names : list string)
  (m : store) : outcome unit * store :=
  match names with
  | [] => (Ok tt, m)
  | name :: names' =>
      match extract_member z target_dir name m with
      | (Raise e, m1) => (Raise e, m1)
      | (Ok _, m1) => extract_names z target_dir names' m1
      end
  end.

(** ** The world and the state-and-exception monad *)

Inductive reply : Type :=
  | Refused (msg : string)
  | Response (status : nat) (reason : string) (body : content).

Record response : Type := mkResponse {
  status_code : nat;
  reason : string;
  url : string;
  body : content;
}.

Record world : Type := World {
  fs : store;
  requests : list string;
}.

(** A table: named, ordered columns and an ordered sequence of rows. *)
Record DataFrame : Type := mkDataFrame {
  columns : list string;
  rows : list (list string);
}.

(** What the functions take from outside the module: the home directory of
    the user, the remote side (a reply for a URL, which may depend on the
    requests made before), what [polars.read_csv] makes of the bytes of a
    file for a given separator, and what it makes of a path at which no
    regular file lies. *)
Record env : Type := Env {
  home : path;
  remote : list string → string → reply;
  parse_csv : content → string → outcome DataFrame;
  read_other : store → path → string → outcome DataFrame;
}.

Definition M (A : Type) : Type := world → outcome A * world.

Definition ret {A} (a : A) : M A := λ w, (Ok a, w).

Definition raise {A} (e : exn) : M A := λ w, (Raise e, w).

Definition bind {A B} (c : M A) (k : A → M B) : M B :=
  λ w, match c w with
       | (Ok a, w') => k a w'
       | (Raise e, w') => (Raise e, w')
       end.

(** [try: c  except Exception as e: h e]. *)
Definition try_except {A} (c : M A) (h : exn → M A) : M A :=
  λ w, match c w with
       | (Ok a, w') => (Ok a, w')
       | (Raise e, w') => h e w'
       end.

Global Instance M_ret : MRet M := @ret.
Global Instance M_bind : MBind M := λ A B k c, bind c k.

(** A file-system operation as a step of the monad: on an exception the
    store stays as it was. *)
Definition on_store (op : store → outcome store) : M unit :=
  λ w, match op (fs w) with
       | Ok m => (Ok tt, World m (requests w))
       | Raise e => (Raise e, w)
       end.

(** [Path.exists()]. *)
Definition path_exists (p : path) : M bool :=
  λ w, (Ok (bool_decide (is_Some (fs w !! p)) || bool_decide (p = [])), w).

Definition mkdir (p : path) : M unit := on_store (mkdir_p p).
Definition write_bytes (p : path) (c : content) : M unit := on_store (write_file p c).
Definition rename (src dst : path) : M unit := on_store (rename_path src dst).
Definition unlink (p : path) : M unit := on_store (unlink_file p).

(** [zipfile.ZipFile(p)]. *)
Definition ZipFile (p : path) : M archive :=
  λ w, match fs w !! p with
       | Some (File (Archive z)) => (Ok z, w)
       | Some (File (Bytes _)) => (Raise BadZipFile, w)
       | Some Dir => (Raise (OSError EISDIR p None), w)
       | None => (Raise (OSError ENOENT p None), w)
       end.

Definition extractall (z : archive) (target_dir : path) : M unit :=
  λ w, let (r, m) := extract_names z target_dir (namelist z) (fs w) in
       (r, World m (requests w)).

(** [requests.get(url, stream=True)]: the request is issued and logged; the
    transport fails or a response comes back, whose body arrives whole. *)
Definition requests_get (E : env) (u : string) : M response :=
  λ w, let w' := World (fs w) (requests w ++ [u]) in
       match remote E (requests w) u with
       | Refused msg => (Raise (ConnectionError msg), w')
       | Response st rs b => (Ok (mkResponse st rs u b), w')
       end.

(** [Response.raise_for_status()]. *)
Definition raise_for_status (r : response) : M unit :=
  if (400 <=? status_code r)%nat && (status_code r <? 600)%nat
  then raise (HTTPError (status_code r) (reason r) (url r))
  else mret tt.

(** [polars.read_csv(p, separator=sep)]: what the reader makes of the bytes
    of the file, or of a path without regular file; the world stays as it
    is. *)
Definition read_csv (E : env) (p : path) (sep : string) : M DataFrame :=
  λ w, match fs w !! p with
       | Some (File c) => (parse_csv E c sep, w)
       | _ => (read_other E (fs w) p sep, w)
       end.

(** ** The four functions of [statscan.py] *)

(** [Path(custom_cache_dir) if custom_cache_dir else Path.home() / ".statscan_cache"]:
    [None] and the empty string are both falsy. *)
Definition cache_dir_path (E : env) (custom_cache_dir : option string) : path :=
  match custom_cache_dir with
  | Some s => if String.eqb s "" then home E // ".statscan_cache" else Path s
  | None => home E // ".statscan_cache"
  end.

Definition get_cache_dir (E : env) (custom_cache_dir : option string) : M path :=
  let cache_dir := cache_dir_path E custom_cache_dir in
  mkdir cache_dir ;;
  mret cache_dir.

(** The loop over [namelist()] that stops at the first name ending, in lower
    case, in [.csv]. *)
Fixpoint find_csv (names : list string) : option string :=
  match names with
  | [] => None
  | filename :: names' =>
      if Str.endswith (Str.lower filename) ".csv" then Some filename
      else find_csv names'
  end.

(** [not csv_filename]. *)
Definition falsy (csv_filename : option string) : bool :=
  match csv_filename with
  | None => true
  | Some s => String.eqb s ""
  end.

(** The f-string [{table_id}-{language}]. *)
Definition entry_name (table_id language : string) : string :=
  table_id +:+ "-" +:+ language.

Definition no_csv_message (table_id : string) : string :=
  "No CSV file found in the zip file for table " +:+ table_id.

Definition download_table (E : env) (table_id : string)
  (cache_dir : option string) (language : string) : M path :=
  cache_path ← get_cache_dir E cache_dir ;
  let zip_path := cache_path // (entry_name table_id language +:+ ".zip") in
  let table_dir := cache_path // entry_name table_id language in
  let csv_path := table_dir // (entry_name table_id language +:+ ".csv") in
  found ← path_exists csv_path ;
  if found : bool then mret csv_path
  else
    mkdir table_dir ;;
    let url := get_table_url table_id language in
    response ← requests_get E url ;
    raise_for_status response ;;
    write_bytes zip_path (body response) ;;
    zip_ref ← ZipFile zip_path ;
    extractall zip_ref table_dir ;;
    let csv_filename := find_csv (namelist zip_ref) in
    match csv_filename with
    | Some filename =>
        if falsy csv_filename then raise (ValueError (no_csv_message table_id))
        else
          let extracted_path := table_dir // filename in
          (if bool_decide (extracted_path ≠ csv_path)
           then rename extracted_path csv_path else mret tt) ;;
          unlink zip_path ;;
          mret csv_path
    | None => raise (ValueError (no_csv_message table_id))
    end.

(** [";" if language == "fra" else ","]. *)
Definition delimiter (language : string) : string :=
  if String.eqb language "fra" then ";" else ",".

Definition fetch_error_message (table_id : string) (e : exn) : string :=
  "Error fetching table " +:+ table_id +:+ ": " +:+ str e.

Definition get_table (E : env) (table_id : string)
  (cache_dir : option string) (language : string) : M DataFrame :=
  try_except
    (csv_path ← download_table E table_id cache_dir language ;
     df ← read_csv E csv_path (delimiter language) ;
     mret df)
    (λ e, raise (Exception (fetch_error_message table_id e) e)).

(** The local variables [zip_path], [table_dir] and [csv_path] of
    [download_table], as functions of the cache directory. *)
Definition zip_path (cache_path : path) (table_id language : string) : path :=
  cache_path // (entry_name table_id language +:+ ".zip").

Definition table_dir (cache_path : path) (table_id language : string) : path :=
  cache_path // entry_name table_id language.

Definition csv_path (cache_path : path) (table_id language : string) : path :=
  table_dir cache_path table_id language // (entry_name table_id language +:+ ".csv").

(** A member name that [pathlib] and [zipfile] read alike: it is relative and
    has no [..] segment, so the member is extracted where
    [table_dir / csv_filename] points. *)
Definition safe_member_name (name : string) : Prop :=
  Str.startswith_char "/" name = false ∧ segments name = arcname name.

(** The specification's wording of the test on a member name: it ends,
    whatever the case of its letters, in the text-file extension, that is in
    a dot followed by [c] or [C], by [s] or [S] and by [v] or [V]. *)
Definition ends_in_csv (name : string) : Prop :=
  ∃ (stem : string) (c s v : ascii),
    name = stem +:+ String "." (String c (String s (String v ""))) ∧
    (c = "c" ∨ c = "C")%char ∧ (s = "s" ∨ s = "S")%char ∧ (v = "v" ∨ v = "V")%char.

(** The call misses the cache, is served the archive [z] with a status that
    is no error, writes it and extracts it: [w4] is the world when the
    extraction is done. *)
Definition extraction_done (E : env) (table_id : string) (cache_dir : option string)
  (language : string) (w : world) (z : archive) (w4 : world) : Prop :=
  ∃ cache_path w1 w2 st rs w3,
    get_cache_dir E cache_dir w = (Ok cache_path, w1) ∧
    fs w1 !! csv_path cache_path table_id language = None ∧
    mkdir (table_dir cache_path table_id language) w1 = (Ok tt, w2) ∧
    remote E (requests w2) (get_table_url table_id language)
      = Response st rs (Archive z) ∧
    ¬ (400 ≤ st < 600)%nat ∧
    write_bytes (zip_path cache_path table_id language) (Archive z)
      (World (fs w2) (requests w2 ++ [get_table_url table_id language]))
      = (Ok tt, w3) ∧
    extractall z (table_dir cache_path table_id language) w3 = (Ok tt, w4).

(** The world in which a call that gets through the extraction of [z] leaves
    the extraction, step after step. *)
Definition after_extraction (E : env) (table_id : string) (cache_dir : option string)
  (language : string) (z : archive) (w : world) : world :=
  let cp := cache_dir_path E cache_dir in
  let w1 := (get_cache_dir E cache_dir w).2 in
  let w2 := (mkdir (table_dir cp table_id language) w1).2 in
  let w3 := (write_bytes (zip_path cp table_id language) (Archive z)
               (World (fs w2) (requests w2 ++ [get_table_url table_id language]))).2 in
  (extractall z (table_dir cp table_id language) w3).2.

(** A member name of a flat archive: a file name without slash that is
    neither empty nor a dot name. *)
Definition flat_name (name : string) : Prop :=
  Str.has_char "/" name = false ∧ arc_segment name = true.

(** ** [download_table] step by step

    The same function with the monad unfolded: the stores after the single
    steps are named, which is what the proofs take apart. *)

Definition download_table_flat (E : env) (table_id : string)
  (cache_dir : option string) (language : string) : M path := λ w,
  let cache_path := cache_dir_path E cache_dir in
  let zip_path := cache_path // (entry_name table_id language +:+ ".zip") in
  let table_dir := cache_path // entry_name table_id language in
  let csv_path := table_dir // (entry_name table_id language +:+ ".csv") in
  let url := get_table_url table_id language in
  let log := requests w ++ [url] in
  match mkdir_p cache_path (fs w) with
  | Raise e => (Raise e, w)
  | Ok m1 =>
  if bool_decide (is_Some (m1 !! csv_path)) || bool_decide (csv_path = [])
  then (Ok csv_path, World m1 (requests w))
  else
  match mkdir_p table_dir m1 with
  | Raise e => (Raise e, World m1 (requests w))
  | Ok m2 =>
  match remote E (requests w) url with
  | Refused msg => (Raise (ConnectionError msg), World m2 log)
  | Response st rs b =>
  if (400 <=? st)%nat && (st <? 600)%nat
  then (Raise (HTTPError st rs url), World m2 log)
  else
  match write_file zip_path b m2 with
  | Raise e => (Raise e, World m2 log)
  | Ok m3 =>
  match b with
  | Bytes _ => (Raise BadZipFile, World m3 log)
  | Archive z =>
  match extract_names z table_dir (namelist z) m3 with
  | (Raise e, m4) => (Raise e, World m4 log)
  | (Ok _, m4) =>
  match find_csv (namelist z) with
  | None => (Raise (ValueError (no_csv_message table_id)), World m4 log)
  | Some filename =>
  match (if bool_decide (table_dir // filename ≠ csv_path)
         then rename_path (table_dir // filename) csv_path m4 else Ok m4) with
  | Raise e => (Raise e, World m4 log)
  | Ok m5 =>
  match unlink_file zip_path m5 with
  | Raise e => (Raise e, World m5 log)
  | Ok m6 => (Ok csv_path, World m6 log)
  end end end end end end end end end.

(** ** The setting of the test suite

    The fixtures of [tests/test_statscan.py]: the sample table, the archive
    that holds it as [14100287.csv], a temporary cache directory, and remote
    sides that serve the archive, answer 404, or serve an archive without a
    text member. *)

Definition newline : string := String (ascii_of_nat 10) "".

Definition sample_csv_content : string :=
  "REF_DATE,GEO,VALUE" +:+ newline +:+
  "2020-01,Canada,100" +:+ newline +:+
  "2020-02,Canada,101" +:+ newline.

Definition sample_csv_content_fra : string :=
  "REF_DATE;GEO;VALUE" +:+ newline +:+
  "2020-01;Canada;100" +:+ newline +:+
  "2020-02;Canada;101" +:+ newline.

Definition mock_zip_file : archive := [("14100287.csv", sample_csv_content)].

Definition temp_cache_dir : string := "/tmp/statscan_test_cache".

(** A reader of delimited text for the examples: lines are split at the
    separator, the first line names the columns, and a line with more fields
    than columns is refused.  No quoting and no type inference. *)
Definition simple_read_csv (c : content) (sep : string) : outcome DataFrame :=
  match c, sep with
  | Bytes s, String d EmptyString =>
      match List.filter (λ l, negb (String.eqb l "")) (Str.split (ascii_of_nat 10) s) with
      | [] => Raise (ComputeError "empty CSV")
      | header :: lines =>
          let cols := Str.split d header in
          if forallb (λ l, length (Str.split d l) <=? length cols)%nat lines
          then Ok (mkDataFrame cols (List.map (Str.split d) lines))
          else Raise (ComputeError "found more fields than defined in 'Schema'")
      end
  | _, _ => Raise (ComputeError "could not parse the file")
  end.

(** What the reader of the examples makes of a path without regular
    file: the error of the operating system. *)
Definition simple_read_other (m : store) (p : path) (sep : string) : outcome DataFrame :=
  Raise (OSError (if is_dir m p then EISDIR else ENOENT) p None).

Definition user_home : path := ["/"; "home"; "user"].

(** The mock of the tests: the archive for every URL. *)
Definition mock_env : env :=
  Env user_home (λ _ _, Response 200 "OK" (Archive mock_zip_file)) simple_read_csv simple_read_other.

(** A mock that serves the archive once and refuses every later request. *)
Definition once_env : env :=
  Env user_home
    (λ history _, match history with
                  | [] => Response 200 "OK" (Archive mock_zip_file)
                  | _ => Refused "the mock was called twice"
                  end)
    simple_read_csv simple_read_other.

Definition not_found_env : env :=
  Env user_home (λ _ _, Response 404 "Not Found" (Bytes "Not found")) simple_read_csv simple_read_other.

Definition no_csv_env : env :=
  Env user_home
    (λ _ _, Response 200 "OK" (Archive [("readme.txt", "no table here"); ("notes/a.txt", "a")]))
    simple_read_csv simple_read_other.

(** A flat archive without text member. *)
Definition readme_env : env :=
  Env user_home (λ _ _, Response 200 "OK" (Archive [("readme.txt", "no table here")]))
    simple_read_csv simple_read_other.

Definition fra_env : env :=
  Env user_home
    (λ _ _, Response 200 "OK" (Archive [("14100287.csv", sample_csv_content_fra)]))
    simple_read_csv simple_read_other.

(** The file system of a test: the temporary cache directory is there and
    empty. *)
Definition test_world : world :=
  World {[ ["/"] := Dir; ["/"; "tmp"] := Dir;
           ["/"; "tmp"; "statscan_test_cache"] := Dir ]} [].

Definition test_id : string := "14-10-0287".

Definition test_cache_path : path := ["/"; "tmp"; "statscan_test_cache"].

Definition test_csv_path : path :=
  test_cache_path ++ ["14-10-0287-eng"; "14-10-0287-eng.csv"].

(** The world after one fetch of the sample table against the mock. *)
Definition fetched_world : world :=
  (download_table mock_env test_id (Some temp_cache_dir) "eng" test_world).2.

(** A file system with the root directory alone. *)
Definition bare_world : world := World {[ ["/"] := Dir ]} [].

(** A table whose second line has more fields than columns. *)
Definition ragged_env : env :=
  Env user_home
    (λ _ _, Response 200 "OK"
              (Archive [("14100287.csv", "A,B" +:+ newline +:+ "1,2,3" +:+ newline)]))
    simple_read_csv simple_read_other.

(** An archive as Statistics Canada serves them: the table and its metadata. *)
Definition metadata_env : env :=
  Env user_home
    (λ _ _, Response 200 "OK"
              (Archive [("14100287.csv", sample_csv_content);
                        ("14100287_MetaData.csv", "Cube Title,Product Id")]))
    simple_read_csv simple_read_other.

(** An archive whose text member is named by the absolute canonical path. *)
Definition absolute_name_env : env :=
  Env user_home
    (λ _ _, Response 200 "OK"
              (Archive [("/tmp/statscan_test_cache/14-10-0287-eng/14-10-0287-eng.csv",
                         sample_csv_content)]))
    simple_read_csv simple_read_other.

(** ** The paths of the test suite

    [test_cache_reuse] seeds the table at [<cache>/<id>.csv], and
    [test_download_table] looks for the archive at [<cache>/<id>.zip]. *)

Definition seeded_csv_path (cache_path : path) (table_id : string) : path :=
  cache_path // (table_id +:+ ".csv").

Definition checked_zip_path (cache_path : path) (table_id : string) : path :=
  cache_path // (table_id +:+ ".zip").

(** ** Worlds and remote sides for the failures of a fetch *)

(** A regular file where the cache directory should be, and one where its
    parent should be. *)
Definition blocked_world : world :=
  World {[ ["/"] := Dir; ["/"; "tmp"] := Dir;
           ["/"; "tmp"; "statscan_test_cache"] := File (Bytes "not a directory") ]} [].

Definition blocked_parent_world : world :=
  World {[ ["/"] := Dir; ["/"; "tmp"] := File (Bytes "not a directory") ]} [].

(** A remote side that cannot be reached, and one that answers 200 with a
    page that is no archive. *)
Definition refused_env : env :=
  Env user_home (λ _ _, Refused "Connection refused") simple_read_csv simple_read_other.

Definition html_env : env :=
  Env user_home (λ _ _, Response 200 "OK" (Bytes "<html>maintenance</html>"))
    simple_read_csv simple_read_other.

(** The world of [test_cache_reuse]: the sample table written at
    [<cache>/<id>.csv]. *)
Definition seeded_world : world :=
  World (<[seeded_csv_path test_cache_path test_id := File (Bytes sample_csv_content)]>
           (fs test_world)) [].

(** A cache whose canonical file does not parse. *)
Definition corrupt_world : world :=
  World (<[test_csv_path := File (Bytes ("A,B" +:+ newline +:+ "1,2,3" +:+ newline))]>
           (<[test_cache_path ++ ["14-10-0287-eng"] := Dir]> (fs test_world))) [].

(** A reply on which a fetch fails: the transport is refused, the status
    is an error, the body is no archive, or the archive is flat and has no
    text member. *)
Definition failing_reply (r : reply) : Prop :=
  match r with
  | Refused _ => True
  | Response st _ b =>
      (400 ≤ st < 600)%nat ∨
      match b with
      | Bytes _ => True
      | Archive z => Forall flat_name (namelist z) ∧ find_csv (namelist z) = None
      end
  end.





(** An archive with two members of one name. *)
Definition duplicate_archive : archive := [("data.csv", "first"); ("data.csv", "second")].

Definition duplicate_env : env :=
  Env user_home (λ _ _, Response 200 "OK" (Archive duplicate_archive))
    simple_read_csv simple_read_other.

(** An archive whose table lies in a folder. *)
Definition folder_archive : archive := [("tables/14100287.csv", sample_csv_content)].

Definition folder_env : env :=
  Env user_home (λ _ _, Response 200 "OK" (Archive folder_archive))
    simple_read_csv simple_read_other.

(** A remote side whose transport fails with the very words of a 404. *)
Definition failing_transport_env : env :=
  Env user_home (λ _ u, Refused ("404 Client Error: Not Found for url: " +:+ u))
    simple_read_csv simple_read_other.

(** A remote side that is out of service for the first request and serves
    the archive of the tests afterwards. *)
Definition flaky_env : env :=
  Env user_home
    (λ history _, match history with
                  | [] => Response 503 "Service Unavailable" (Bytes "try later")
                  | _ => Response 200 "OK" (Archive mock_zip_file)
                  end)
    simple_read_csv simple_read_other.


(** ** Canonical spellings

    The store is keyed by the parts of a path: it resolves neither [..] nor a
    relative path against the working directory.  A path names its file by
    its spelling alone when it is absolute and none of its segments is
    empty, a dot name, or holds a slash: of such paths, different spellings
    are different files (symbolic links apart).  What is said of the paths
    that a call leaves alone is said of such paths. *)
Definition proper_segment (s : string) : bool :=
  arc_segment s && negb (Str.has_char "/" s).

Definition canonical (p : path) : bool :=
  match p with
  | r :: rest => String.eqb r "/" && forallb proper_segment rest
  | [] => false
  end.

(** ** Lemmas on strings *)

Lemma str_app_nil_r s : s +:+ "" = s.
Proof. induction s; simpl; unfold String.app in *; simpl; congruence. Qed.

Lemma str_app_assoc s t u : (s +:+ t) +:+ u = s +:+ (t +:+ u).
Proof. unfold String.app. induction s; simpl; congruence. Qed.

Lemma str_app_cons a s t : String a s +:+ t = String a (s +:+ t).
Proof. reflexivity. Qed.

Lemma str_app_nil_l s : "" +:+ s = s.
Proof. reflexivity. Qed.

Lemma remove_char_spec s :
  Str.remove_char " " (Str.remove_char "-" s) = strip_separators s.
Proof.
  induction s as [|a s IH]; [done|]. simpl.
  destruct (Ascii.eqb a "-") eqn:Hh; simpl; [done|].
  destruct (Ascii.eqb a " ") eqn:Hs; simpl; by rewrite IH.
Qed.

Lemma strip_separators_clean s :
  Str.has_char "-" (strip_separators s) = false ∧
  Str.has_char " " (strip_separators s) = false.
Proof.
  induction s as [|a s [IH1 IH2]]; [done|]. simpl.
  destruct (Ascii.eqb a "-") eqn:Hh; simpl; [done|].
  destruct (Ascii.eqb a " ") eqn:Hs; simpl; [done|].
  by rewrite Hh, Hs, IH1, IH2.
Qed.

Lemma same_up_to_separators_strip s t :
  same_up_to_separators s t ↔ strip_separators s = strip_separators t.
Proof.
  split.
  - induction 1 as [|a s t _ IH|a s t Ha _ IH|a s t Ha _ IH]; simpl.
    + done.
    + by rewrite IH.
    + by destruct Ha as [-> | ->].
    + by destruct Ha as [-> | ->].
  - revert t. induction s as [|a s IHs]; intros t.
    + induction t as [|b t IHt]; simpl; [constructor|].
      destruct (Ascii.eqb b "-") eqn:Hh; simpl.
      { apply Ascii.eqb_eq in Hh as ->. intros H. apply sep_right; auto. }
      destruct (Ascii.eqb b " ") eqn:Hs; simpl; [|done].
      apply Ascii.eqb_eq in Hs as ->. intros H. apply sep_right; auto.
    + simpl. destruct (Ascii.eqb a "-") eqn:Hh; simpl.
      { apply Ascii.eqb_eq in Hh as ->. intros H. apply sep_left; auto. }
      destruct (Ascii.eqb a " ") eqn:Hs; simpl.
      { apply Ascii.eqb_eq in Hs as ->. intros H. apply sep_left; auto. }
      induction t as [|b t IHt]; simpl; [done|].
      destruct (Ascii.eqb b "-") eqn:Hh'; simpl.
      { apply Ascii.eqb_eq in Hh' as ->. intros H. apply sep_right; auto. }
      destruct (Ascii.eqb b " ") eqn:Hs'; simpl.
      { apply Ascii.eqb_eq in Hs' as ->. intros H. apply sep_right; auto. }
      intros [= -> H]. apply sep_keep; auto.
Qed.

(** C2: the URL is the fixed base, the identifier without its hyphens and
    spaces, a hyphen, the language tag and [.zip]; the stripped identifier
    holds no hyphen and no space; identifiers that differ only in hyphens and
    spaces get the same URL; the three spellings of table 21100033 all give
    the URL that ends in [21100033-eng.zip]. *)
Theorem get_table_url_strips_separators :
  (∀ table_id language,
     get_table_url table_id language
     = base_url +:+ strip_separators table_id +:+ "-" +:+ language +:+ ".zip"
     ∧ Str.has_char "-" (strip_separators table_id) = false
     ∧ Str.has_char " " (strip_separators table_id) = false) ∧
  (∀ id1 id2 language,
     same_up_to_separators id1 id2 →
     get_table_url id1 language = get_table_url id2 language) ∧
  get_table_url "21-10-0033" "eng"
    = "https://www150.statcan.gc.ca/n1/tbl/csv/21100033-eng.zip" ∧
  get_table_url "21 10 0033" "eng"
    = "https://www150.statcan.gc.ca/n1/tbl/csv/21100033-eng.zip" ∧
  get_table_url "21100033" "eng"
    = "https://www150.statcan.gc.ca/n1/tbl/csv/21100033-eng.zip".
Proof.
  split; [|split; [|by repeat split]].
  - intros table_id language. unfold get_table_url.
    rewrite remove_char_spec. split; [done|]. apply strip_separators_clean.
  - intros id1 id2 language H%same_up_to_separators_strip.
    unfold get_table_url. by rewrite !remove_char_spec, H.
Qed.

Lemma endswith_nil suffix : Str.endswith "" suffix = String.eqb "" suffix.
Proof. by destruct suffix. Qed.

Lemma endswith_cons a s suffix :
  Str.endswith (String a s) suffix
  = (String.eqb (String a s) suffix || Str.endswith s suffix).
Proof.
  change (Str.endswith (String a s) suffix)
    with (if String.eqb (String a s) suffix then true else Str.endswith s suffix).
  by destruct (String.eqb (String a s) suffix).
Qed.

Lemma endswith_spec s suffix :
  Str.endswith s suffix = true ↔ ∃ pre, s = pre +:+ suffix.
Proof.
  split.
  - induction s as [|a s IH].
    + rewrite endswith_nil. intros <-%String.eqb_eq. by exists "".
    + rewrite endswith_cons. intros [<-%String.eqb_eq|H]%orb_true_iff.
      * by exists "".
      * destruct (IH H) as [pre ->]. by exists (String a pre).
  - intros [pre ->]. induction pre as [|a pre IH].
    + rewrite str_app_nil_l. destruct suffix.
      * done.
      * rewrite endswith_cons, String.eqb_refl. done.
    + rewrite str_app_cons, endswith_cons, IH. apply orb_true_r.
Qed.

Lemma string_length_app s t :
  String.length (s +:+ t) = (String.length s + String.length t)%nat.
Proof. induction s; simpl; rewrite ?str_app_cons; simpl; auto. Qed.

Lemma str_app_inv_tail s t u : s +:+ u = t +:+ u → s = t.
Proof.
  revert t. induction s as [|a s IH]; intros [|b t] H; auto.
  - apply (f_equal String.length) in H.
    rewrite str_app_nil_l, str_app_cons in H. simpl in H.
    rewrite string_length_app in H. lia.
  - apply (f_equal String.length) in H.
    rewrite str_app_nil_l, str_app_cons in H. simpl in H.
    rewrite string_length_app in H. lia.
  - rewrite !str_app_cons in H. injection H as -> H. f_equal. auto.
Qed.

(** Two strings with different tails of one length are different. *)
Lemma str_app_tail_ne s t u v :
  String.length u = String.length v → u ≠ v → s +:+ u ≠ t +:+ v.
Proof.
  revert t. induction s as [|a s IH]; intros [|b t] Hl Hne H.
  - by rewrite !str_app_nil_l in H.
  - apply (f_equal String.length) in H.
    rewrite str_app_nil_l, string_length_app in H. simpl in H. lia.
  - apply (f_equal String.length) in H.
    rewrite str_app_nil_l, string_length_app in H. simpl in H. lia.
  - rewrite !str_app_cons in H. injection H as _ H. by eapply IH.
Qed.

Lemma lower_app s t : Str.lower (s +:+ t) = Str.lower s +:+ Str.lower t.
Proof. induction s as [|a s IH]; [done|]. rewrite str_app_cons. simpl. by rewrite IH. Qed.

Lemma lower_length s : String.length (Str.lower s) = String.length s.
Proof. induction s; simpl; auto. Qed.

Lemma has_char_app c s t :
  Str.has_char c (s +:+ t) = Str.has_char c s || Str.has_char c t.
Proof.
  induction s as [|a s IH]; [done|]. rewrite str_app_cons. simpl.
  rewrite IH. by destruct (Ascii.eqb a c).
Qed.

(** A string without the separator is its own single piece. *)
Lemma split_plain c s : Str.has_char c s = false → Str.split c s = [s].
Proof.
  induction s as [|a s IH]; [done|]. simpl.
  destruct (Ascii.eqb a c); [done|]. simpl. intros H. by rewrite IH.
Qed.

(** ** Lemmas on paths *)

Lemma segments_plain s :
  Str.has_char "/" s = false → s ≠ "" → s ≠ "." → segments s = [s].
Proof.
  intros H H1 H2. unfold segments. rewrite split_plain by done. simpl.
  unfold kept_segment.
  destruct (String.eqb_spec s ""); [done|].
  by destruct (String.eqb_spec s ".").
Qed.

Lemma startswith_plain s : Str.has_char "/" s = false → Str.startswith_char "/" s = false.
Proof. destruct s as [|a s]; [done|]. simpl. by destruct (Ascii.eqb a "/"). Qed.

Lemma joinpath_plain p s :
  Str.has_char "/" s = false → s ≠ "" → s ≠ "." → p // s = p ++ [s].
Proof.
  intros H H1 H2. unfold joinpath.
  by rewrite startswith_plain, segments_plain.
Qed.

Lemma has_hyphen_ne s t : Str.has_char "-" s = true → Str.has_char "-" t = false → s ≠ t.
Proof. intros H1 H2 <-. congruence. Qed.

Lemma entry_name_has_hyphen table_id language :
  Str.has_char "-" (entry_name table_id language) = true.
Proof.
  unfold entry_name. rewrite !has_char_app. simpl. by rewrite orb_true_r.
Qed.

Lemma entry_name_plain table_id language :
  Str.has_char "/" table_id = false → Str.has_char "/" language = false →
  Str.has_char "/" (entry_name table_id language) = false.
Proof.
  intros H1 H2. unfold entry_name. rewrite !has_char_app, H1, H2. done.
Qed.

(** ** Lemmas on the file system *)

Lemma take_S_cons_app (base : path) x rest k :
  base ++ take (S k) (x :: rest) = (base ++ [x]) ++ take k rest.
Proof. simpl. by rewrite <- app_assoc. Qed.

(** Creating directories keeps every entry that was there. *)
Lemma mkdir_from_keeps target rest : ∀ base (m m' : store),
  mkdir_from target base rest m = Ok m' →
  ∀ q v, m !! q = Some v → m' !! q = Some v.
Proof.
  induction rest as [|x rest IH]; intros base m m' H q v Hq; simpl in H.
  - by injection H as <-.
  - destruct (m !! (base ++ [x])) as [[|c]|] eqn:Hp.
    + eauto.
    + by destruct rest.
    + eapply IH; [exact H|]. rewrite lookup_insert_ne; [done|].
      intros <-. by rewrite Hp in Hq.
Qed.

(** Afterwards every directory on the way is there. *)
Lemma mkdir_from_dirs target rest : ∀ base (m m' : store),
  mkdir_from target base rest m = Ok m' →
  ∀ k, (0 < k ≤ length rest)%nat → m' !! (base ++ take k rest) = Some Dir.
Proof.
  induction rest as [|x rest IH]; intros base m m' H k Hk; simpl in *; [lia|].
  destruct k as [|k]; [lia|]. rewrite take_S_cons_app.
  destruct (m !! (base ++ [x])) as [[|c]|] eqn:Hp.
  - destruct k as [|k].
    + rewrite take_0, app_nil_r. eapply mkdir_from_keeps; eauto.
    + eapply IH; [exact H|]. simpl in *. lia.
  - by destruct rest.
  - destruct k as [|k].
    + rewrite take_0, app_nil_r. eapply mkdir_from_keeps; [exact H|].
      apply lookup_insert_eq.
    + eapply IH; [exact H|]. simpl in *. lia.
Qed.

(** Whatever is there afterwards was there before, or is a directory on
    the way. *)
Lemma mkdir_from_new target rest : ∀ base (m m' : store),
  mkdir_from target base rest m = Ok m' →
  ∀ q v, m' !! q = Some v →
  m !! q = Some v ∨ (v = Dir ∧ ∃ k, (0 < k ≤ length rest)%nat ∧ q = base ++ take k rest).
Proof.
  induction rest as [|x rest IH]; intros base m m' H q v Hq; simpl in H.
  - injection H as <-. by left.
  - destruct (m !! (base ++ [x])) as [[|c]|] eqn:Hp.
    + destruct (IH _ _ _ H _ _ Hq) as [?|[-> (k & Hk & ->)]]; [by left|].
      right. split; [done|]. exists (S k). rewrite take_S_cons_app. simpl. split; [lia|done].
    + by destruct rest.
    + destruct (IH _ _ _ H _ _ Hq) as [Hl|[-> (k & Hk & ->)]].
      * destruct (decide (base ++ [x] = q)) as [<-|Hne].
        -- rewrite lookup_insert_eq in Hl. injection Hl as <-.
           right. split; [done|]. exists 1%nat. simpl. rewrite take_0. split; [lia|done].
        -- rewrite lookup_insert_ne in Hl by done. by left.
      * right. split; [done|]. exists (S k). rewrite take_S_cons_app. simpl. split; [lia|done].
Qed.

(** Where every directory on the way is there, nothing changes. *)
Lemma mkdir_from_noop target rest : ∀ base (m : store),
  (∀ k, (0 < k ≤ length rest)%nat → m !! (base ++ take k rest) = Some Dir) →
  mkdir_from target base rest m = Ok m.
Proof.
  induction rest as [|x rest IH]; intros base m H; simpl; [done|].
  pose proof (H 1%nat ltac:(simpl; lia)) as H1. simpl in H1.
  rewrite take_0 in H1. rewrite H1.
  apply IH. intros k Hk. rewrite <- take_S_cons_app. apply H. simpl. lia.
Qed.

Lemma mkdir_p_idempotent (p : path) (m m' : store) :
  mkdir_p p m = Ok m' → mkdir_p p m' = Ok m'.
Proof.
  intros H. apply mkdir_from_noop. intros k Hk.
  eapply mkdir_from_dirs; eauto.
Qed.

Lemma mkdir_p_is_dir (p : path) (m m' : store) : mkdir_p p m = Ok m' → is_dir m' p = true.
Proof.
  intros H. destruct p as [|x p]; [done|].
  unfold is_dir.
  pose proof (mkdir_from_dirs _ _ _ _ _ H (length (x :: p))) as Hd.
  rewrite firstn_all in Hd. simpl in Hd. rewrite Hd; [done|]. lia.
Qed.

Lemma is_dir_Some (m : store) (p : path) : m !! p = Some Dir → is_dir m p = true.
Proof. intros H. unfold is_dir. rewrite H. by destruct p. Qed.

Lemma is_file_Some (m : store) (p : path) : is_file m p = true ↔ ∃ c, m !! p = Some (File c).
Proof.
  unfold is_file. split.
  - destruct (m !! p) as [[|c]|]; [done|eauto|done].
  - by intros [c ->].
Qed.

Lemma kinds_kept_refl (m : store) : kinds_kept m m.
Proof. by split. Qed.

Lemma kinds_kept_trans (m1 m2 m3 : store) :
  kinds_kept m1 m2 → kinds_kept m2 m3 → kinds_kept m1 m3.
Proof. intros [? ?] [? ?]. split; auto. Qed.

Lemma kinds_kept_is_dir (m m' : store) (p : path) : kinds_kept m m' → is_dir m p = true → is_dir m' p = true.
Proof.
  intros [Hd _]. destruct p as [|x p]; [done|]. unfold is_dir.
  destruct (m !! (x :: p)) as [[|c]|] eqn:Hp; [|done..].
  by rewrite (Hd _ Hp).
Qed.

Lemma mkdir_from_kinds (target : path) (rest : list string) (base : path) (m m' : store) :
  mkdir_from target base rest m = Ok m' → kinds_kept m m'.
Proof.
  intros H. split.
  - intros q. by eapply mkdir_from_keeps.
  - intros q [c Hc]%is_file_Some. apply is_file_Some. exists c.
    by eapply mkdir_from_keeps.
Qed.

Lemma write_file_lookup (p : path) (c : content) (m m' : store) :
  write_file p c m = Ok m' → m' = <[p := File c]> m ∧ m !! p ≠ Some Dir.
Proof.
  unfold write_file. destruct p as [|x p]; [done|].
  destruct (negb _); [done|].
  destruct (m !! (x :: p)) as [[|c']|] eqn:Hp; [done|..]; by intros [= <-].
Qed.

Lemma write_file_kinds (p : path) (c : content) (m m' : store) :
  write_file p c m = Ok m' → kinds_kept m m'.
Proof.
  intros [-> Hn]%write_file_lookup. split.
  - intros q Hq. rewrite lookup_insert_ne; [done|]. by intros ->.
  - intros q [c' Hc]%is_file_Some. apply is_file_Some.
    destruct (decide (p = q)) as [->|Hne].
    + rewrite lookup_insert_eq. eauto.
    + rewrite lookup_insert_ne by done. eauto.
Qed.

Lemma insert_dir_kinds (p : path) (m : store) :
  is_file m p = false → kinds_kept m (<[p := Dir]> m).
Proof.
  intros Hf. split.
  - intros q Hq. destruct (decide (p = q)) as [->|Hne].
    + apply lookup_insert_eq.
    + by rewrite lookup_insert_ne.
  - intros q Hq. destruct (decide (p = q)) as [->|Hne]; [congruence|].
    unfold is_file. rewrite lookup_insert_ne by done. exact Hq.
Qed.

(** Where [os.makedirs] succeeds it does what [Path.mkdir] with parents
    does. *)
Lemma makedirs_from_Ok (target : path) (rest : list string) :
  ∀ (base : path) (m m' : store),
  makedirs_from base rest m = Ok m' → mkdir_from target base rest m = Ok m'.
Proof.
  induction rest as [|x rest IH]; intros base m m' H; simpl in *; [done|].
  destruct (m !! (base ++ [x])) as [[|c]|]; [by apply IH| |by apply IH].
  by destruct rest.
Qed.

Lemma make_upperdirs_keeps (t : path) (m m' : store) :
  make_upperdirs t m = Ok m' → ∀ q v, m !! q = Some v → m' !! q = Some v.
Proof.
  unfold make_upperdirs. destruct (_ || _).
  - by intros [= <-].
  - intros H%(makedirs_from_Ok t). revert H. apply mkdir_from_keeps.
Qed.

Lemma make_upperdirs_kinds (t : path) (m m' : store) :
  make_upperdirs t m = Ok m' → kinds_kept m m'.
Proof.
  unfold make_upperdirs. destruct (_ || _).
  - intros [= <-]. apply kinds_kept_refl.
  - intros H%(makedirs_from_Ok t). revert H. apply mkdir_from_kinds.
Qed.

(** Extracting a member keeps the kind of whatever was there. *)
Lemma extract_member_kinds (z : archive) (td : path) (name : string) (m m' : store) :
  extract_member z td name m = (Ok tt, m') → kinds_kept m m'.
Proof.
  unfold extract_member.
  destruct (make_upperdirs _ m) as [m1|e] eqn:Hmk; [|done].
  apply make_upperdirs_kinds in Hmk.
  destruct (Str.endswith name "/").
  - destruct (is_dir m1 _) eqn:Hd; [by intros [= <-]|].
    destruct (is_file m1 _) eqn:Hf; [done|].
    destruct (negb _); [done|]. intros [= <-].
    eapply kinds_kept_trans; [exact Hmk|]. by apply insert_dir_kinds.
  - destruct (getinfo z name) as [data|]; [|done].
    destruct (write_file _ _ m1) as [m2|e] eqn:Hw; [|done]. intros [= <-].
    apply write_file_kinds in Hw. by eapply kinds_kept_trans.
Qed.

(** A member that is a file is written at its target with the bytes that
    [getinfo] gives for its name. *)
Lemma extract_member_file (z : archive) (td : path) (name : string) (m m' : store) :
  extract_member z td name m = (Ok tt, m') → Str.endswith name "/" = false →
  ∃ data, getinfo z name = Some data ∧
          m' !! (td ++ arcname name) = Some (File (Bytes data)).
Proof.
  unfold extract_member. intros H Hn. rewrite Hn in H.
  destruct (make_upperdirs _ m) as [m1|e]; [|done].
  destruct (getinfo z name) as [data|]; [|done].
  destruct (write_file _ _ m1) as [m2|e] eqn:Hw; [|done]. injection H as <-.
  apply write_file_lookup in Hw as [-> _]. exists data. split; [done|].
  apply lookup_insert_eq.
Qed.

(** Every other path keeps what it held. *)
Lemma extract_member_other (z : archive) (td : path) (name : string) (m m' : store) :
  extract_member z td name m = (Ok tt, m') →
  ∀ (q : path) v, q ≠ td ++ arcname name → m !! q = Some v → m' !! q = Some v.
Proof.
  unfold extract_member. intros H q v Hq Hv.
  destruct (make_upperdirs _ m) as [m1|e] eqn:Hmk; [|done].
  pose proof (make_upperdirs_keeps _ _ _ Hmk _ _ Hv) as Hv1.
  destruct (Str.endswith name "/").
  - destruct (is_dir m1 _); [by injection H as <-|].
    destruct (is_file m1 _); [done|].
    destruct (negb _); [done|]. injection H as <-.
    by rewrite lookup_insert_ne.
  - destruct (getinfo z name) as [data|]; [|done].
    destruct (write_file _ _ m1) as [m2|e] eqn:Hw; [|done]. injection H as <-.
    apply write_file_lookup in Hw as [-> _]. by rewrite lookup_insert_ne.
Qed.

Lemma extract_names_kinds (z : archive) (td : path) (names : list string) :
  ∀ (m m' : store), extract_names z td names m = (Ok tt, m') → kinds_kept m m'.
Proof.
  induction names as [|name names IH]; intros m m' H; simpl in H.
  - injection H as <-. apply kinds_kept_refl.
  - destruct (extract_member z td name m) as [[[]|e] m1] eqn:H1; [|done].
    eapply kinds_kept_trans; [by eapply extract_member_kinds|by apply IH].
Qed.

(** After a whole extraction a regular file lies at the target of every
    member that is a file. *)
Lemma extract_names_is_file (z : archive) (td : path) (names : list string) :
  ∀ (m m' : store), extract_names z td names m = (Ok tt, m') →
  ∀ name, name ∈ names → Str.endswith name "/" = false →
  is_file m' (td ++ arcname name) = true.
Proof.
  induction names as [|n names IH]; intros m m' H name Hin Hn; simpl in H.
  - by apply elem_of_nil in Hin.
  - destruct (extract_member z td n m) as [[[]|e] m1] eqn:H1; [|done].
    apply elem_of_cons in Hin as [->|Hin]; [|by eapply IH].
    destruct (extract_member_file _ _ _ _ _ H1 Hn) as (data & _ & Hl).
    apply extract_names_kinds in H as [_ Hf]. apply Hf.
    apply is_file_Some. eauto.
Qed.

(** Where no other member name has the same target, the file holds the
    bytes of its member. *)
Lemma extract_names_content (z : archive) (td : path) (names : list string) (name : string) :
  (∀ k, k ∈ names → arcname k = arcname name → k = name) →
  ∀ (m m' : store), extract_names z td names m = (Ok tt, m') →
  name ∈ names → Str.endswith name "/" = false →
  ∃ data, getinfo z name = Some data ∧
          m' !! (td ++ arcname name) = Some (File (Bytes data)).
Proof.
  intros Huniq.
  assert (Hstay : ∀ names' (m m' : store),
    (∀ k, k ∈ names' → arcname k = arcname name → k = name) →
    extract_names z td names' m = (Ok tt, m') →
    Str.endswith name "/" = false →
    ∀ data, getinfo z name = Some data →
    m !! (td ++ arcname name) = Some (File (Bytes data)) →
    m' !! (td ++ arcname name) = Some (File (Bytes data))).
  { induction names' as [|n names' IH]; intros m m' Hu H Hn data Hg Hl; simpl in H.
    - by injection H as <-.
    - destruct (extract_member z td n m) as [[[]|e] m1] eqn:H1; [|done].
      eapply IH; [| exact H | done | done |].
      + intros k Hk. apply Hu. by right.
      + destruct (decide (arcname n = arcname name)) as [Heq|Hne].
        * assert (n = name) as -> by (apply Hu; [by left|done]).
          destruct (extract_member_file _ _ _ _ _ H1 Hn) as (data' & Hg' & Hl').
          congruence.
        * eapply extract_member_other; [exact H1| |exact Hl].
          intros Heq%app_inv_head. done. }
  induction names as [|n names IH]; intros m m' H Hin Hn; simpl in H.
  - by apply elem_of_nil in Hin.
  - destruct (extract_member z td n m) as [[[]|e] m1] eqn:H1; [|done].
    destruct (decide (n = name)) as [->|Hne].
    + destruct (extract_member_file _ _ _ _ _ H1 Hn) as (data & Hg & Hl).
      exists data. split; [done|].
      eapply Hstay; [| exact H | done | done | done].
      intros k Hk. apply Huniq. by right.
    + apply elem_of_cons in Hin as [->|Hin]; [done|].
      eapply IH; [|exact H|done|done].
      intros k Hk. apply Huniq. by right.
Qed.

Lemma unlink_file_lookup (p : path) (m m' : store) :
  unlink_file p m = Ok m' → is_file m p = true ∧ m' = delete p m.
Proof.
  unfold unlink_file, is_file.
  destruct (m !! p) as [[|c]|]; [done| |done]. by intros [= <-].
Qed.

(** Renaming a regular file. *)
Lemma rename_path_file (src dst : path) (c : content) (m m' : store) :
  m !! src = Some (File c) → rename_path src dst m = Ok m' →
  m' = <[dst := File c]> (delete src m) ∧ m !! dst ≠ Some Dir.
Proof.
  unfold rename_path. intros ->.
  destruct (negb _); [done|].
  destruct (is_dir m dst) eqn:Hd; [done|]. intros [= <-]. split; [done|].
  intros Hdst. by rewrite (is_dir_Some _ _ Hdst) in Hd.
Qed.

Lemma rename_path_file_dirs (src dst : path) (c : content) (m m' : store) :
  m !! src = Some (File c) → rename_path src dst m = Ok m' →
  ∀ q, m !! q = Some Dir → m' !! q = Some Dir.
Proof.
  intros Hs H q Hq. destruct (rename_path_file _ _ _ _ _ Hs H) as [-> Hd].
  rewrite lookup_insert_ne by (intros ->; done).
  rewrite lookup_delete_ne by (intros ->; congruence). done.
Qed.

(** ** The monad, run *)

Lemma bind_run {A B} (c : M A) (k : A → M B) (w : world) :
  (c ≫= k) w = match c w with
               | (Ok a, w') => k a w'
               | (Raise e, w') => (Raise e, w')
               end.
Proof. reflexivity. Qed.

Lemma on_store_run (op : store → outcome store) (w : world) :
  on_store op w = match op (fs w) with
                  | Ok m => (Ok tt, World m (requests w))
                  | Raise e => (Raise e, w)
                  end.
Proof. reflexivity. Qed.

Lemma get_cache_dir_run (E : env) (cd : option string) (w : world) :
  get_cache_dir E cd w
  = match mkdir_p (cache_dir_path E cd) (fs w) with
    | Ok m => (Ok (cache_dir_path E cd), World m (requests w))
    | Raise e => (Raise e, w)
    end.
Proof.
  unfold get_cache_dir, mkdir. rewrite bind_run, on_store_run.
  by destruct (mkdir_p _ _).
Qed.

Lemma find_csv_Some (names : list string) (n : string) :
  find_csv names = Some n →
  n ∈ names ∧ Str.endswith (Str.lower n) ".csv" = true.
Proof.
  induction names as [|k names IH]; simpl; [done|].
  destruct (Str.endswith (Str.lower k) ".csv") eqn:Hk.
  - intros [= <-]. split; [by left|done].
  - intros [Hin ?]%IH. split; [by right|done].
Qed.

Lemma find_csv_not_falsy (names : list string) (n : string) :
  find_csv names = Some n → falsy (Some n) = false.
Proof. intros [_ H]%find_csv_Some. by destruct n. Qed.

Lemma world_eta (w : world) : World (fs w) (requests w) = w.
Proof. by destruct w. Qed.

Lemma download_table_flat_eq (E : env) (table_id : string)
  (cache_dir : option string) (language : string) (w : world) :
  download_table E table_id cache_dir language w
  = download_table_flat E table_id cache_dir language w.
Proof.
  unfold download_table, download_table_flat.
  rewrite bind_run, get_cache_dir_run.
  destruct (mkdir_p _ (fs w)) as [m1|e]; [|done].
  rewrite bind_run. unfold path_exists at 1. cbn [fs requests].
  destruct (bool_decide _ || bool_decide _); [done|].
  unfold mkdir. rewrite bind_run, on_store_run. cbn [fs requests].
  destruct (mkdir_p _ m1) as [m2|e]; [|done].
  rewrite bind_run. unfold requests_get at 1. cbn [fs requests].
  destruct (remote E (requests w) _) as [msg|st rs b]; [done|].
  rewrite bind_run. unfold raise_for_status at 1. cbn [status_code reason url body].
  destruct ((400 <=? st)%nat && (st <? 600)%nat); [done|].
  unfold mret, M_ret, ret. unfold write_bytes. rewrite bind_run, on_store_run. cbn [fs requests].
  destruct (write_file _ b m2) as [m3|e] eqn:Hw; [|done].
  apply write_file_lookup in Hw as [Hm3 _].
  assert (m3 !! (cache_dir_path E cache_dir // (entry_name table_id language +:+ ".zip"))
          = Some (File b)) as Hl by (rewrite Hm3; apply lookup_insert_eq).
  rewrite bind_run. unfold ZipFile at 1. cbn [fs requests]. rewrite Hl.
  destruct b as [bytes|z]; [done|].
  unfold extractall. rewrite bind_run. cbn [fs requests].
  destruct (extract_names _ _ _ m3) as [[[]|e] m4]; [|done].
  destruct (find_csv (namelist z)) as [n|] eqn:Hf; [|done].
  rewrite (find_csv_not_falsy _ _ Hf).
  rewrite bind_run.
  destruct (bool_decide _).
  - unfold rename. rewrite on_store_run. cbn [fs requests].
    destruct (rename_path _ _ m4) as [m5|e]; [|done].
    unfold unlink. rewrite bind_run, on_store_run. cbn [fs requests].
    by destruct (unlink_file _ m5).
  - unfold unlink. rewrite bind_run, on_store_run. cbn [fs requests].
    by destruct (unlink_file _ m4).
Qed.

(** ** The last component of a joined path *)

Lemma split_app_plain (c : ascii) (s e : string) :
  Str.has_char c e = false →
  ∃ init l, Str.split c s = init ++ [l] ∧ Str.split c (s +:+ e) = init ++ [l +:+ e].
Proof.
  intros He. induction s as [|a s (init & l & H1 & H2)].
  - exists [], "". split; [done|]. rewrite str_app_nil_l. by apply split_plain.
  - rewrite str_app_cons. simpl. destruct (Ascii.eqb a c).
    + exists ("" :: init), l. rewrite H1, H2. done.
    + rewrite H1, H2. destruct init as [|p ps]; simpl.
      * exists [], (String a l). done.
      * exists (String a p :: ps), l. done.
Qed.


Lemma kept_segment_long (s : string) : (2 ≤ String.length s)%nat → kept_segment s = true.
Proof. destruct s as [|a [|b s]]; simpl; try lia. intros _. unfold kept_segment. simpl. by destruct (Ascii.eqb a "."). Qed.

Lemma last_filter_snoc {A} (f : A → bool) (l : list A) (x : A) :
  f x = true → last (List.filter f (l ++ [x])) = Some x.
Proof.
  intros H. rewrite List.filter_app. simpl. rewrite H. apply last_snoc.
Qed.

Lemma last_app_Some {A} (l k : list A) (x : A) : last k = Some x → last (l ++ k) = Some x.
Proof.
  intros H. destruct k as [|y k] using rev_ind; [done|].
  rewrite last_snoc in H. injection H as ->.
  by rewrite app_assoc, last_snoc.
Qed.

(** The last component of [p / (s + e)], for a slash-free [e] of two
    characters or more, ends in [e]. *)
Lemma joinpath_ext_last (p : path) (s e : string) :
  Str.has_char "/" e = false → (2 ≤ String.length e)%nat →
  ∃ l, last (p // (s +:+ e)) = Some (l +:+ e).
Proof.
  intros He Hl. destruct (split_app_plain "/" s e He) as (init & l & _ & H2).
  exists l.
  assert (last (segments (s +:+ e)) = Some (l +:+ e)) as Hs.
  { unfold segments. rewrite H2. apply last_filter_snoc, kept_segment_long.
    rewrite string_length_app. lia. }
  unfold joinpath, Path. destruct (Str.startswith_char _ _); by apply last_app_Some.
Qed.

Lemma lower_char_slash (a : ascii) :
  Ascii.eqb (Str.lower_char a) "/" = Ascii.eqb a "/".
Proof. by destruct a as [[] [] [] [] [] [] [] []]. Qed.

Lemma has_slash_lower (s : string) :
  Str.has_char "/" (Str.lower s) = Str.has_char "/" s.
Proof. induction s as [|a s IH]; [done|]. simpl. by rewrite lower_char_slash, IH. Qed.

Lemma lower_app_inv (n a b : string) :
  Str.lower n = a +:+ b →
  ∃ a' b', n = a' +:+ b' ∧ Str.lower a' = a ∧ Str.lower b' = b.
Proof.
  revert n. induction a as [|x a IH]; intros n H.
  - by exists "", n.
  - destruct n as [|y n]; [done|]. rewrite str_app_cons in H. simpl in H.
    injection H as Hx H. destruct (IH _ H) as (a' & b' & -> & Ha & Hb).
    exists (String y a'), b'. simpl. by rewrite Hx, Ha.
Qed.

(** A name that ends in [.csv] whatever the case: its last piece does. *)
Lemma csv_name_split (n : string) :
  Str.endswith (Str.lower n) ".csv" = true →
  ∃ stem e, n = stem +:+ e ∧ Str.lower e = ".csv" ∧ Str.has_char "/" e = false.
Proof.
  intros [pre H]%endswith_spec. apply lower_app_inv in H as (stem & e & -> & _ & He).
  exists stem, e. split_and!; [done..|]. by rewrite <- has_slash_lower, He.
Qed.

Lemma csv_last_ne_zip (l l' e : string) : Str.lower e = ".csv" → l +:+ e ≠ l' +:+ ".zip".
Proof.
  intros He H. apply (f_equal Str.lower) in H. rewrite !lower_app, He in H.
  by apply str_app_tail_ne in H.
Qed.

(** The archive, the canonical file and the located member never share a
    path. *)
Lemma zip_path_ne_csv_path (p q : path) (s t : string) :
  p // (s +:+ ".zip") ≠ q // (t +:+ ".csv").
Proof.
  destruct (joinpath_ext_last p s ".zip") as [l Hl]; [done|simpl; lia|].
  destruct (joinpath_ext_last q t ".csv") as [l' Hl']; [done|simpl; lia|].
  intros H. rewrite H, Hl' in Hl. injection Hl as Hl.
  by apply str_app_tail_ne in Hl.
Qed.

Lemma member_path_ne_zip_path (p q : path) (s n : string) :
  Str.endswith (Str.lower n) ".csv" = true → q // n ≠ p // (s +:+ ".zip").
Proof.
  intros (stem & e & -> & He & Hs)%csv_name_split.
  destruct (joinpath_ext_last p s ".zip") as [l Hl]; [done|simpl; lia|].
  destruct (joinpath_ext_last q stem e) as [l' Hl']; [done| |].
  { rewrite <- lower_length, He. simpl. lia. }
  intros H. rewrite H, Hl in Hl'. injection Hl' as Hl'.
  symmetry in Hl'. by apply csv_last_ne_zip in Hl'.
Qed.

Lemma joinpath_ext_nonempty (p : path) (s e : string) :
  Str.has_char "/" e = false → (2 ≤ String.length e)%nat → p // (s +:+ e) ≠ [].
Proof.
  intros He Hl. destruct (joinpath_ext_last p s e He Hl) as [l H].
  intros Heq. by rewrite Heq in H.
Qed.

Lemma csv_name_not_dir (n : string) :
  Str.endswith (Str.lower n) ".csv" = true → Str.endswith n "/" = false.
Proof.
  intros (stem & e & -> & He & Hs)%csv_name_split.
  destruct (Str.endswith (stem +:+ e) "/") eqn:H; [|done].
  apply endswith_spec in H as [pre H].
  destruct e as [|a [|b [|c [|d [|x e]]]]]; try done.
  change (String a (String b (String c (String d ""))))
    with (String a (String b (String c "")) +:+ String d "") in H.
  rewrite <- str_app_assoc in H. apply str_app_tail_ne in H; [done..|].
  intros [= ->]. done.
Qed.

(** ** What a successful call went through *)

Lemma safe_member_path (td : path) (n : string) :
  safe_member_name n → td // n = td ++ arcname n.
Proof. intros [H1 H2]. unfold joinpath. by rewrite H1, H2. Qed.

Lemma download_table_ok_inv (E : env) (table_id : string) (cache_dir : option string)
  (language : string) (w w' : world) (p : path) :
  download_table E table_id cache_dir language w = (Ok p, w') →
  let cp := cache_dir_path E cache_dir in
  let td := table_dir cp table_id language in
  let zp := zip_path cp table_id language in
  p = csv_path cp table_id language ∧
  ∃ m1, mkdir_p cp (fs w) = Ok m1 ∧
    ((is_Some (m1 !! p) ∧ w' = World m1 (requests w)) ∨
     (m1 !! p = None ∧ ∃ m2 st rs z m3 m4 n m5,
        mkdir_p td m1 = Ok m2 ∧
        remote E (requests w) (get_table_url table_id language)
          = Response st rs (Archive z) ∧
        (400 <=? st)%nat && (st <? 600)%nat = false ∧
        write_file zp (Archive z) m2 = Ok m3 ∧
        extract_names z td (namelist z) m3 = (Ok tt, m4) ∧
        find_csv (namelist z) = Some n ∧
        (if bool_decide (td // n ≠ p) then rename_path (td // n) p m4 else Ok m4)
          = Ok m5 ∧
        is_file m5 zp = true ∧
        w' = World (delete zp m5) (requests w ++ [get_table_url table_id language]))).
Proof.
  rewrite download_table_flat_eq. unfold download_table_flat.
  fold (zip_path (cache_dir_path E cache_dir) table_id language).
  fold (table_dir (cache_dir_path E cache_dir) table_id language).
  fold (csv_path (cache_dir_path E cache_dir) table_id language).
  intros H. cbn zeta.
  destruct (mkdir_p _ (fs w)) as [m1|e]; [|done].
  destruct (bool_decide (is_Some _) || bool_decide _) eqn:Hex.
  { injection H as <- <-. split; [done|]. exists m1. split; [done|]. left.
    split; [|done]. apply orb_true_iff in Hex as [Hex|Hex].
    - by apply bool_decide_eq_true in Hex.
    - apply bool_decide_eq_true in Hex. exfalso. revert Hex.
      unfold csv_path. apply joinpath_ext_nonempty; [done|simpl; lia]. }
  apply orb_false_iff in Hex as [Hex _]. apply bool_decide_eq_false in Hex.
  destruct (mkdir_p _ m1) as [m2|e] eqn:Hm2; [|done].
  destruct (remote E _ _) as [msg|st rs b] eqn:Hrem; [done|].
  destruct ((400 <=? st)%nat && (st <? 600)%nat) eqn:Hst; [done|].
  destruct (write_file _ b m2) as [m3|e] eqn:Hw; [|done].
  destruct b as [bytes|z]; [done|].
  destruct (extract_names _ _ _ m3) as [[[]|e] m4] eqn:Hx; [|done].
  destruct (find_csv _) as [n|] eqn:Hf; [|done].
  destruct (if bool_decide _ then _ else _) as [m5|e] eqn:Hr; [|done].
  destruct (unlink_file _ m5) as [m6|e] eqn:Hu; [|done].
  injection H as <- <-. split; [done|]. exists m1. split; [done|]. right.
  split; [by apply eq_None_not_Some|].
  apply unlink_file_lookup in Hu as [Hu ->].
  exists m2, st, rs, z, m3, m4, n, m5. done.
Qed.

(** The located member, extracted as a regular file, ends up at the
    canonical path, and no directory is lost on the way. *)
Lemma located_member_moved (td p : path) (z : archive) (m3 m4 m5 : store) (n : string) :
  extract_names z td (namelist z) m3 = (Ok tt, m4) →
  find_csv (namelist z) = Some n → safe_member_name n →
  (if bool_decide (td // n ≠ p) then rename_path (td // n) p m4 else Ok m4) = Ok m5 →
  ∃ c, m4 !! (td ++ arcname n) = Some (File c) ∧ m5 !! p = Some (File c) ∧
       (∀ q, m4 !! q = Some Dir → m5 !! q = Some Dir).
Proof.
  intros Hx Hf Hsafe Hr. destruct (find_csv_Some _ _ Hf) as [Hin Hcsv].
  pose proof (extract_names_is_file _ _ _ _ _ Hx _ Hin (csv_name_not_dir _ Hcsv)) as Hfile.
  apply is_file_Some in Hfile as [c Hc]. exists c. split; [done|].
  rewrite (safe_member_path _ _ Hsafe) in Hr.
  destruct (bool_decide _) eqn:Hd.
  - split.
    + destruct (rename_path_file _ _ _ _ _ Hc Hr) as [-> _]. apply lookup_insert_eq.
    + by eapply rename_path_file_dirs.
  - injection Hr as <-. apply bool_decide_eq_false in Hd.
    apply dec_stable in Hd. rewrite <- Hd. done.
Qed.

Lemma mkdir_p_dirs_noop (p : path) (m1 m : store) :
  (∀ q, m1 !! q = Some Dir → m !! q = Some Dir) →
  (∃ m0, mkdir_p p m0 = Ok m1) → mkdir_p p m = Ok m.
Proof.
  intros Hk [m0 H]. apply mkdir_from_noop. intros k Hk'. apply Hk.
  eapply mkdir_from_dirs; eauto.
Qed.

Lemma delete_file_dirs (p : path) (m : store) :
  is_file m p = true → ∀ q, m !! q = Some Dir → delete p m !! q = Some Dir.
Proof.
  intros [c Hc]%is_file_Some q Hq. rewrite lookup_delete_ne; [done|].
  intros ->. congruence.
Qed.

(** After a successful call the canonical file is there and the cache
    directory is still made of directories, provided the archive that was
    served, if one was, names its text member safely. *)
Lemma download_table_ok_cached (E : env) (table_id : string) (cache_dir : option string)
  (language : string) (w w' : world) (p : path) :
  (∀ st rs z n,
     remote E (requests w) (get_table_url table_id language) = Response st rs (Archive z) →
     find_csv (namelist z) = Some n → safe_member_name n) →
  download_table E table_id cache_dir language w = (Ok p, w') →
  is_Some (fs w' !! p) ∧ mkdir_p (cache_dir_path E cache_dir) (fs w') = Ok (fs w') ∧
  (requests w' = requests w ∨
   requests w' = requests w ++ [get_table_url table_id language]).
Proof.
  intros Hsafe H. apply download_table_ok_inv in H as (-> & m1 & Hm1 & H).
  destruct H as [[Hex ->]|(Hnone & m2 & st & rs & z & m3 & m4 & n & m5 &
    Hm2 & Hrem & Hst & Hw & Hx & Hf & Hr & Hu & ->)]; cbn [fs requests].
  - split; [done|]. split; [|by left]. by eapply mkdir_p_idempotent.
  - specialize (Hsafe _ _ _ _ Hrem Hf).
    destruct (located_member_moved _ _ _ _ _ _ _ Hx Hf Hsafe Hr) as (c & _ & Hc & Hd).
    split; [|split; [|by right]].
    + rewrite lookup_delete_ne; [eauto|]. apply zip_path_ne_csv_path.
    + eapply mkdir_p_dirs_noop; [|by eexists]. intros q Hq.
      apply delete_file_dirs; [done|]. apply Hd.
      apply (extract_names_kinds _ _ _ _ _ Hx).
      apply (write_file_kinds _ _ _ _ Hw).
      by eapply mkdir_from_keeps.
Qed.

(** On a hit the canonical path is returned and nothing is requested. *)
Lemma download_table_hit (E : env) (table_id : string) (cache_dir : option string)
  (language : string) (w w1 : world) (cache_path : path) :
  get_cache_dir E cache_dir w = (Ok cache_path, w1) →
  is_Some (fs w1 !! csv_path cache_path table_id language) →
  download_table E table_id cache_dir language w
    = (Ok (csv_path cache_path table_id language), w1)
  ∧ requests w1 = requests w.
Proof.
  intros Hc Hex. rewrite get_cache_dir_run in Hc.
  rewrite download_table_flat_eq. unfold download_table_flat.
  destruct (mkdir_p _ (fs w)) as [m1|e]; [|done]. injection Hc as <- <-.
  cbn [fs requests] in *. unfold csv_path, table_dir in Hex.
  by rewrite (bool_decide_eq_true_2 _ Hex).
Qed.

(** Reading a file changes nothing. *)
Lemma read_csv_world (E : env) (p : path) (sep : string) (w : world) :
  read_csv E p sep w = ((read_csv E p sep w).1, w).
Proof. unfold read_csv. by destruct (fs w !! p) as [[|c]|]. Qed.

Lemma get_table_run (E : env) (table_id : string) (cache_dir : option string)
  (language : string) (w : world) :
  get_table E table_id cache_dir language w
  = match download_table E table_id cache_dir language w with
    | (Raise e, w1) => (Raise (Exception (fetch_error_message table_id e) e), w1)
    | (Ok p, w1) =>
        match read_csv E p (delimiter language) w1 with
        | (Raise e, w2) => (Raise (Exception (fetch_error_message table_id e) e), w2)
        | (Ok df, w2) => (Ok df, w2)
        end
    end.
Proof.
  unfold get_table, try_except. rewrite bind_run.
  destruct (download_table _ _ _ _ w) as [[p|e] w1]; [|done].
  rewrite bind_run. by destruct (read_csv _ _ _ w1) as [[df|e] w2].
Qed.

(** The same call made again after one that returned. *)
Lemma download_table_again (E : env) (table_id : string) (cache_dir : option string)
  (language : string) (w w' : world) (p : path) :
  (∀ st rs z n,
     remote E (requests w) (get_table_url table_id language) = Response st rs (Archive z) →
     find_csv (namelist z) = Some n → safe_member_name n) →
  download_table E table_id cache_dir language w = (Ok p, w') →
  (length (requests w') ≤ length (requests w) + 1)%nat ∧
  download_table E table_id cache_dir language w' = (Ok p, w').
Proof.
  intros Hsafe H.
  destruct (download_table_ok_cached _ _ _ _ _ _ _ Hsafe H) as (Hex & Hmk & Hreq).
  split.
  { destruct Hreq as [-> | ->]; rewrite ?length_app; simpl; lia. }
  apply download_table_ok_inv in H as [-> _].
  rewrite download_table_flat_eq. unfold download_table_flat.
  rewrite Hmk. unfold csv_path, table_dir in Hex.
  rewrite (bool_decide_eq_true_2 _ Hex). simpl. by rewrite world_eta.
Qed.

(** ** The claims *)

(** C1, as amended: when the canonical file for the identifier and the
    language is there once the cache directory is resolved, [download_table]
    returns its path, writes nothing more and issues no request; when the
    archive that is served, if one is, names its first text member safely
    (by a relative name without [..]), a call that returns a path issues at
    most one request, and the same call made again returns the same path,
    issues none and leaves the world as it is; the same holds of [get_table]
    and the table it returns. *)
Theorem download_table_cache_hit (E : env) (table_id : string)
  (cache_dir : option string) (language : string) (w : world) :
  (∀ cache_path w1,
     get_cache_dir E cache_dir w = (Ok cache_path, w1) →
     is_Some (fs w1 !! csv_path cache_path table_id language) →
     download_table E table_id cache_dir language w
       = (Ok (csv_path cache_path table_id language), w1)
     ∧ requests w1 = requests w) ∧
  (∀ p w',
     (∀ st rs z n,
        remote E (requests w) (get_table_url table_id language)
          = Response st rs (Archive z) →
        find_csv (namelist z) = Some n → safe_member_name n) →
     download_table E table_id cache_dir language w = (Ok p, w') →
     (length (requests w') ≤ length (requests w) + 1)%nat ∧
     download_table E table_id cache_dir language w' = (Ok p, w')) ∧
  (∀ df w',
     (∀ st rs z n,
        remote E (requests w) (get_table_url table_id language)
          = Response st rs (Archive z) →
        find_csv (namelist z) = Some n → safe_member_name n) →
     get_table E table_id cache_dir language w = (Ok df, w') →
     (length (requests w') ≤ length (requests w) + 1)%nat ∧
     get_table E table_id cache_dir language w' = (Ok df, w')).
Proof.
  split; [|split].
  - intros cache_path w1 Hc Hex. by apply download_table_hit.
  - intros p w' Hsafe H. by apply download_table_again.
  - intros df w' Hsafe H. rewrite get_table_run in H.
    destruct (download_table _ _ _ _ w) as [[p|e] w1] eqn:Hd; [|done].
    rewrite read_csv_world in H.
    destruct (read_csv E p (delimiter language) w1).1 as [df'|e] eqn:Hr; [|done].
    injection H as <- <-.
    destruct (download_table_again _ _ _ _ _ _ _ Hsafe Hd) as [Hlen Hd2].
    split; [done|]. by rewrite get_table_run, Hd2, read_csv_world, Hr.
Qed.

(** C8: [get_cache_dir] resolves to the custom path when one is given and
    to [.statscan_cache] under the home directory otherwise; when it returns,
    the path it returns is a directory, as are all its parents, whatever was
    there before is still there, no request was issued, and calling it again
    returns the same path and changes nothing; it does return whenever no
    regular file lies on the way. *)
Theorem get_cache_dir_existing_directory (E : env) (custom_cache_dir : option string)
  (w : world) :
  cache_dir_path E None = home E ++ [".statscan_cache"] ∧
  (∀ s, s ≠ "" → cache_dir_path E (Some s) = Path s) ∧
  ((∀ k, is_file (fs w) (take k (cache_dir_path E custom_cache_dir)) = false) →
   ∃ w', get_cache_dir E custom_cache_dir w
         = (Ok (cache_dir_path E custom_cache_dir), w')) ∧
  (∀ p w',
     get_cache_dir E custom_cache_dir w = (Ok p, w') →
     p = cache_dir_path E custom_cache_dir ∧
     is_dir (fs w') p = true ∧
     (∀ k, (0 < k ≤ length p)%nat → fs w' !! take k p = Some Dir) ∧
     (∀ q v, fs w !! q = Some v → fs w' !! q = Some v) ∧
     (∀ q v, fs w' !! q = Some v → fs w !! q = Some v ∨ v = Dir ∧ q `prefix_of` p) ∧
     requests w' = requests w ∧
     get_cache_dir E custom_cache_dir w' = (Ok p, w')).
Proof.
  split; [done|]. split.
  { intros s Hs. unfold cache_dir_path. by destruct (String.eqb_spec s ""). }
  split.
  - intros Hfree. rewrite get_cache_dir_run.
    assert (∀ (rest base : path) (m : store),
      (∀ k, is_file m (base ++ take k rest) = false) →
      ∃ m', mkdir_from (cache_dir_path E custom_cache_dir) base rest m = Ok m') as Hgo.
    { induction rest as [|x rest IH]; intros base m Hm; simpl; [eauto|].
      pose proof (Hm 1%nat) as H1. simpl in H1. rewrite take_0 in H1.
      unfold is_file in H1.
      destruct (m !! (base ++ [x])) as [[|c]|] eqn:Hx; [|done|].
      - apply IH. intros k. rewrite <- take_S_cons_app. apply Hm.
      - apply IH. intros k. rewrite <- take_S_cons_app.
        pose proof (Hm (S k)) as Hk. unfold is_file in *.
        destruct (decide (base ++ [x] = base ++ take (S k) (x :: rest))) as [<-|Hne].
        + by rewrite lookup_insert_eq.
        + by rewrite lookup_insert_ne. }
    destruct (Hgo (cache_dir_path E custom_cache_dir) [] (fs w) Hfree) as [m' Hm'].
    unfold mkdir_p. rewrite Hm'. eauto.
  - intros p w' H. rewrite get_cache_dir_run in H.
    destruct (mkdir_p _ (fs w)) as [m|e] eqn:Hm; [|done]. injection H as <- <-.
    cbn [fs requests]. split_and!; try done.
    + by eapply mkdir_p_is_dir.
    + intros k Hk. by apply (mkdir_from_dirs _ _ _ _ _ Hm k).
    + intros q v. by eapply mkdir_from_keeps.
    + intros q v Hq. destruct (mkdir_from_new _ _ _ _ _ Hm _ _ Hq) as [?|[-> (k & _ & ->)]].
      * by left.
      * right. split; [done|]. simpl. apply prefix_take.
    + rewrite get_cache_dir_run. cbn [fs requests].
      by rewrite (mkdir_p_idempotent _ _ _ Hm).
Qed.

Lemma fetch_error_message_contains (table_id : string) (e : exn) :
  Str.contains "Error fetching table" (fetch_error_message table_id e) ∧
  Str.contains table_id (fetch_error_message table_id e) ∧
  Str.contains (str e) (fetch_error_message table_id e).
Proof.
  unfold fetch_error_message. split_and!.
  - exists "", (" " +:+ table_id +:+ ": " +:+ str e). by rewrite str_app_nil_l.
  - exists "Error fetching table ", (": " +:+ str e). done.
  - exists ("Error fetching table " +:+ table_id +:+ ": "), "".
    by rewrite str_app_nil_r, !str_app_assoc.
Qed.

Lemma mkdir_from_raises (target : path) (rest : list string) :
  ∀ (base : path) (m : store) e,
  mkdir_from target base rest m = Raise e → ∃ c p p2, e = OSError c p p2.
Proof.
  induction rest as [|x rest IH]; intros base m e H; simpl in H; [done|].
  destruct (m !! (base ++ [x])) as [[|c]|]; [by eapply IH| |by eapply IH].
  destruct rest; injection H as <-; eauto.
Qed.

(** C3, as amended: whatever fails in the fetch or in the parse,
    [get_table] raises one exception of class [Exception] whose message is
    [Error fetching table <id>: <description of the failure>]; it holds the
    literal text, the identifier and the description of what
    [download_table] or the reader raised; the class of what is raised is
    [Exception] whatever the failure was, and the failure itself, with its
    class, is kept as the [__context__] of what is raised; a reply with a
    status from 400 to 599 on a cache miss is such a failure. *)
Theorem get_table_wraps_failures (E : env) (table_id : string)
  (cache_dir : option string) (language : string) (w : world) :
  (∀ e w1,
     download_table E table_id cache_dir language w = (Raise e, w1) →
     get_table E table_id cache_dir language w
       = (Raise (Exception (fetch_error_message table_id e) e), w1)) ∧
  (∀ p w1 e w2,
     download_table E table_id cache_dir language w = (Ok p, w1) →
     read_csv E p (delimiter language) w1 = (Raise e, w2) →
     get_table E table_id cache_dir language w
       = (Raise (Exception (fetch_error_message table_id e) e), w2)) ∧
  (∀ e' w',
     get_table E table_id cache_dir language w = (Raise e', w') →
     class_name e' = "Exception" ∧
     ∃ e, context e' = Some e ∧
          (download_table E table_id cache_dir language w = (Raise e, w') ∨
           ∃ p w1, download_table E table_id cache_dir language w = (Ok p, w1) ∧
                   read_csv E p (delimiter language) w1 = (Raise e, w')) ∧
          str e' = "Error fetching table " +:+ table_id +:+ ": " +:+ str e ∧
          Str.contains "Error fetching table" (str e') ∧
          Str.contains table_id (str e') ∧
          Str.contains (str e) (str e')) ∧
  (∀ st rs b,
     (∀ cache_path w1, get_cache_dir E cache_dir w = (Ok cache_path, w1) →
                       fs w1 !! csv_path cache_path table_id language = None) →
     remote E (requests w) (get_table_url table_id language) = Response st rs b →
     (400 ≤ st < 600)%nat →
     ∃ e w', get_table E table_id cache_dir language w
             = (Raise (Exception (fetch_error_message table_id e) e), w') ∧
             (e = HTTPError st rs (get_table_url table_id language) ∨
              ∃ c p p2, e = OSError c p p2)).
Proof.
  split_and!.
  - intros e w1 H. by rewrite get_table_run, H.
  - intros p w1 e w2 H1 H2. by rewrite get_table_run, H1, H2.
  - intros e' w' H. rewrite get_table_run in H.
    assert (∃ e, e' = Exception (fetch_error_message table_id e) e ∧
              (download_table E table_id cache_dir language w = (Raise e, w') ∨
               ∃ p w1, download_table E table_id cache_dir language w = (Ok p, w1) ∧
                       read_csv E p (delimiter language) w1 = (Raise e, w')))
      as (e & -> & Horigin).
    { destruct (download_table _ _ _ _ w) as [[p|e] w1].
      - destruct (read_csv _ _ _ w1) as [[df|e] w2] eqn:Hr; [done|].
        injection H as <- <-. exists e. split; [done|]. right. by exists p, w1.
      - injection H as <- <-. exists e. split; [done|]. by left. }
    split; [done|]. exists e. split; [done|]. split; [done|]. split; [done|].
    apply fetch_error_message_contains.
  - intros st rs b Hmiss Hrem Hst. rewrite get_table_run, download_table_flat_eq.
    unfold download_table_flat.
    specialize (Hmiss (cache_dir_path E cache_dir)). rewrite get_cache_dir_run in Hmiss.
    destruct (mkdir_p _ (fs w)) as [m1|e] eqn:Hm1;
      [|apply mkdir_from_raises in Hm1; by eauto 10].
    specialize (Hmiss _ eq_refl). cbn [fs] in Hmiss.
    unfold csv_path, table_dir in Hmiss. rewrite Hmiss.
    rewrite bool_decide_eq_false_2 by (intros [? ?]; done).
    rewrite bool_decide_eq_false_2
      by (apply joinpath_ext_nonempty; [done|simpl; lia]).
    cbn [orb].
    destruct (mkdir_p _ m1) as [m2|e] eqn:Hm2;
      [|apply mkdir_from_raises in Hm2; by eauto 10].
    rewrite Hrem.
    assert ((400 <=? st)%nat && (st <? 600)%nat = true) as ->.
    { apply andb_true_iff. split; [apply Nat.leb_le|apply Nat.ltb_lt]; lia. }
    eauto 10.
Qed.

Lemma delimiter_fra (language : string) : delimiter language = ";" ↔ language = "fra".
Proof.
  unfold delimiter. destruct (String.eqb_spec language "fra"); split; done.
Qed.

(** C6: the separator is the semicolon exactly when the language is [fra],
    and the comma for [eng] and for every other value; the table that
    [get_table] returns is what the reader makes of the cached file with that
    separator; with the plain reader of the examples, the semicolon-separated
    sample has its three columns under [fra] and a single one under [eng]. *)
Theorem get_table_delimiter (E : env) (table_id : string)
  (cache_dir : option string) (language : string) (w : world) :
  (delimiter language = ";" ↔ language = "fra") ∧
  (language ≠ "fra" → delimiter language = ",") ∧
  delimiter "eng" = "," ∧
  (∀ p w1 c,
     download_table E table_id cache_dir language w = (Ok p, w1) →
     fs w1 !! p = Some (File c) →
     get_table E table_id cache_dir language w
     = (match parse_csv E c (if String.eqb language "fra" then ";" else ",") with
        | Ok df => Ok df
        | Raise e => Raise (Exception (fetch_error_message table_id e) e)
        end, w1)) ∧
  simple_read_csv (Bytes sample_csv_content_fra) (delimiter "fra")
    = Ok (mkDataFrame ["REF_DATE"; "GEO"; "VALUE"]
            [["2020-01"; "Canada"; "100"]; ["2020-02"; "Canada"; "101"]]) ∧
  simple_read_csv (Bytes sample_csv_content_fra) (delimiter "eng")
    = Ok (mkDataFrame ["REF_DATE;GEO;VALUE"]
            [["2020-01;Canada;100"]; ["2020-02;Canada;101"]]).
Proof.
  split; [apply delimiter_fra|]. split.
  { intros H. unfold delimiter. by destruct (String.eqb_spec language "fra"). }
  split; [done|]. split; [|by split].
  intros p w1 c Hd Hc. rewrite get_table_run, Hd. unfold read_csv. rewrite Hc.
  unfold delimiter. by destruct (parse_csv E c _).
Qed.

(** ** A call that gets through the extraction *)

Lemma on_store_ok (op : store → outcome store) (w w' : world) :
  on_store op w = (Ok tt, w') → op (fs w) = Ok (fs w') ∧ requests w' = requests w.
Proof.
  rewrite on_store_run. destruct (op (fs w)) as [m|e]; [|done].
  by intros [= <-].
Qed.

Lemma extractall_ok (z : archive) (td : path) (w w' : world) :
  extractall z td w = (Ok tt, w') →
  extract_names z td (namelist z) (fs w) = (Ok tt, fs w') ∧ requests w' = requests w.
Proof.
  unfold extractall. destruct (extract_names _ _ _ (fs w)) as [[[]|e] m]; [|done].
  by intros [= <-].
Qed.

Lemma extraction_done_stores (E : env) (table_id : string) (cache_dir : option string)
  (language : string) (w : world) (z : archive) (w4 : world) :
  extraction_done E table_id cache_dir language w z w4 →
  let cp := cache_dir_path E cache_dir in
  ∃ m1 m2 st rs m3,
    mkdir_p cp (fs w) = Ok m1 ∧
    m1 !! csv_path cp table_id language = None ∧
    mkdir_p (table_dir cp table_id language) m1 = Ok m2 ∧
    remote E (requests w) (get_table_url table_id language)
      = Response st rs (Archive z) ∧
    (400 <=? st)%nat && (st <? 600)%nat = false ∧
    write_file (zip_path cp table_id language) (Archive z) m2 = Ok m3 ∧
    extract_names z (table_dir cp table_id language) (namelist z) m3 = (Ok tt, fs w4) ∧
    requests w4 = requests w ++ [get_table_url table_id language].
Proof.
  intros (cp & w1 & w2 & st & rs & w3 & Hc & Hmiss & Hmk & Hrem & Hst & Hw & Hx).
  rewrite get_cache_dir_run in Hc.
  destruct (mkdir_p _ (fs w)) as [m1|e] eqn:Hm1; [|done]. injection Hc as <- <-.
  apply on_store_ok in Hmk as [Hmk Hr2]. apply on_store_ok in Hw as [Hw Hr3].
  apply extractall_ok in Hx as [Hx Hr4]. cbn [fs requests] in *.
  exists m1, (fs w2), st, rs, (fs w3). rewrite Hr2 in Hrem.
  split_and!; try done.
  - destruct (400 <=? st)%nat eqn:H1; [|done]. destruct (st <? 600)%nat eqn:H2; [|done].
    apply Nat.leb_le in H1. apply Nat.ltb_lt in H2. lia.
  - by rewrite Hr4, Hr3, Hr2.
Qed.

Lemma download_table_extracted (E : env) (table_id : string) (cache_dir : option string)
  (language : string) (w : world) (z : archive) (w4 : world) :
  extraction_done E table_id cache_dir language w z w4 →
  let cp := cache_dir_path E cache_dir in
  let td := table_dir cp table_id language in
  let zp := zip_path cp table_id language in
  let p := csv_path cp table_id language in
  download_table E table_id cache_dir language w
  = match find_csv (namelist z) with
    | None => (Raise (ValueError (no_csv_message table_id)), w4)
    | Some n =>
        match (if bool_decide (td // n ≠ p)
               then rename_path (td // n) p (fs w4) else Ok (fs w4)) with
        | Raise e => (Raise e, w4)
        | Ok m5 =>
            match unlink_file zp m5 with
            | Raise e => (Raise e, World m5 (requests w4))
            | Ok m6 => (Ok p, World m6 (requests w4))
            end
        end
    end.
Proof.
  intros (m1 & m2 & st & rs & m3 & Hm1 & Hmiss & Hm2 & Hrem & Hst & Hw & Hx & Hreq)
    %extraction_done_stores.
  cbn zeta. rewrite download_table_flat_eq. unfold download_table_flat.
  fold (zip_path (cache_dir_path E cache_dir) table_id language).
  fold (table_dir (cache_dir_path E cache_dir) table_id language).
  fold (csv_path (cache_dir_path E cache_dir) table_id language).
  rewrite Hm1, Hmiss.
  rewrite bool_decide_eq_false_2 by (intros [? ?]; done).
  rewrite bool_decide_eq_false_2
    by (apply joinpath_ext_nonempty; [done|simpl; lia]).
  cbn [orb]. rewrite Hm2, Hrem, Hst, Hw, Hx, <- Hreq, world_eta.
  done.
Qed.

(** ** The test of the code and the wording of the specification *)

Lemma lower_char_dot (a : ascii) : Str.lower_char a = "."%char → a = "."%char.
Proof. destruct a as [[] [] [] [] [] [] [] []]; vm_compute; intros H; by try discriminate H. Qed.

Lemma lower_char_c (a : ascii) : Str.lower_char a = "c"%char → (a = "c" ∨ a = "C")%char.
Proof.
  destruct a as [[] [] [] [] [] [] [] []]; vm_compute; intros H;
    try discriminate H; auto.
Qed.

Lemma lower_char_s (a : ascii) : Str.lower_char a = "s"%char → (a = "s" ∨ a = "S")%char.
Proof.
  destruct a as [[] [] [] [] [] [] [] []]; vm_compute; intros H;
    try discriminate H; auto.
Qed.

Lemma lower_char_v (a : ascii) : Str.lower_char a = "v"%char → (a = "v" ∨ a = "V")%char.
Proof.
  destruct a as [[] [] [] [] [] [] [] []]; vm_compute; intros H;
    try discriminate H; auto.
Qed.

(** The test [filename.lower().endswith('.csv')] of the code holds exactly
    of the names that end, whatever the case, in the extension. *)
Lemma ends_in_csv_spec (n : string) :
  ends_in_csv n ↔ Str.endswith (Str.lower n) ".csv" = true.
Proof.
  split.
  - intros (stem & c & s & v & -> & Hc & Hs & Hv). apply endswith_spec.
    exists (Str.lower stem). rewrite lower_app. f_equal.
    destruct Hc as [-> | ->], Hs as [-> | ->], Hv as [-> | ->]; reflexivity.
  - intros (stem & e & -> & He & _)%csv_name_split.
    destruct e as [|a [|c [|s [|v [|x e]]]]]; try discriminate He.
    simpl in He. injection He as Ha Hc Hs Hv.
    apply lower_char_dot in Ha as ->.
    exists stem, c, s, v. split; [done|].
    split; [by apply lower_char_c|]. split; [by apply lower_char_s|by apply lower_char_v].
Qed.


Lemma find_csv_none (names : list string) :
  find_csv names = None ↔ Forall (λ k, ¬ ends_in_csv k) names.
Proof.
  induction names as [|k names IH]; simpl.
  - split; [constructor|done].
  - destruct (Str.endswith (Str.lower k) ".csv") eqn:Hk.
    + split; [done|]. intros [H _]%Forall_cons. by apply ends_in_csv_spec in Hk.
    + rewrite IH. split.
      * intros H. constructor; [|done]. intros H'%ends_in_csv_spec. congruence.
      * by intros [_ H]%Forall_cons.
Qed.

(** With no member whose name ends in [.csv], the world the call leaves is
    the one the extraction left. *)
Lemma no_csv_leaves_archive (E : env) (table_id : string)
  (cache_dir : option string) (language : string) (w : world) (z : archive)
  (w4 : world) :
  extraction_done E table_id cache_dir language w z w4 →
  find_csv (namelist z) = None →
  let cp := cache_dir_path E cache_dir in
  let td := table_dir cp table_id language in
  download_table E table_id cache_dir language w
    = (Raise (ValueError (no_csv_message table_id)), w4) ∧
  is_file (fs w4) (zip_path cp table_id language) = true ∧
  is_dir (fs w4) td = true ∧
  (∀ name, name ∈ namelist z → Str.endswith name "/" = false →
           is_file (fs w4) (td ++ arcname name) = true) ∧
  requests w4 = requests w ++ [get_table_url table_id language] ∧
  kinds_kept (fs w) (fs w4).
Proof.
  intros Hdone Hnone. cbn zeta.
  pose proof (download_table_extracted _ _ _ _ _ _ _ Hdone) as Hrun. cbn zeta in Hrun.
  rewrite Hnone in Hrun. split; [done|].
  apply extraction_done_stores in Hdone
    as (m1 & m2 & st & rs & m3 & Hm1 & Hmiss & Hm2 & Hrem & Hst & Hw & Hx & Hreq).
  pose proof (extract_names_kinds _ _ _ _ _ Hx) as Hk4.
  pose proof (write_file_kinds _ _ _ _ Hw) as Hk3.
  split_and!.
  - apply Hk4. apply write_file_lookup in Hw as [-> _].
    unfold is_file. by rewrite lookup_insert_eq.
  - eapply kinds_kept_is_dir; [exact Hk4|].
    eapply kinds_kept_is_dir; [exact Hk3|]. by eapply mkdir_p_is_dir.
  - intros name Hin Hn. by eapply extract_names_is_file.
  - done.
  - eapply kinds_kept_trans; [by eapply mkdir_from_kinds|].
    eapply kinds_kept_trans; [by eapply mkdir_from_kinds|].
    by eapply kinds_kept_trans.
Qed.

(** ** Plain identifiers: no slash in the identifier and the language *)

Lemma string_long_ne (s t : string) :
  (String.length t < String.length s)%nat → s ≠ t.
Proof. intros H ->. lia. Qed.

Lemma paths_plain (cp : path) (table_id language : string) :
  Str.has_char "/" table_id = false → Str.has_char "/" language = false →
  table_dir cp table_id language = cp ++ [entry_name table_id language] ∧
  zip_path cp table_id language = cp ++ [entry_name table_id language +:+ ".zip"] ∧
  csv_path cp table_id language
  = cp ++ [entry_name table_id language; entry_name table_id language +:+ ".csv"].
Proof.
  intros Hi Hl. pose proof (entry_name_plain _ _ Hi Hl) as Hp.
  pose proof (entry_name_has_hyphen table_id language) as Hh.
  assert (table_dir cp table_id language = cp ++ [entry_name table_id language]) as Htd.
  { unfold table_dir. apply joinpath_plain; [done|..]; by apply has_hyphen_ne. }
  split; [done|]. split.
  - unfold zip_path. apply joinpath_plain.
    + by rewrite has_char_app, Hp.
    + apply string_long_ne. rewrite string_length_app. simpl. lia.
    + apply string_long_ne. rewrite string_length_app. simpl. lia.
  - unfold csv_path. rewrite Htd.
    rewrite joinpath_plain; [by rewrite <- app_assoc|..].
    + by rewrite has_char_app, Hp.
    + apply string_long_ne. rewrite string_length_app. simpl. lia.
    + apply string_long_ne. rewrite string_length_app. simpl. lia.
Qed.

Lemma parent_snoc (p : path) (x : string) : parent (p ++ [x]) = p.
Proof. unfold parent. apply removelast_last. Qed.

(** [getinfo] gives the content of a member that no namesake contradicts. *)
Lemma getinfo_unique (z : archive) (n data : string) :
  n ∈ namelist z → (∀ d, (n, d) ∈ z → d = data) → getinfo z n = Some data.
Proof.
  intros Hin Hu. unfold getinfo.
  destruct (last (List.filter (λ m, String.eqb m.1 n) z)) as [[k d]|] eqn:Hl.
  - apply last_Some in Hl as [l' Hl].
    assert (In (k, d) (List.filter (λ m, String.eqb m.1 n) z)) as Hk.
    { rewrite Hl. apply in_app_iff. right. by left. }
    apply filter_In in Hk as [Hk Heq]. simpl in Heq.
    apply String.eqb_eq in Heq as ->. simpl. f_equal. apply Hu.
    by apply list_elem_of_In.
  - apply last_None in Hl. unfold namelist in Hin.
    apply list_elem_of_fmap in Hin as ([k d] & Hn & Hkd). simpl in Hn. subst n.
    assert (In (k, d) (List.filter (λ m, String.eqb m.1 k) z)) as Hk.
    { apply filter_In. split; [by apply list_elem_of_In|]. apply String.eqb_refl. }
    by rewrite Hl in Hk.
Qed.

(** ** A fresh entry and a flat archive: the extraction gets done *)

Lemma mkdir_from_snoc (target : path) (rest : list string) (x : string) :
  ∀ (base : path) (m : store),
  (∀ k, (0 < k ≤ length rest)%nat → m !! (base ++ take k rest) = Some Dir) →
  m !! (base ++ rest ++ [x]) = None →
  mkdir_from target base (rest ++ [x]) m = Ok (<[base ++ rest ++ [x] := Dir]> m).
Proof.
  induction rest as [|y rest IH]; intros base m Hd Hn; simpl in *.
  - by rewrite Hn.
  - pose proof (Hd 1%nat ltac:(lia)) as H1. simpl in H1. rewrite take_0 in H1.
    rewrite H1. rewrite IH.
    + by rewrite <- app_assoc.
    + intros k Hk. rewrite <- take_S_cons_app. apply Hd. lia.
    + by rewrite <- app_assoc.
Qed.

Lemma write_file_ok (p : path) (c : content) (m : store) :
  p ≠ [] → is_dir m (parent p) = true → m !! p ≠ Some Dir →
  write_file p c m = Ok (<[p := File c]> m).
Proof.
  intros Hp Hd Hn. unfold write_file. rewrite Hd.
  destruct p as [|a l]; [done|]. simpl negb. cbv iota.
  by destruct (m !! (a :: l)) as [[|c']|].
Qed.

Lemma flat_name_arcname (n : string) : flat_name n → arcname n = [n].
Proof.
  intros [H1 H2]. unfold arcname. rewrite split_plain by done. simpl. by rewrite H2.
Qed.

Lemma flat_name_not_dir (n : string) : flat_name n → Str.endswith n "/" = false.
Proof.
  intros [H1 _]. destruct (Str.endswith n "/") eqn:H; [|done].
  apply endswith_spec in H as [pre ->].
  rewrite has_char_app in H1. simpl in H1. by rewrite orb_true_r in H1.
Qed.

Lemma getinfo_is_Some (z : archive) (n : string) :
  n ∈ namelist z → is_Some (getinfo z n).
Proof.
  intros Hin. unfold getinfo.
  destruct (last (List.filter (λ m, String.eqb m.1 n) z)) as [kd|] eqn:Hl; [by eexists|].
  apply last_None in Hl. unfold namelist in Hin.
  apply list_elem_of_fmap in Hin as ([k d] & Hn & Hkd). simpl in Hn. subst n.
  assert (In (k, d) (List.filter (λ m, String.eqb m.1 k) z)) as Hk.
  { apply filter_In. split; [by apply list_elem_of_In|]. apply String.eqb_refl. }
  by rewrite Hl in Hk.
Qed.

(** In a directory that holds no directory, the members of a flat archive
    are all extracted. *)
Lemma extract_names_flat (z : archive) (td : path) (names : list string) :
  td ≠ [] →
  Forall flat_name names → (∀ n, n ∈ names → n ∈ namelist z) →
  ∀ (m : store),
  m !! td = Some Dir → (∀ x, m !! (td ++ [x]) ≠ Some Dir) →
  ∃ m', extract_names z td names m = (Ok tt, m') ∧ (∀ x, m' !! (td ++ [x]) ≠ Some Dir).
Proof.
  intros Htd Hflat. induction Hflat as [|n names Hn _ IH]; intros Hin m Hd Hfree; simpl.
  - eauto.
  - assert (extract_member z td n m
            = match getinfo z n with
              | Some data => (Ok tt, <[td ++ [n] := File (Bytes data)]> m)
              | None => (Raise (KeyError ("There is no item named " +:+ Str.repr n
                                          +:+ " in the archive")), m)
              end) as ->.
    { unfold extract_member, make_upperdirs.
      rewrite (flat_name_arcname _ Hn), (flat_name_not_dir _ Hn), parent_snoc.
      rewrite (bool_decide_eq_true_2 (is_Some (m !! td))) by (by rewrite Hd).
      rewrite orb_true_r. destruct (getinfo z n) as [data|]; [|done].
      rewrite write_file_ok; [done|by destruct td| |apply Hfree].
      rewrite parent_snoc. by apply is_dir_Some. }
    destruct (getinfo_is_Some z n) as [data ->]; [apply Hin; by left|].
    apply IH.
    + intros k Hk. apply Hin. by right.
    + rewrite lookup_insert_ne; [done|]. intros Heq.
      apply (f_equal length) in Heq. rewrite length_app in Heq. simpl in Heq. lia.
    + intros x. destruct (decide (td ++ [n] = td ++ [x])) as [<-|Hne].
      * by rewrite lookup_insert_eq.
      * rewrite lookup_insert_ne by done. apply Hfree.
Qed.

(** With the cache directory resolved, nothing at or below the entry
    directory, no directory at the archive path, a reply that is no error and
    a flat archive, the call gets through the extraction. *)
Lemma fresh_fetch_extraction_done (E : env) (table_id : string)
  (cache_dir : option string) (language : string) (w w1 : world) (cp : path)
  (st : nat) (rs : string) (z : archive) :
  get_cache_dir E cache_dir w = (Ok cp, w1) →
  Str.has_char "/" table_id = false → Str.has_char "/" language = false →
  (∀ q, table_dir cp table_id language `prefix_of` q → fs w1 !! q = None) →
  fs w1 !! zip_path cp table_id language ≠ Some Dir →
  remote E (requests w) (get_table_url table_id language) = Response st rs (Archive z) →
  ¬ (400 ≤ st < 600)%nat →
  Forall flat_name (namelist z) →
  ∃ w4, extraction_done E table_id cache_dir language w z w4 ∧
        (∀ x, fs w4 !! (table_dir cp table_id language ++ [x]) ≠ Some Dir).
Proof.
  intros Hc Hi Hl Hfresh Hzp Hrem Hst Hflat.
  destruct (paths_plain cp _ _ Hi Hl) as (Htd & Hzip & Hcsv).
  set (name := entry_name table_id language) in *.
  pose proof Hc as Hc'. rewrite get_cache_dir_run in Hc'.
  destruct (mkdir_p _ (fs w)) as [m1|e] eqn:Hm1; [|done]. injection Hc' as <- <-.
  cbn [fs requests] in *. set (cp := cache_dir_path E cache_dir) in *.
  assert (∀ k, (0 < k ≤ length cp)%nat → m1 !! ([] ++ take k cp) = Some Dir) as Hdirs.
  { intros k Hk. by eapply mkdir_from_dirs. }
  assert (mkdir_p (cp ++ [name]) m1 = Ok (<[cp ++ [name] := Dir]> m1)) as Hmk.
  { unfold mkdir_p. rewrite (mkdir_from_snoc _ cp name [] m1); [done..|].
    simpl. apply Hfresh. by rewrite Htd. }
  assert (cp ++ [name +:+ ".zip"] ≠ cp ++ [name]) as Hne.
  { intros Heq%app_inv_head. injection Heq as Heq.
    apply (f_equal String.length) in Heq. rewrite string_length_app in Heq.
    simpl in Heq. lia. }
  assert (write_file (cp ++ [name +:+ ".zip"]) (Archive z) (<[cp ++ [name] := Dir]> m1)
          = Ok (<[cp ++ [name +:+ ".zip"] := File (Archive z)]>
                  (<[cp ++ [name] := Dir]> m1))) as Hw.
  { apply write_file_ok; [by destruct cp| |].
    - rewrite parent_snoc. eapply kinds_kept_is_dir; [|by eapply mkdir_p_is_dir].
      apply insert_dir_kinds. unfold is_file. rewrite Hfresh; [done|]. by rewrite Htd.
    - rewrite lookup_insert_ne by done. by rewrite <- Hzip. }
  destruct (extract_names_flat z (cp ++ [name]) (namelist z) ltac:(by destruct cp) Hflat
              ltac:(done)
              (<[cp ++ [name +:+ ".zip"] := File (Archive z)]> (<[cp ++ [name] := Dir]> m1)))
    as (m4 & Hx & Hfree4).
  { rewrite lookup_insert_ne by done. apply lookup_insert_eq. }
  { intros x. rewrite !lookup_insert_ne.
    - rewrite Hfresh; [done|]. rewrite Htd. by apply prefix_app_r.
    - intros Heq. apply (f_equal length) in Heq. rewrite !length_app in Heq.
      simpl in Heq. lia.
    - intros Heq. apply (f_equal length) in Heq. rewrite !length_app in Heq.
      simpl in Heq. lia. }
  exists (World m4 (requests w ++ [get_table_url table_id language])).
  split; [|by rewrite Htd].
  exists cp, (World m1 (requests w)), (World (<[cp ++ [name] := Dir]> m1) (requests w)),
    st, rs, (World (<[cp ++ [name +:+ ".zip"] := File (Archive z)]>
                      (<[cp ++ [name] := Dir]> m1))
                   (requests w ++ [get_table_url table_id language])).
  rewrite Htd, Hzip. cbn [fs requests].
  split_and!; try done.
  - apply Hfresh. rewrite Htd, Hcsv. by exists [name +:+ ".csv"]; rewrite <- app_assoc.
  - unfold mkdir. rewrite on_store_run. cbn [fs requests]. by rewrite Hmk.
  - unfold write_bytes. rewrite on_store_run. cbn [fs requests]. by rewrite Hw.
  - unfold extractall. cbn [fs requests]. by rewrite Hx.
Qed.

(** The located member, safely named and alone at its place, is what the
    call leaves at the canonical path. *)
Lemma extracted_member_moved (E : env) (table_id : string)
  (cache_dir : option string) (language : string) (w : world) (z : archive)
  (w4 : world) (n data : string) :
  let cp := cache_dir_path E cache_dir in
  let td := table_dir cp table_id language in
  let p := csv_path cp table_id language in
  extraction_done E table_id cache_dir language w z w4 →
  Str.has_char "/" table_id = false → Str.has_char "/" language = false →
  find_csv (namelist z) = Some n →
  safe_member_name n →
  (∀ k d, (k, d) ∈ z → arcname k = arcname n → k = n ∧ d = data) →
  fs w4 !! p ≠ Some Dir →
  ∃ w', download_table E table_id cache_dir language w = (Ok p, w') ∧
        (n, data) ∈ z ∧
        fs w' !! p = Some (File (Bytes data)) ∧
        (td // n ≠ p → fs w' !! (td // n) = None) ∧
        fs w' !! zip_path cp table_id language = None ∧
        requests w' = requests w ++ [get_table_url table_id language].
Proof.
  intros cp td p Hdone Hi Hl Hf Hsafe Huniq Hnodir.
  pose proof (download_table_extracted _ _ _ _ _ _ _ Hdone) as Hrun. cbn zeta in Hrun.
  fold cp in Hrun. fold td in Hrun. fold p in Hrun. rewrite Hf in Hrun.
  apply extraction_done_stores in Hdone
    as (m1 & m2 & st & rs & m3 & Hm1 & Hmiss & Hm2 & Hrem & Hst & Hw & Hx & Hreq).
  fold cp in Hm1, Hmiss, Hm2, Hw, Hx. fold td in Hm2, Hx. fold p in Hmiss.
  destruct (paths_plain cp _ _ Hi Hl) as (Htd & Hzp & Hp).
  fold td in Htd. fold p in Hp.
  destruct (find_csv_Some _ _ Hf) as [Hin Hcsv].
  pose proof (csv_name_not_dir _ Hcsv) as Hfile.
  assert ((n, data) ∈ z) as Hmem.
  { unfold namelist in Hin. apply list_elem_of_fmap in Hin as ([k d] & Hn & Hkd).
    simpl in Hn. subst k. by destruct (Huniq _ _ Hkd eq_refl) as [_ <-]. }
  assert (getinfo z n = Some data) as Hget.
  { apply getinfo_unique; [done|]. intros d Hd. by destruct (Huniq _ _ Hd eq_refl). }
  destruct (extract_names_content z td (namelist z) n) with (m := m3) (m' := fs w4)
    as (data' & Hget' & Hc); [|done..|].
  { intros k Hk Ha. unfold namelist in Hk.
    apply list_elem_of_fmap in Hk as ([k' d] & Hk' & Hkd).
    simpl in Hk'. subst k'. by destruct (Huniq _ _ Hkd Ha). }
  rewrite Hget in Hget'. injection Hget' as <-.
  assert (is_file (fs w4) (zip_path cp table_id language) = true) as Hzip.
  { apply (extract_names_kinds _ _ _ _ _ Hx).
    apply write_file_lookup in Hw as [-> _]. unfold is_file. by rewrite lookup_insert_eq. }
  assert (is_dir (fs w4) td = true) as Hdir.
  { eapply kinds_kept_is_dir; [by eapply extract_names_kinds|].
    eapply kinds_kept_is_dir; [by eapply write_file_kinds|]. by eapply mkdir_p_is_dir. }
  pose proof (zip_path_ne_csv_path cp td (entry_name table_id language)
                (entry_name table_id language)) as Hne1.
  pose proof (member_path_ne_zip_path cp td (entry_name table_id language) n Hcsv) as Hne2.
  fold (zip_path cp table_id language) in Hne1, Hne2.
  fold (csv_path cp table_id language) in Hne1. fold p in Hne1.
  rewrite (safe_member_path _ _ Hsafe) in *.
  destruct (bool_decide (td ++ arcname n ≠ p)) eqn:Hd.
  - apply bool_decide_eq_true in Hd.
    assert (rename_path (td ++ arcname n) p (fs w4)
            = Ok (<[p := File (Bytes data)]> (delete (td ++ arcname n) (fs w4)))) as Hr.
    { unfold rename_path. rewrite Hc.
      assert (parent p = td) as -> by (rewrite Hp, Htd;
        change (cp ++ [entry_name table_id language; entry_name table_id language +:+ ".csv"])
          with (cp ++ [entry_name table_id language] ++ [entry_name table_id language +:+ ".csv"]);
        rewrite app_assoc; apply parent_snoc).
      rewrite Hdir. simpl.
      assert (is_dir (fs w4) p = false) as ->; [|done].
      unfold is_dir. rewrite Hp. destruct cp; simpl; rewrite <- ?Hp;
        destruct (fs w4 !! p) as [[|c]|] eqn:Hq; try done;
        rewrite Hp in Hq; simpl in Hq; by rewrite Hq. }
    rewrite Hr in Hrun.
    assert (unlink_file (zip_path cp table_id language)
              (<[p := File (Bytes data)]> (delete (td ++ arcname n) (fs w4)))
            = Ok (delete (zip_path cp table_id language)
                    (<[p := File (Bytes data)]> (delete (td ++ arcname n) (fs w4))))) as Hu.
    { unfold unlink_file. rewrite lookup_insert_ne by done.
      rewrite lookup_delete_ne by done.
      apply is_file_Some in Hzip as [c ->]. done. }
    rewrite Hu in Hrun. eexists. split; [exact Hrun|]. cbn [fs requests].
    split_and!; try done.
    + rewrite lookup_delete_ne by done. apply lookup_insert_eq.
    + intros _. rewrite lookup_delete_ne by done.
      rewrite lookup_insert_ne by done. apply lookup_delete_eq.
    + apply lookup_delete_eq.
  - apply bool_decide_eq_false in Hd. apply dec_stable in Hd.
    assert (unlink_file (zip_path cp table_id language) (fs w4)
            = Ok (delete (zip_path cp table_id language) (fs w4))) as Hu.
    { unfold unlink_file. apply is_file_Some in Hzip as [c ->]. done. }
    rewrite Hu in Hrun. eexists. split; [exact Hrun|]. cbn [fs requests].
    split_and!; try done.
    + rewrite lookup_delete_ne by done. by rewrite <- Hd.
    + apply lookup_delete_eq.
Qed.

Lemma NoDup_names_content (z : archive) (n d1 d2 : string) :
  NoDup (namelist z) → (n, d1) ∈ z → (n, d2) ∈ z → d1 = d2.
Proof.
  unfold namelist. induction z as [|[k d] z IH]; intros Hnd H1 H2.
  - by apply elem_of_nil in H1.
  - simpl in Hnd. apply NoDup_cons in Hnd as [Hk Hnd].
    apply elem_of_cons in H1 as [Heq1|H1]; apply elem_of_cons in H2 as [Heq2|H2];
      simplify_eq.
    + done.
    + exfalso. apply Hk. apply list_elem_of_fmap. by exists (k, d2).
    + exfalso. apply Hk. apply list_elem_of_fmap. by exists (k, d1).
    + by apply IH.
Qed.

Lemma flat_name_safe (n : string) : flat_name n → safe_member_name n.
Proof.
  intros Hn. pose proof (flat_name_arcname _ Hn) as Ha. destruct Hn as [H1 H2].
  split; [by apply startswith_plain|]. rewrite Ha.
  unfold segments. rewrite split_plain by done. simpl.
  unfold arc_segment in H2. apply andb_true_iff in H2 as [-> _]. done.
Qed.


(** C5, as amended: on a cache miss where the archive served has [n] as
    its first text member, for an identifier and a language without slash,
    [download_table] returns the canonical path, the file there holds the
    bytes of the member, the member lies no longer at its extracted path when
    that differs, and the archive file is gone, provided the extraction of
    all members gets done, the member is safely named (by a relative name
    without [..]) and alone extracted to its place, and no directory was
    extracted at the canonical path; so it is of every fetch into a fresh
    entry of a flat archive with distinct names, such as the archive with the
    one file [14100287.csv]. *)
Theorem download_table_extracts_member (E : env) (table_id : string)
  (cache_dir : option string) (language : string) (w : world) (z : archive)
  (n data : string) :
  let cp := cache_dir_path E cache_dir in
  let td := table_dir cp table_id language in
  let p := csv_path cp table_id language in
  Str.has_char "/" table_id = false → Str.has_char "/" language = false →
  find_csv (namelist z) = Some n →
  (∀ w4,
     extraction_done E table_id cache_dir language w z w4 →
     safe_member_name n →
     (∀ k d, (k, d) ∈ z → arcname k = arcname n → k = n ∧ d = data) →
     fs w4 !! p ≠ Some Dir →
     ∃ w', download_table E table_id cache_dir language w = (Ok p, w') ∧
           (n, data) ∈ z ∧
           fs w' !! p = Some (File (Bytes data)) ∧
           (td // n ≠ p → fs w' !! (td // n) = None) ∧
           fs w' !! zip_path cp table_id language = None ∧
           requests w' = requests w ++ [get_table_url table_id language]) ∧
  (∀ w1 st rs,
     get_cache_dir E cache_dir w = (Ok cp, w1) →
     (∀ q, td `prefix_of` q → fs w1 !! q = None) →
     fs w1 !! zip_path cp table_id language ≠ Some Dir →
     remote E (requests w) (get_table_url table_id language)
       = Response st rs (Archive z) →
     ¬ (400 ≤ st < 600)%nat →
     Forall flat_name (namelist z) → NoDup (namelist z) → (n, data) ∈ z →
     ∃ w', download_table E table_id cache_dir language w = (Ok p, w') ∧
           fs w' !! p = Some (File (Bytes data)) ∧
           (td // n ≠ p → fs w' !! (td // n) = None) ∧
           fs w' !! zip_path cp table_id language = None ∧
           requests w' = requests w ++ [get_table_url table_id language]).
Proof.
  intros cp td p Hi Hl Hf. split.
  - intros w4 Hdone Hsafe Huniq Hnodir.
    by apply (extracted_member_moved E table_id cache_dir language w z w4 n data).
  - intros w1 st rs Hc Hfresh Hzp Hrem Hst Hflat Hnd Hmem.
    destruct (fresh_fetch_extraction_done _ _ _ _ _ _ _ _ _ _ Hc Hi Hl Hfresh Hzp
                Hrem Hst Hflat) as (w4 & Hdone & Hfree).
    assert (cache_dir_path E cache_dir = cp) as Hcp by done.
    assert (flat_name n) as Hn.
    { destruct (find_csv_Some _ _ Hf) as [Hin _].
      by apply (proj1 (Forall_forall _ _) Hflat). }
    destruct (extracted_member_moved E table_id cache_dir language w z w4 n data Hdone
                Hi Hl Hf) as (w' & Hrun & _ & Hrest).
    + by apply flat_name_safe.
    + intros k d Hkd Ha.
      assert (flat_name k) as Hk.
      { apply (proj1 (Forall_forall _ _) Hflat). unfold namelist.
        apply list_elem_of_fmap. by exists (k, d). }
      rewrite (flat_name_arcname _ Hk), (flat_name_arcname _ Hn) in Ha.
      injection Ha as ->. split; [done|]. by eapply NoDup_names_content.
    + destruct (paths_plain cp _ _ Hi Hl) as (Htd & _ & Hp).
      unfold csv_path. fold cp. rewrite Htd.
      rewrite joinpath_plain.
      * rewrite <- Htd. apply Hfree.
      * rewrite has_char_app. by rewrite (entry_name_plain _ _ Hi Hl).
      * apply string_long_ne. rewrite string_length_app. simpl. lia.
      * apply string_long_ne. rewrite string_length_app. simpl. lia.
    + exists w'. by split.
Qed.

(** C10: with no member whose name ends in [.csv], the call raises once
    the archive is written and extracted, and the world it leaves is the one
    the extraction left: the archive file is still there, the entry directory
    is there, every member that is a file lies extracted in it, a request was
    issued, and nothing that was there before has gone; so it is of every
    fetch into a fresh entry of a flat archive without text member, where
    there was no archive file before. *)
Theorem download_table_no_csv_leaves_archive (E : env) (table_id : string)
  (cache_dir : option string) (language : string) (w : world) (z : archive) :
  let cp := cache_dir_path E cache_dir in
  let td := table_dir cp table_id language in
  let zp := zip_path cp table_id language in
  find_csv (namelist z) = None →
  (∀ w4,
     extraction_done E table_id cache_dir language w z w4 →
     download_table E table_id cache_dir language w
       = (Raise (ValueError (no_csv_message table_id)), w4) ∧
     is_file (fs w4) zp = true ∧
     is_dir (fs w4) td = true ∧
     (∀ name, name ∈ namelist z → Str.endswith name "/" = false →
              is_file (fs w4) (td ++ arcname name) = true) ∧
     requests w4 = requests w ++ [get_table_url table_id language] ∧
     kinds_kept (fs w) (fs w4)) ∧
  (∀ w1 st rs,
     get_cache_dir E cache_dir w = (Ok cp, w1) →
     Str.has_char "/" table_id = false → Str.has_char "/" language = false →
     (∀ q, td `prefix_of` q → fs w1 !! q = None) →
     fs w1 !! zp = None →
     remote E (requests w) (get_table_url table_id language)
       = Response st rs (Archive z) →
     ¬ (400 ≤ st < 600)%nat →
     Forall flat_name (namelist z) →
     ∃ w4, download_table E table_id cache_dir language w
             = (Raise (ValueError (no_csv_message table_id)), w4) ∧
           is_file (fs w1) zp = false ∧ is_file (fs w4) zp = true ∧
           is_dir (fs w4) td = true ∧
           (∀ name, name ∈ namelist z → is_file (fs w4) (td ++ [name]) = true)).
Proof.
  intros cp td zp Hnone. split.
  - intros w4 Hdone.
    by apply (no_csv_leaves_archive E table_id cache_dir language w z w4).
  - intros w1 st rs Hc Hi Hl Hfresh Hzp Hrem Hst Hflat.
    destruct (fresh_fetch_extraction_done _ _ _ _ _ _ _ _ _ _ Hc Hi Hl Hfresh
                ltac:(fold zp; by rewrite Hzp) Hrem Hst Hflat) as (w4 & Hdone & _).
    destruct (no_csv_leaves_archive E table_id cache_dir language w z w4 Hdone Hnone)
      as (Hrun & Hzip & Hdir & Hmem & _).
    exists w4. split_and!; try done.
    + unfold is_file. by rewrite Hzp.
    + intros name Hin.
      assert (flat_name name) as Hn by (by apply (proj1 (Forall_forall _ _) Hflat)).
      rewrite <- (flat_name_arcname _ Hn). apply Hmem; [done|].
      by apply flat_name_not_dir.
Qed.


Lemma is_dir_lookup (m : store) (p : path) :
  p ≠ [] → is_dir m p = true → m !! p = Some Dir.
Proof.
  intros Hp. unfold is_dir. destruct p as [|x p]; [done|].
  by destruct (m !! (x :: p)) as [[|c]|].
Qed.




(** ** Raw identifiers in the cache paths *)





(** After the directory of the entry is made, the request is always issued,
    and exactly one. *)
Lemma download_table_miss_requests (E : env) (table_id : string)
  (cache_dir : option string) (language : string) (w : world) (m1 m2 : store) :
  let cp := cache_dir_path E cache_dir in
  mkdir_p cp (fs w) = Ok m1 →
  m1 !! csv_path cp table_id language = None →
  mkdir_p (table_dir cp table_id language) m1 = Ok m2 →
  requests (download_table E table_id cache_dir language w).2
  = requests w ++ [get_table_url table_id language].
Proof.
  intros cp Hm1 Hmiss Hm2. rewrite download_table_flat_eq. unfold download_table_flat.
  fold cp. fold (table_dir cp table_id language). fold (csv_path cp table_id language).
  rewrite Hm1, Hmiss.
  rewrite bool_decide_eq_false_2 by (intros [? ?]; done).
  rewrite bool_decide_eq_false_2
    by (apply joinpath_ext_nonempty; [done|simpl; lia]).
  cbn [orb]. rewrite Hm2.
  repeat case_match; done.
Qed.


(** ** The claims on the fixtures of the test suite *)

(** A run is the pair of its result and of the world it leaves. *)
Lemma run_pair {A} (r : outcome A * world) (a : outcome A) : r.1 = a → r = (a, r.2).
Proof. destruct r. simpl. by intros ->. Qed.

Lemma extraction_done_run (E : env) (table_id : string) (cache_dir : option string)
  (language : string) (z : archive) (w : world) (st : nat) (rs : string) :
  let cp := cache_dir_path E cache_dir in
  let w1 := (get_cache_dir E cache_dir w).2 in
  let w2 := (mkdir (table_dir cp table_id language) w1).2 in
  let w2' := World (fs w2) (requests w2 ++ [get_table_url table_id language]) in
  let w3 := (write_bytes (zip_path cp table_id language) (Archive z) w2').2 in
  (get_cache_dir E cache_dir w).1 = Ok cp →
  fs w1 !! csv_path cp table_id language = None →
  (mkdir (table_dir cp table_id language) w1).1 = Ok tt →
  remote E (requests w2) (get_table_url table_id language) = Response st rs (Archive z) →
  ¬ (400 ≤ st < 600)%nat →
  (write_bytes (zip_path cp table_id language) (Archive z) w2').1 = Ok tt →
  (extractall z (table_dir cp table_id language) w3).1 = Ok tt →
  extraction_done E table_id cache_dir language w z
    (after_extraction E table_id cache_dir language z w).
Proof.
  intros cp w1 w2 w2' w3 H1 Hmiss H2 Hrem Hst H3 H4.
  exists cp, w1, w2, st, rs, w3. split_and!; try done; by apply run_pair.
Qed.

(** C2 on two spellings of one identifier. *)
Lemma get_table_url_strips_separators_witness :
  get_table_url "21-10-0033" "eng" = get_table_url "21 10 0033" "eng".
Proof.
  apply (proj1 (proj2 get_table_url_strips_separators)).
  apply same_up_to_separators_strip. reflexivity.
Defined.

Lemma mock_archive_safe (st : nat) (rs : string) (z : archive) (n : string) :
  Response 200 "OK" (Archive mock_zip_file) = Response st rs (Archive z) →
  find_csv (namelist z) = Some n → safe_member_name n.
Proof.
  intros [= <- <- <-]. vm_compute. intros [= <-]. by split.
Qed.

(** C1 on the mock that refuses a second request: the first call fetches,
    the second returns the same path from the cache and requests nothing. *)
Lemma download_table_cache_hit_witness :
  let w1 := (download_table once_env test_id (Some temp_cache_dir) "eng" test_world).2 in
  download_table once_env test_id (Some temp_cache_dir) "eng" test_world
    = (Ok test_csv_path, w1) ∧
  download_table once_env test_id (Some temp_cache_dir) "eng" w1 = (Ok test_csv_path, w1) ∧
  (length (requests w1) ≤ 1)%nat ∧
  (∃ w2, download_table once_env test_id (Some temp_cache_dir) "eng" w1
         = (Ok test_csv_path, w2) ∧ requests w2 = requests w1).
Proof.
  intros w1.
  assert (download_table once_env test_id (Some temp_cache_dir) "eng" test_world
          = (Ok test_csv_path, w1)) as Hfirst
    by (subst w1; apply run_pair; vm_compute; reflexivity).
  split; [exact Hfirst|].
  destruct (download_table_cache_hit once_env test_id (Some temp_cache_dir) "eng"
              test_world) as (_ & Hagain & _).
  destruct (Hagain test_csv_path w1) as [Hlen Hsecond].
  { intros st rs z n. apply mock_archive_safe. }
  { exact Hfirst. }
  split; [exact Hsecond|]. split; [exact Hlen|].
  destruct (download_table_cache_hit once_env test_id (Some temp_cache_dir) "eng" w1)
    as (Hhit & _ & _).
  exists (get_cache_dir once_env (Some temp_cache_dir) w1).2.
  apply (Hhit test_cache_path).
  { apply run_pair. vm_compute. reflexivity. }
  { eexists. vm_compute. reflexivity. }
Defined.

(** C1 as first stated fails on an archive whose text member is named by
    the absolute canonical path: the member is extracted below the entry
    directory while the path built from its name is the canonical one, so
    nothing is renamed; the first call returns the canonical path, no file
    lies there, and the same call made again requests the archive again: two
    calls, two requests.  So it is of a call that fails, as on a 404, and is
    made again. *)
Lemma download_table_cache_hit_counterexample :
  (let r1 := download_table absolute_name_env test_id (Some temp_cache_dir) "eng"
               test_world in
   let r2 := download_table absolute_name_env test_id (Some temp_cache_dir) "eng" r1.2 in
   r1.1 = Ok test_csv_path ∧ r2.1 = Ok test_csv_path ∧
   requests test_world = [] ∧
   requests r2.2 = [get_table_url test_id "eng"; get_table_url test_id "eng"] ∧
   ¬ (length (requests r2.2) ≤ length (requests test_world) + 1)%nat) ∧
  (let r1 := download_table not_found_env test_id (Some temp_cache_dir) "eng"
               test_world in
   let r2 := download_table not_found_env test_id (Some temp_cache_dir) "eng" r1.2 in
   requests r2.2 = [get_table_url test_id "eng"; get_table_url test_id "eng"]).
Proof. vm_compute. split_and!; try done. lia. Qed.

(** C8 on a file system that has the root alone: the cache directory and
    its parent are created, and a second call changes nothing. *)
Lemma get_cache_dir_existing_directory_witness :
  cache_dir_path mock_env (Some temp_cache_dir) = test_cache_path ∧
  (∃ w', get_cache_dir mock_env (Some temp_cache_dir) bare_world
         = (Ok test_cache_path, w') ∧
         is_dir (fs w') test_cache_path = true ∧
         fs w' !! ["/"; "tmp"] = Some Dir ∧
         get_cache_dir mock_env (Some temp_cache_dir) w' = (Ok test_cache_path, w')).
Proof.
  destruct (get_cache_dir_existing_directory mock_env (Some temp_cache_dir) bare_world)
    as (_ & Hcustom & Hreturns & Hpost).
  split.
  { apply Hcustom. discriminate. }
  destruct Hreturns as [w' Hw'].
  { intros k. do 4 (destruct k as [|k]; [vm_compute; reflexivity|]).
    vm_compute. reflexivity. }
  exists w'. destruct (Hpost _ _ Hw') as (_ & Hdir & Hparents & _ & _ & _ & Hagain).
  split; [exact Hw'|]. split; [exact Hdir|]. split; [|exact Hagain].
  apply (Hparents 2%nat). simpl. lia.
Defined.

(** C3 on the 404 mock of the tests and on a table that does not parse. *)
Lemma get_table_wraps_failures_witness :
  get_table not_found_env "invalid-table" (Some temp_cache_dir) "eng" test_world
  = (Raise (Exception
      ("Error fetching table invalid-table: 404 Client Error: Not Found for url: "
       +:+ "https://www150.statcan.gc.ca/n1/tbl/csv/invalidtable-eng.zip")
      (HTTPError 404 "Not Found"
         "https://www150.statcan.gc.ca/n1/tbl/csv/invalidtable-eng.zip")),
     (download_table not_found_env "invalid-table" (Some temp_cache_dir) "eng"
        test_world).2) ∧
  (∃ w', get_table ragged_env test_id (Some temp_cache_dir) "eng" test_world
         = (Raise (Exception
              "Error fetching table 14-10-0287: found more fields than defined in 'Schema'"
              (ComputeError "found more fields than defined in 'Schema'")),
            w')) ∧
  (∀ e' w', get_table ragged_env test_id (Some temp_cache_dir) "eng" test_world
            = (Raise e', w') → class_name e' = "Exception") ∧
  (∃ e w', get_table not_found_env "invalid-table" (Some temp_cache_dir) "eng" test_world
           = (Raise (Exception (fetch_error_message "invalid-table" e) e), w')).
Proof.
  destruct (get_table_wraps_failures not_found_env "invalid-table" (Some temp_cache_dir)
              "eng" test_world) as (Hfetch & _ & _ & Hstatus).
  destruct (get_table_wraps_failures ragged_env test_id (Some temp_cache_dir)
              "eng" test_world) as (_ & Hparse & Hclass & _).
  split.
  { rewrite (Hfetch
      (HTTPError 404 "Not Found"
         "https://www150.statcan.gc.ca/n1/tbl/csv/invalidtable-eng.zip")
      (download_table not_found_env "invalid-table" (Some temp_cache_dir) "eng"
         test_world).2); [reflexivity|].
    apply run_pair. vm_compute. reflexivity. }
  split.
  { eexists. apply (Hparse test_csv_path
      (download_table ragged_env test_id (Some temp_cache_dir) "eng" test_world).2
      (ComputeError "found more fields than defined in 'Schema'")).
    - apply run_pair. vm_compute. reflexivity.
    - apply run_pair. vm_compute. reflexivity. }
  split.
  { intros e' w' Hrun. exact (proj1 (Hclass e' w' Hrun)). }
  destruct (Hstatus 404 "Not Found" (Bytes "Not found")) as (e & w' & Hrun & _).
  { intros cache_path w1 Hc.
    assert (cache_path = test_cache_path) as ->.
    { apply (f_equal fst) in Hc. vm_compute in Hc. by injection Hc as <-. }
    assert (w1 = (get_cache_dir not_found_env (Some temp_cache_dir) test_world).2) as ->.
    { by rewrite Hc. }
    vm_compute. reflexivity. }
  { reflexivity. }
  { lia. }
  exists e, w'. exact Hrun.
Defined.

(** C3 as first stated fails on the 404 mock: the kind of the failure is
    kept and can be told.  A status 404 and a transport that fails with the
    same words give one message and two contexts, an [HTTPError] and a
    [ConnectionError], so the two exceptions raised differ. *)
Lemma get_table_wraps_failures_counterexample :
  ∃ e1 e2 w1 w2,
    get_table not_found_env "invalid-table" (Some temp_cache_dir) "eng" test_world
      = (Raise e1, w1) ∧
    get_table failing_transport_env "invalid-table" (Some temp_cache_dir) "eng" test_world
      = (Raise e2, w2) ∧
    str e1 = str e2 ∧
    class_name <$> context e1 = Some "HTTPError" ∧
    class_name <$> context e2 = Some "ConnectionError" ∧
    e1 ≠ e2.
Proof.
  eexists _, _, _, _. split; [apply run_pair; vm_compute; reflexivity|].
  split; [apply run_pair; vm_compute; reflexivity|].
  split; [reflexivity|]. split; [reflexivity|]. split; [reflexivity|]. discriminate.
Qed.

(** C6 on the semicolon-separated sample, fetched under [fra]. *)
Lemma get_table_delimiter_witness :
  delimiter "de" = "," ∧
  get_table fra_env test_id (Some temp_cache_dir) "fra" test_world
  = (Ok (mkDataFrame ["REF_DATE"; "GEO"; "VALUE"]
           [["2020-01"; "Canada"; "100"]; ["2020-02"; "Canada"; "101"]]),
     (download_table fra_env test_id (Some temp_cache_dir) "fra" test_world).2).
Proof.
  destruct (get_table_delimiter fra_env test_id (Some temp_cache_dir) "fra" test_world)
    as (_ & _ & _ & Hparse & _).
  destruct (get_table_delimiter fra_env test_id (Some temp_cache_dir) "de" test_world)
    as (_ & Hother & _).
  split.
  { apply Hother. discriminate. }
  rewrite (Hparse
    (test_cache_path ++ ["14-10-0287-fra"; "14-10-0287-fra.csv"])
    (download_table fra_env test_id (Some temp_cache_dir) "fra" test_world).2
    (Bytes sample_csv_content_fra)).
  - f_equal.
  - apply run_pair. vm_compute. reflexivity.
  - vm_compute. reflexivity.
Defined.


Lemma no_csv_extraction_done :
  extraction_done no_csv_env test_id (Some temp_cache_dir) "eng" test_world
    [("readme.txt", "no table here"); ("notes/a.txt", "a")]
    (after_extraction no_csv_env test_id (Some temp_cache_dir) "eng"
       [("readme.txt", "no table here"); ("notes/a.txt", "a")] test_world).
Proof.
  apply (extraction_done_run no_csv_env test_id (Some temp_cache_dir) "eng" _
           test_world 200 "OK"); try (vm_compute; reflexivity).
  lia.
Qed.

Lemma test_world_resolved (E : env) :
  get_cache_dir E (Some temp_cache_dir) test_world = (Ok test_cache_path, test_world).
Proof. vm_compute. reflexivity. Qed.

Lemma test_world_fresh (q : path) : (3 < length q)%nat → fs test_world !! q = None.
Proof.
  intros Hq. unfold test_world. cbn [fs].
  rewrite !lookup_insert_ne, lookup_singleton_ne; [done|..];
    intros <-; simpl in Hq; lia.
Qed.

Lemma test_entry_fresh (E : env) (q : path) :
  table_dir (cache_dir_path E (Some temp_cache_dir)) test_id "eng" `prefix_of` q →
  fs test_world !! q = None.
Proof. intros Hq%prefix_length. apply test_world_fresh. simpl in Hq. lia. Qed.



(** C10 on an archive without text member: the archive file and the
    extracted members are left behind, where there was no archive before. *)
Lemma download_table_no_csv_leaves_archive_witness :
  (let w4 := after_extraction no_csv_env test_id (Some temp_cache_dir) "eng"
               [("readme.txt", "no table here"); ("notes/a.txt", "a")] test_world in
   download_table no_csv_env test_id (Some temp_cache_dir) "eng" test_world
     = (Raise (ValueError (no_csv_message test_id)), w4) ∧
   is_file (fs w4) (test_cache_path ++ ["14-10-0287-eng.zip"]) = true ∧
   is_dir (fs w4) (test_cache_path ++ ["14-10-0287-eng"]) = true ∧
   is_file (fs w4) (test_cache_path ++ ["14-10-0287-eng"; "notes"; "a.txt"]) = true) ∧
  (∃ w4, download_table readme_env test_id (Some temp_cache_dir) "eng" test_world
           = (Raise (ValueError (no_csv_message test_id)), w4) ∧
         is_file (fs test_world) (test_cache_path ++ ["14-10-0287-eng.zip"]) = false ∧
         is_file (fs w4) (test_cache_path ++ ["14-10-0287-eng.zip"]) = true ∧
         is_file (fs w4) (test_cache_path ++ ["14-10-0287-eng"; "readme.txt"]) = true).
Proof.
  split.
  - intros w4.
    destruct (download_table_no_csv_leaves_archive no_csv_env test_id
                (Some temp_cache_dir) "eng" test_world
                [("readme.txt", "no table here"); ("notes/a.txt", "a")] eq_refl)
      as [Hgen _].
    destruct (Hgen w4 no_csv_extraction_done) as (Hrun & Hzip & Hdir & Hmembers & _ & _).
    split; [exact Hrun|]. split; [exact Hzip|]. split; [exact Hdir|].
    apply (Hmembers "notes/a.txt"); [|reflexivity].
    apply list_elem_of_In. simpl. tauto.
  - destruct (download_table_no_csv_leaves_archive readme_env test_id
                (Some temp_cache_dir) "eng" test_world
                [("readme.txt", "no table here")] eq_refl) as [_ Hfresh].
    destruct (Hfresh test_world 200 "OK") as (w4 & Hrun & Hbefore & Hzip & _ & Hmembers).
    + apply test_world_resolved.
    + reflexivity.
    + reflexivity.
    + apply test_entry_fresh.
    + apply test_world_fresh. simpl. lia.
    + reflexivity.
    + lia.
    + repeat constructor.
    + exists w4. split; [exact Hrun|]. split; [exact Hbefore|]. split; [exact Hzip|].
      apply (Hmembers "readme.txt"). apply list_elem_of_In. simpl. tauto.
Defined.

Lemma folder_extraction_done :
  extraction_done folder_env test_id (Some temp_cache_dir) "eng" test_world folder_archive
    (after_extraction folder_env test_id (Some temp_cache_dir) "eng" folder_archive
       test_world).
Proof.
  apply (extraction_done_run folder_env test_id (Some temp_cache_dir) "eng" folder_archive
           test_world 200 "OK"); try (vm_compute; reflexivity).
  lia.
Qed.

(** C5 on the archive of the tests, which holds the one file
    [14100287.csv], and on an archive that holds the table in a folder. *)
Lemma download_table_extracts_member_witness :
  (∃ w', download_table mock_env test_id (Some temp_cache_dir) "eng" test_world
         = (Ok test_csv_path, w') ∧
         fs w' !! test_csv_path = Some (File (Bytes sample_csv_content)) ∧
         fs w' !! (test_cache_path ++ ["14-10-0287-eng"; "14100287.csv"]) = None ∧
         fs w' !! (test_cache_path ++ ["14-10-0287-eng.zip"]) = None) ∧
  (∃ w', download_table folder_env test_id (Some temp_cache_dir) "eng" test_world
         = (Ok test_csv_path, w') ∧
         fs w' !! test_csv_path = Some (File (Bytes sample_csv_content)) ∧
         fs w' !! (test_cache_path ++ ["14-10-0287-eng"; "tables"; "14100287.csv"]) = None ∧
         fs w' !! (test_cache_path ++ ["14-10-0287-eng.zip"]) = None).
Proof.
  split.
  - destruct (download_table_extracts_member mock_env test_id (Some temp_cache_dir) "eng"
                test_world mock_zip_file "14100287.csv" sample_csv_content
                eq_refl eq_refl eq_refl) as [_ Hfresh].
    destruct (Hfresh test_world 200 "OK") as (w' & Hrun & Hcontent & Hmoved & Hzip & _).
    + apply test_world_resolved.
    + apply test_entry_fresh.
    + rewrite test_world_fresh; [discriminate|]. simpl. lia.
    + reflexivity.
    + lia.
    + repeat constructor.
    + apply NoDup_singleton.
    + apply list_elem_of_In. simpl. tauto.
    + exists w'. split; [exact Hrun|]. split; [exact Hcontent|]. split; [|exact Hzip].
      apply Hmoved. vm_compute. discriminate.
  - destruct (download_table_extracts_member folder_env test_id (Some temp_cache_dir) "eng"
                test_world folder_archive "tables/14100287.csv" sample_csv_content
                eq_refl eq_refl eq_refl) as [Hgen _].
    destruct (Hgen _ folder_extraction_done) as (w' & Hrun & _ & Hcontent & Hmoved & Hzip & _).
    + by split.
    + intros k d Hin%list_elem_of_In _. simpl in Hin.
      destruct Hin as [[= <- <-]|[]]. by split.
    + vm_compute. discriminate.
    + exists w'. split; [exact Hrun|]. split; [exact Hcontent|]. split; [|exact Hzip].
      apply Hmoved. vm_compute. discriminate.
Defined.

(** C5 as first stated fails on archives that are not well formed.  With
    a text member named by the absolute canonical path the call returns the
    canonical path and no file lies there.  With two members of one name the
    file at the canonical path holds the bytes of the last one, not those of
    the first text member.  With a member that wants another one to be a
    directory the extraction fails and the call returns no path.  With a
    member in a folder that is named as the canonical file, a directory lies
    at the canonical path and the rename fails. *)
Lemma download_table_extracts_member_counterexample :
  (let r := download_table absolute_name_env test_id (Some temp_cache_dir) "eng"
              test_world in
   r.1 = Ok test_csv_path ∧ fs r.2 !! test_csv_path = None) ∧
  (let r := download_table duplicate_env test_id (Some temp_cache_dir) "eng" test_world in
   find_csv (namelist duplicate_archive) = Some "data.csv" ∧
   head duplicate_archive = Some ("data.csv", "first") ∧
   r.1 = Ok test_csv_path ∧
   fs r.2 !! test_csv_path = Some (File (Bytes "second"))) ∧
  (let r := download_table
              (Env user_home
                 (λ _ _, Response 200 "OK"
                           (Archive [("a", "x"); ("a/b", "y"); ("t.csv", "1")]))
                 simple_read_csv simple_read_other)
              test_id (Some temp_cache_dir) "eng" test_world in
   r.1 = Raise (OSError ENOTDIR (test_cache_path ++ ["14-10-0287-eng"; "a"; "b"]) None)) ∧
  (let r := download_table
              (Env user_home
                 (λ _ _, Response 200 "OK"
                           (Archive [("14-10-0287-eng.csv/x", "1"); ("t.csv", "2")]))
                 simple_read_csv simple_read_other)
              test_id (Some temp_cache_dir) "eng" test_world in
   r.1 = Raise (OSError EISDIR (test_cache_path ++ ["14-10-0287-eng"; "t.csv"])
                  (Some test_csv_path))).
Proof. vm_compute. done. Qed.





(** ** Outside the side conditions

    What the code does where a member name is not safe, where the archive
    holds more than the table, and where an identifier holds a slash. *)

(** A text member named by the absolute canonical path is extracted below
    the entry directory, while the path built from its name is the canonical
    one: nothing is renamed, the path returned names no file, and the next
    call requests the archive again. *)
Example absolute_member_name_refetched :
  let r1 := download_table absolute_name_env test_id (Some temp_cache_dir) "eng"
              test_world in
  let r2 := download_table absolute_name_env test_id (Some temp_cache_dir) "eng" r1.2 in
  r1.1 = Ok test_csv_path ∧ fs r1.2 !! test_csv_path = None ∧
  length (requests r1.2) = 1%nat ∧ length (requests r2.2) = 2%nat.
Proof. vm_compute. done. Qed.

(** The other members of the archive stay in the entry directory, next to
    the canonical file. *)
Example metadata_member_stays :
  let r := download_table metadata_env test_id (Some temp_cache_dir) "eng" test_world in
  r.1 = Ok test_csv_path ∧
  is_file (fs r.2) test_csv_path = true ∧
  is_file (fs r.2) (test_cache_path ++ ["14-10-0287-eng"; "14100287_MetaData.csv"]) = true.
Proof. vm_compute. done. Qed.

(** With slashes in them, two identifiers that differ only in hyphens can
    share their cache paths. *)
Example slash_identifiers_share_paths (cp : path) :
  same_up_to_separators "a/-//b" "a//-/b" ∧
  table_dir cp "a/-//b" "eng" = table_dir cp "a//-/b" "eng" ∧
  csv_path cp "a/-//b" "eng" = csv_path cp "a//-/b" "eng".
Proof. split; [by apply same_up_to_separators_strip|]. by split. Qed.

(** * Further properties of the four functions *)

(** ** The URL builder *)

Lemma hyphen_split_inj (s1 s2 t1 t2 : string) :
  Str.has_char "-" s1 = false → Str.has_char "-" s2 = false →
  s1 +:+ String "-" t1 = s2 +:+ String "-" t2 → s1 = s2 ∧ t1 = t2.
Proof.
  intros H1 H2. revert s2 H2.
  induction s1 as [|a s1 IH]; intros [|b s2] H2 H.
  - rewrite !str_app_nil_l in H. by injection H as ->.
  - rewrite str_app_nil_l, str_app_cons in H. injection H as <- _.
    simpl in H2. done.
  - rewrite str_app_nil_l, str_app_cons in H. injection H as -> _.
    simpl in H1. done.
  - rewrite !str_app_cons in H. injection H as -> H.
    simpl in H1, H2. apply orb_false_iff in H1 as [_ H1].
    apply orb_false_iff in H2 as [_ H2].
    destruct (IH H1 _ H2 H) as [-> ->]. done.
Qed.

(** X1: the URL tells the language and the identifier up to its hyphens and
    spaces: two calls build the same URL exactly when the languages are equal
    and the identifiers are equal once stripped. *)
Theorem get_table_url_inj (id1 id2 l1 l2 : string) :
  get_table_url id1 l1 = get_table_url id2 l2 ↔
  strip_separators id1 = strip_separators id2 ∧ l1 = l2.
Proof.
  unfold get_table_url. rewrite !remove_char_spec. split.
  - intros H. apply (inj (String.app base_url)) in H.
    change ("-" +:+ l1 +:+ ".zip") with (String "-" (l1 +:+ ".zip")) in H.
    change ("-" +:+ l2 +:+ ".zip") with (String "-" (l2 +:+ ".zip")) in H.
    apply hyphen_split_inj in H as [H1 H2];
      [|apply strip_separators_clean|apply strip_separators_clean].
    split; [done|]. by apply str_app_inv_tail in H2.
  - by intros [-> ->].
Qed.

(** X1 on two languages and on two spellings. *)
Lemma get_table_url_inj_witness :
  get_table_url "14-10-0287" "eng" ≠ get_table_url "14-10-0287" "fra" ∧
  get_table_url "14-10-0287" "eng" = get_table_url "14 10 0287" "eng".
Proof.
  split.
  - intros H. apply (proj1 (get_table_url_inj _ _ _ _)) in H as [_ H]. discriminate H.
  - apply (proj2 (get_table_url_inj _ _ _ _)). split; reflexivity.
Defined.

(** ** The member search *)

(** X2: what the loop over the member names finds is a name of the list
    that is not empty and is no directory entry, so [not csv_filename] holds
    exactly when no name matched. *)
Theorem find_csv_found_is_file_name (names : list string) :
  (∀ n, find_csv names = Some n →
        n ∈ names ∧ n ≠ "" ∧ Str.endswith n "/" = false) ∧
  (falsy (find_csv names) = true ↔ find_csv names = None).
Proof.
  split.
  - intros n H. destruct (find_csv_Some _ _ H) as [Hin Hcsv].
    split; [done|]. split; [|by apply csv_name_not_dir].
    intros ->. done.
  - destruct (find_csv names) as [n|] eqn:H; [|done].
    rewrite (find_csv_not_falsy _ _ H). split; done.
Qed.

(** X2 on a member list with a directory entry that is named like a table. *)
Lemma find_csv_found_is_file_name_witness :
  find_csv ["data.csv/"; "readme.txt"; "sub/DATA.CSV"] = Some "sub/DATA.CSV" ∧
  Str.endswith "sub/DATA.CSV" "/" = false ∧
  falsy (find_csv ["data.csv/"; "readme.txt"]) = true.
Proof.
  destruct (find_csv_found_is_file_name ["data.csv/"; "readme.txt"; "sub/DATA.CSV"])
    as [Hfound _].
  destruct (find_csv_found_is_file_name ["data.csv/"; "readme.txt"]) as [_ Hnone].
  split; [reflexivity|]. split.
  - exact (proj2 (proj2 (Hfound "sub/DATA.CSV" eq_refl))).
  - apply (proj2 Hnone). reflexivity.
Defined.

(** ** A regular file in the way of the cache directory *)

Lemma mkdir_from_blocked (target : path) (rest : list string) :
  ∀ (base : path) (m : store) (k : nat),
  (0 < k ≤ length rest)%nat →
  (∀ j, (0 < j < k)%nat → m !! (base ++ take j rest) = Some Dir) →
  is_file m (base ++ take k rest) = true →
  mkdir_from target base rest m
  = Raise (OSError (if bool_decide (k = length rest) then EEXIST else ENOTDIR) target None).
Proof.
  induction rest as [|x rest IH]; intros base m k Hk Hd Hf; simpl in *; [lia|].
  destruct k as [|k]; [lia|]. rewrite take_S_cons_app in Hf.
  destruct k as [|k].
  - rewrite take_0, app_nil_r in Hf. apply is_file_Some in Hf as [c ->].
    destruct rest; [done|]. by rewrite bool_decide_eq_false_2.
  - pose proof (Hd 1%nat ltac:(lia)) as H1. simpl in H1. rewrite take_0 in H1.
    rewrite H1. rewrite (IH (base ++ [x]) m (S k)); [|lia| |done].
    + destruct (decide (S k = length rest)) as [He|Hne].
      * rewrite !bool_decide_eq_true_2; [done|lia|done].
      * rewrite !bool_decide_eq_false_2; [done|lia|done].
    + intros j Hj. rewrite <- take_S_cons_app. apply Hd. lia.
Qed.

(** X3: a regular file where the cache directory or one of its parents
    should be makes [get_cache_dir] raise, [FileExistsError] for the
    directory itself and [NotADirectoryError] for a parent, with the path of
    the cache directory; [download_table] then raises the same without a
    request, [get_table] wraps it, and the world stays as it was. *)
Theorem get_cache_dir_blocked_by_file (E : env) (table_id : string)
  (cache_dir : option string) (language : string) (w : world) (k : nat) :
  let p := cache_dir_path E cache_dir in
  let e := OSError (if bool_decide (k = length p) then EEXIST else ENOTDIR) p None in
  (0 < k ≤ length p)%nat →
  (∀ j, (0 < j < k)%nat → fs w !! take j p = Some Dir) →
  is_file (fs w) (take k p) = true →
  get_cache_dir E cache_dir w = (Raise e, w) ∧
  class_name e = (if bool_decide (k = length p)
                  then "FileExistsError" else "NotADirectoryError") ∧
  download_table E table_id cache_dir language w = (Raise e, w) ∧
  get_table E table_id cache_dir language w
  = (Raise (Exception (fetch_error_message table_id e) e), w).
Proof.
  intros p e Hk Hd Hf.
  assert (mkdir_p p (fs w) = Raise e) as Hm.
  { unfold mkdir_p. by apply mkdir_from_blocked. }
  assert (download_table E table_id cache_dir language w = (Raise e, w)) as Hrun.
  { rewrite download_table_flat_eq. unfold download_table_flat. fold p. by rewrite Hm. }
  split_and!.
  - rewrite get_cache_dir_run. fold p. by rewrite Hm.
  - unfold e. by destruct (bool_decide _).
  - done.
  - by rewrite get_table_run, Hrun.
Qed.

(** X3 where the cache directory of the tests is a regular file, and where
    [/tmp] is one. *)
Lemma get_cache_dir_blocked_by_file_witness :
  get_table mock_env test_id (Some temp_cache_dir) "eng" blocked_world
  = (Raise (Exception
       "Error fetching table 14-10-0287: [Errno 17] File exists: '/tmp/statscan_test_cache'"
       (OSError EEXIST test_cache_path None)),
     blocked_world) ∧
  get_cache_dir mock_env (Some temp_cache_dir) blocked_parent_world
  = (Raise (OSError ENOTDIR test_cache_path None), blocked_parent_world).
Proof.
  split.
  - refine (proj2 (proj2 (proj2 (get_cache_dir_blocked_by_file mock_env test_id
              (Some temp_cache_dir) "eng" blocked_world 3 _ _ _)))).
    + simpl. lia.
    + intros j Hj. destruct j as [|[|[|j]]]; [lia|reflexivity|reflexivity|lia].
    + reflexivity.
  - refine (proj1 (get_cache_dir_blocked_by_file mock_env test_id
              (Some temp_cache_dir) "eng" blocked_parent_world 2 _ _ _)).
    + simpl. lia.
    + intros j Hj. destruct j as [|[|j]]; [lia|reflexivity|lia].
    + reflexivity.
Defined.

(** ** The requests of a call *)

(** X4: a call of [download_table] issues one request or none, the one
    for the URL of its identifier and language; it issues one exactly when
    the cache directory is resolved, the canonical path is free and the
    entry directory is made; and [get_table] leaves the world that
    [download_table] leaves. *)
Theorem download_table_one_request (E : env) (table_id : string)
  (cache_dir : option string) (language : string) (w : world) :
  let cp := cache_dir_path E cache_dir in
  let u := get_table_url table_id language in
  let r := download_table E table_id cache_dir language w in
  (requests r.2 = requests w ∨ requests r.2 = requests w ++ [u]) ∧
  (requests r.2 = requests w ++ [u] ↔
   ∃ w1 w2, get_cache_dir E cache_dir w = (Ok cp, w1) ∧
            fs w1 !! csv_path cp table_id language = None ∧
            mkdir (table_dir cp table_id language) w1 = (Ok tt, w2)) ∧
  (get_table E table_id cache_dir language w).2 = r.2.
Proof.
  intros cp u r.
  assert (∀ l : list string, l ≠ l ++ [u]) as Hlen.
  { intros l H. apply (f_equal length) in H. rewrite length_app in H. simpl in H. lia. }
  split_and!.
  - subst r. rewrite download_table_flat_eq. unfold download_table_flat.
    repeat case_match; cbn [snd requests]; auto.
  - split.
    + subst r. rewrite download_table_flat_eq. unfold download_table_flat.
      rewrite get_cache_dir_run. fold cp.
      fold (table_dir cp table_id language). fold (csv_path cp table_id language).
      destruct (mkdir_p cp (fs w)) as [m1|e] eqn:Hm1; [|by intros ?%Hlen].
      destruct (bool_decide (is_Some _) || bool_decide _) eqn:Hex; [by intros ?%Hlen|].
      apply orb_false_iff in Hex as [Hex _]. apply bool_decide_eq_false in Hex.
      apply eq_None_not_Some in Hex.
      destruct (mkdir_p _ m1) as [m2|e] eqn:Hm2; [|by intros ?%Hlen].
      intros _. exists (World m1 (requests w)), (World m2 (requests w)).
      split; [done|]. split; [done|].
      unfold mkdir. rewrite on_store_run. cbn [fs requests]. by rewrite Hm2.
    + intros (w1 & w2 & Hc & Hmiss & Hmk). rewrite get_cache_dir_run in Hc.
      destruct (mkdir_p _ (fs w)) as [m1|e] eqn:Hm1; [|done]. injection Hc as <-.
      apply on_store_ok in Hmk as [Hmk _]. cbn [fs] in *.
      by eapply download_table_miss_requests.
  - subst r. rewrite get_table_run.
    destruct (download_table _ _ _ _ w) as [[p|e] w1]; [|done].
    rewrite read_csv_world. by destruct (read_csv E p (delimiter language) w1).1.
Qed.

(** X4 on the mock of the tests: the first call requests the archive, the
    call after it requests nothing. *)
Lemma download_table_one_request_witness :
  requests (download_table mock_env test_id (Some temp_cache_dir) "eng" test_world).2
  = [get_table_url test_id "eng"] ∧
  (get_table mock_env test_id (Some temp_cache_dir) "eng" test_world).2
  = (download_table mock_env test_id (Some temp_cache_dir) "eng" test_world).2.
Proof.
  destruct (download_table_one_request mock_env test_id (Some temp_cache_dir) "eng"
              test_world) as (_ & Hiff & Hsame).
  split; [|exact Hsame].
  apply (proj2 Hiff).
  exists test_world,
    (mkdir (table_dir test_cache_path test_id "eng") test_world).2.
  split; [apply test_world_resolved|]. split.
  - apply test_world_fresh. simpl. lia.
  - apply run_pair. vm_compute. reflexivity.
Defined.

(** ** The path that is returned *)

(** X5: whatever the archive holds and however its member is named, a
    path that [download_table] returns is the canonical path, which the
    arguments and the home directory determine, and its last component ends
    in [.csv]. *)
Theorem download_table_returns_canonical_path (E : env) (table_id : string)
  (cache_dir : option string) (language : string) (w w' : world) (p : path) :
  download_table E table_id cache_dir language w = (Ok p, w') →
  p = csv_path (cache_dir_path E cache_dir) table_id language ∧
  (∃ stem, last p = Some (stem +:+ ".csv")) ∧
  (∀ E2 w2 w2' p2,
     home E2 = home E →
     download_table E2 table_id cache_dir language w2 = (Ok p2, w2') → p2 = p).
Proof.
  intros H. apply download_table_ok_inv in H as [-> _]. split; [done|]. split.
  - unfold csv_path. apply joinpath_ext_last; [done|simpl; lia].
  - intros E2 w2 w2' p2 Hh H2. apply download_table_ok_inv in H2 as [-> _].
    unfold cache_dir_path. by rewrite Hh.
Qed.

(** X5 on the archive with metadata and on the mock of the tests: one
    path for both. *)
Lemma download_table_returns_canonical_path_witness :
  ∃ stem, last test_csv_path = Some (stem +:+ ".csv") ∧
  ∀ w2 w2' p2,
    download_table metadata_env test_id (Some temp_cache_dir) "eng" w2 = (Ok p2, w2') →
    p2 = test_csv_path.
Proof.
  destruct (download_table_returns_canonical_path mock_env test_id (Some temp_cache_dir)
              "eng" test_world
              (download_table mock_env test_id (Some temp_cache_dir) "eng" test_world).2
              test_csv_path) as (_ & [stem Hlast] & Hsame).
  { apply run_pair. vm_compute. reflexivity. }
  exists stem. split; [exact Hlast|].
  intros w2 w2' p2 H2. exact (Hsame metadata_env w2 w2' p2 eq_refl H2).
Defined.

(** ** A fetch that fails after the entry directory is made *)

(** Making directories changes nothing off the way to the target. *)
Lemma mkdir_p_other (p q : path) (m m' : store) :
  mkdir_p p m = Ok m' → ¬ q `prefix_of` p → m' !! q = m !! q.
Proof.
  intros H Hq. destruct (m' !! q) as [v|] eqn:Hv.
  - destruct (mkdir_from_new _ _ _ _ _ H _ _ Hv) as [->|[_ (k & _ & ->)]]; [done|].
    exfalso. apply Hq. simpl. apply prefix_take.
  - destruct (m !! q) as [v|] eqn:Hv'; [|done].
    by rewrite (mkdir_from_keeps _ _ _ _ _ H _ _ Hv') in Hv.
Qed.

Lemma snoc_prefix_snoc (p : path) (a b : string) :
  (p ++ [a]) `prefix_of` (p ++ [b]) → a = b.
Proof. intros H%prefix_app_inv. by apply prefix_cons_inv_1 in H. Qed.

Lemma ext_ne (s e : string) : e ≠ "" → s +:+ e ≠ s.
Proof.
  intros He H. apply He. induction s as [|a s IH].
  - by rewrite str_app_nil_l in H.
  - rewrite str_app_cons in H. injection H as H. by apply IH.
Qed.

(** Once the entry directory is made in a world without the canonical file:
    neither the canonical path nor the archive path has changed. *)
Lemma entry_made_paths (cp : path) (table_id language : string) (m m2 : store) :
  Str.has_char "/" table_id = false → Str.has_char "/" language = false →
  mkdir_p (table_dir cp table_id language) m = Ok m2 →
  m2 !! csv_path cp table_id language = m !! csv_path cp table_id language ∧
  m2 !! zip_path cp table_id language = m !! zip_path cp table_id language.
Proof.
  intros Hi Hl Hm. destruct (paths_plain cp _ _ Hi Hl) as (Htd & Hzp & Hp).
  split; apply (mkdir_p_other _ _ _ _ Hm); rewrite Htd.
  - rewrite Hp. intros H%prefix_length. rewrite !length_app in H. simpl in H. lia.
  - rewrite Hzp. intros H%snoc_prefix_snoc. by apply ext_ne in H.
Qed.

(** X6: on a miss, when the remote side cannot be reached or answers with
    a status from 400 to 599, [download_table] raises [ConnectionError] or
    [HTTPError] for the URL after it has made the entry directory: one
    request is logged, the entry directory is left behind, and nothing is
    written at the archive path or at the canonical path. *)
Theorem download_table_failed_request (E : env) (table_id : string)
  (cache_dir : option string) (language : string) (w w1 w2 : world) :
  let cp := cache_dir_path E cache_dir in
  let td := table_dir cp table_id language in
  let u := get_table_url table_id language in
  let w' := World (fs w2) (requests w ++ [u]) in
  Str.has_char "/" table_id = false → Str.has_char "/" language = false →
  get_cache_dir E cache_dir w = (Ok cp, w1) →
  fs w1 !! csv_path cp table_id language = None →
  mkdir td w1 = (Ok tt, w2) →
  (∀ msg, remote E (requests w) u = Refused msg →
          download_table E table_id cache_dir language w
          = (Raise (ConnectionError msg), w')) ∧
  (∀ st rs b, remote E (requests w) u = Response st rs b → (400 ≤ st < 600)%nat →
              download_table E table_id cache_dir language w
              = (Raise (HTTPError st rs u), w')) ∧
  is_dir (fs w') td = true ∧
  fs w' !! csv_path cp table_id language = None ∧
  fs w' !! zip_path cp table_id language = fs w1 !! zip_path cp table_id language.
Proof.
  intros cp td u w' Hi Hl Hc Hmiss Hmk. subst td.
  rewrite get_cache_dir_run in Hc. fold cp in Hc.
  destruct (mkdir_p cp (fs w)) as [m1|e] eqn:Hm1; [|done]. injection Hc as <-.
  apply on_store_ok in Hmk as [Hmk _]. cbn [fs requests] in *.
  destruct (entry_made_paths cp _ _ _ _ Hi Hl Hmk) as [Hcsv Hzip].
  assert (∀ r, download_table E table_id cache_dir language w
               = match remote E (requests w) u with
                 | Refused msg => (Raise (ConnectionError msg), w')
                 | Response st rs b =>
                     if (400 <=? st)%nat && (st <? 600)%nat
                     then (Raise (HTTPError st rs u), w') else r
                 end ∨ ∃ st rs b, remote E (requests w) u = Response st rs b
                                  ∧ (400 <=? st)%nat && (st <? 600)%nat = false) as Hrun.
  { intros r. rewrite download_table_flat_eq. unfold download_table_flat.
    fold cp. fold (table_dir cp table_id language).
    fold (csv_path cp table_id language). fold u.
    rewrite Hm1, Hmiss.
    rewrite bool_decide_eq_false_2 by (intros [? ?]; done).
    rewrite bool_decide_eq_false_2
      by (apply joinpath_ext_nonempty; [done|simpl; lia]).
    cbn [orb]. rewrite Hmk.
    destruct (remote E (requests w) u) as [msg|st rs b]; [by left|].
    destruct ((400 <=? st)%nat && (st <? 600)%nat) eqn:Hst; [by left|].
    right. by exists st, rs, b. }
  subst w'. cbn [fs]. split_and!.
  - intros msg Hrem. destruct (Hrun (Raise BadZipFile, w)) as [H|(st & rs & b & H & _)];
      rewrite Hrem in H; done.
  - intros st rs b Hrem Hst.
    assert ((400 <=? st)%nat && (st <? 600)%nat = true) as Hb.
    { apply andb_true_iff. split; [apply Nat.leb_le|apply Nat.ltb_lt]; lia. }
    destruct (Hrun (Raise BadZipFile, w)) as [H|(st' & rs' & b' & H & Hn)];
      rewrite Hrem in H.
    + by rewrite Hb in H.
    + injection H as <- <- <-. congruence.
  - by eapply mkdir_p_is_dir.
  - by rewrite Hcsv.
  - done.
Qed.

(** X6 on the 404 mock of the tests and on a remote side that refuses the
    connection. *)
Lemma download_table_failed_request_witness :
  let w' := World (<[test_cache_path ++ ["14-10-0287-eng"] := Dir]> (fs test_world))
              [get_table_url test_id "eng"] in
  download_table not_found_env test_id (Some temp_cache_dir) "eng" test_world
  = (Raise (HTTPError 404 "Not Found" (get_table_url test_id "eng")), w') ∧
  download_table refused_env test_id (Some temp_cache_dir) "eng" test_world
  = (Raise (ConnectionError "Connection refused"), w') ∧
  fs w' !! (test_cache_path ++ ["14-10-0287-eng.zip"]) = None.
Proof.
  intros w'.
  assert (mkdir (table_dir test_cache_path test_id "eng") test_world
          = (Ok tt, World (<[test_cache_path ++ ["14-10-0287-eng"] := Dir]> (fs test_world)) []))
    as Hmk by reflexivity.
  assert (fs test_world !! csv_path test_cache_path test_id "eng" = None) as Hmiss
    by (apply test_world_fresh; simpl; lia).
  destruct (download_table_failed_request not_found_env test_id (Some temp_cache_dir)
              "eng" test_world test_world _ eq_refl eq_refl
              (test_world_resolved not_found_env) Hmiss Hmk)
    as (_ & Hstatus & _ & _ & Hzip).
  destruct (download_table_failed_request refused_env test_id (Some temp_cache_dir)
              "eng" test_world test_world _ eq_refl eq_refl
              (test_world_resolved refused_env) Hmiss Hmk) as (Hrefused & _).
  split; [|split].
  - apply (Hstatus 404 "Not Found" (Bytes "Not found")); [reflexivity|lia].
  - apply Hrefused. reflexivity.
  - etransitivity; [exact Hzip|]. apply test_world_fresh. simpl. lia.
Defined.

(** ** A body that is no archive *)

(** X7: on a miss that is answered, with a status that is no error, by
    bytes that are no zip archive, [download_table] raises [BadZipFile] after
    it has written them: they stay at the archive path, nothing lies at the
    canonical path, and the same call made again requests the URL again. *)
Theorem download_table_body_not_archive (E : env) (table_id : string)
  (cache_dir : option string) (language : string) (w w1 w2 : world)
  (st : nat) (rs b : string) :
  let cp := cache_dir_path E cache_dir in
  let zp := zip_path cp table_id language in
  let u := get_table_url table_id language in
  Str.has_char "/" table_id = false → Str.has_char "/" language = false →
  get_cache_dir E cache_dir w = (Ok cp, w1) →
  fs w1 !! csv_path cp table_id language = None →
  mkdir (table_dir cp table_id language) w1 = (Ok tt, w2) →
  fs w1 !! zp ≠ Some Dir →
  remote E (requests w) u = Response st rs (Bytes b) →
  ¬ (400 ≤ st < 600)%nat →
  let w3 := World (<[zp := File (Bytes b)]> (fs w2)) (requests w ++ [u]) in
  download_table E table_id cache_dir language w = (Raise BadZipFile, w3) ∧
  fs w3 !! zp = Some (File (Bytes b)) ∧
  fs w3 !! csv_path cp table_id language = None ∧
  requests (download_table E table_id cache_dir language w3).2 = requests w ++ [u; u].
Proof.
  intros cp zp u Hi Hl Hc Hmiss Hmk Hzp Hrem Hst w3. subst zp.
  rewrite get_cache_dir_run in Hc. fold cp in Hc.
  destruct (mkdir_p cp (fs w)) as [m1|e] eqn:Hm1; [|done]. injection Hc as <-.
  apply on_store_ok in Hmk as [Hmk _]. cbn [fs requests] in *.
  destruct (entry_made_paths cp _ _ _ _ Hi Hl Hmk) as [Hcsv Hzip].
  destruct (paths_plain cp _ _ Hi Hl) as (Htd & Hzpe & Hp).
  assert ((400 <=? st)%nat && (st <? 600)%nat = false) as Hb.
  { destruct (400 <=? st)%nat eqn:H1; [|done]. destruct (st <? 600)%nat eqn:H2; [|done].
    apply Nat.leb_le in H1. apply Nat.ltb_lt in H2. lia. }
  assert (write_file (zip_path cp table_id language) (Bytes b) (fs w2)
          = Ok (<[zip_path cp table_id language := File (Bytes b)]> (fs w2))) as Hw.
  { apply write_file_ok.
    - rewrite Hzpe. by destruct cp.
    - rewrite Hzpe, parent_snoc.
      eapply kinds_kept_is_dir; [by eapply mkdir_from_kinds|]. by eapply mkdir_p_is_dir.
    - by rewrite Hzip. }
  assert (fs w3 !! csv_path cp table_id language = None) as Hmiss3.
  { subst w3. cbn [fs]. rewrite lookup_insert_ne; [by rewrite Hcsv|].
    apply zip_path_ne_csv_path. }
  split_and!.
  - rewrite download_table_flat_eq. unfold download_table_flat.
    fold cp. fold (table_dir cp table_id language).
    fold (csv_path cp table_id language). fold (zip_path cp table_id language). fold u.
    rewrite Hm1, Hmiss.
    rewrite bool_decide_eq_false_2 by (intros [? ?]; done).
    rewrite bool_decide_eq_false_2
      by (apply joinpath_ext_nonempty; [done|simpl; lia]).
    cbn [orb]. by rewrite Hmk, Hrem, Hb, Hw.
  - subst w3. cbn [fs]. apply lookup_insert_eq.
  - done.
  - pose proof (write_file_kinds _ _ _ _ Hw) as [Hd3 _].
    rewrite (download_table_miss_requests E table_id cache_dir language w3
               (fs w3) (fs w3)).
    + subst w3. cbn [requests]. by rewrite <- app_assoc.
    + fold cp. eapply mkdir_p_dirs_noop; [|by eexists]. intros q Hq.
      subst w3. cbn [fs]. apply Hd3. by eapply mkdir_from_keeps.
    + done.
    + fold cp. eapply mkdir_p_dirs_noop; [|by eexists]. intros q Hq.
      subst w3. cbn [fs]. by apply Hd3.
Qed.

(** X7 on a remote side that answers 200 with a page of text. *)
Lemma download_table_body_not_archive_witness :
  ∃ w3, download_table html_env test_id (Some temp_cache_dir) "eng" test_world
        = (Raise BadZipFile, w3) ∧
        fs w3 !! (test_cache_path ++ ["14-10-0287-eng.zip"])
        = Some (File (Bytes "<html>maintenance</html>")) ∧
        length (requests (download_table html_env test_id (Some temp_cache_dir) "eng"
                            w3).2) = 2%nat.
Proof.
  assert (mkdir (table_dir test_cache_path test_id "eng") test_world
          = (Ok tt, World (<[test_cache_path ++ ["14-10-0287-eng"] := Dir]> (fs test_world)) []))
    as Hmk by reflexivity.
  assert (fs test_world !! csv_path test_cache_path test_id "eng" = None) as Hmiss
    by (apply test_world_fresh; simpl; lia).
  assert (fs test_world !! zip_path test_cache_path test_id "eng" ≠ Some Dir) as Hzp
    by (rewrite test_world_fresh; [discriminate|simpl; lia]).
  destruct (download_table_body_not_archive html_env test_id (Some temp_cache_dir)
              "eng" test_world test_world _ 200 "OK" "<html>maintenance</html>"
              eq_refl eq_refl (test_world_resolved html_env) Hmiss Hmk Hzp eq_refl
              ltac:(lia)) as (Hrun & Hfile & _ & Hreq).
  eexists. split; [exact Hrun|]. split; [exact Hfile|]. by rewrite Hreq.
Defined.

(** ** A cached file that does not parse *)

(** X8: a canonical file that the reader refuses is never fetched anew:
    [get_table] raises the wrapped failure of the reader without a request,
    leaves the file where it is, and the same call made again raises the
    same. *)
Theorem get_table_unparsable_cache (E : env) (table_id : string)
  (cache_dir : option string) (language : string) (w w1 : world)
  (c : content) (e : exn) :
  let cp := cache_dir_path E cache_dir in
  let p := csv_path cp table_id language in
  get_cache_dir E cache_dir w = (Ok cp, w1) →
  fs w1 !! p = Some (File c) →
  parse_csv E c (delimiter language) = Raise e →
  get_table E table_id cache_dir language w
  = (Raise (Exception (fetch_error_message table_id e) e), w1) ∧
  get_table E table_id cache_dir language w1
  = (Raise (Exception (fetch_error_message table_id e) e), w1) ∧
  requests w1 = requests w.
Proof.
  intros cp p Hc Hfile Hparse.
  assert (∀ w0, get_cache_dir E cache_dir w0 = (Ok cp, w1) →
                get_table E table_id cache_dir language w0
                = (Raise (Exception (fetch_error_message table_id e) e), w1)
                ∧ requests w1 = requests w0) as Hgo.
  { intros w0 H0.
    destruct (download_table_hit E table_id cache_dir language w0 w1 cp H0) as [Hhit Hreq].
    { fold p. by rewrite Hfile. }
    split; [|done]. rewrite get_table_run, Hhit. unfold read_csv. fold p.
    by rewrite Hfile, Hparse. }
  destruct (Hgo w Hc) as [H1 Hreq]. split; [done|]. split; [|done].
  apply Hgo. rewrite get_cache_dir_run in Hc |- *. fold cp in Hc |- *.
  destruct (mkdir_p cp (fs w)) as [m1|e'] eqn:Hm1; [|done]. injection Hc as <-.
  cbn [fs requests]. by rewrite (mkdir_p_idempotent _ _ _ Hm1).
Qed.

(** X8 on a cached table whose second line has a field too many. *)
Lemma get_table_unparsable_cache_witness :
  get_table once_env test_id (Some temp_cache_dir) "eng" corrupt_world
  = (Raise (Exception
       "Error fetching table 14-10-0287: found more fields than defined in 'Schema'"
       (ComputeError "found more fields than defined in 'Schema'")),
     corrupt_world) ∧
  requests corrupt_world = [].
Proof.
  destruct (get_table_unparsable_cache once_env test_id (Some temp_cache_dir) "eng"
              corrupt_world corrupt_world
              (Bytes ("A,B" +:+ newline +:+ "1,2,3" +:+ newline))
              (ComputeError "found more fields than defined in 'Schema'"))
    as (Hrun & _ & _).
  - rewrite get_cache_dir_run.
    assert (mkdir_p (cache_dir_path once_env (Some temp_cache_dir)) (fs corrupt_world)
            = Ok (fs corrupt_world)) as ->; [|done].
    apply mkdir_from_noop. intros k Hk.
    destruct k as [|[|[|[|k]]]]; simpl in Hk; try lia; reflexivity.
  - apply lookup_insert_eq.
  - reflexivity.
  - split; [exact Hrun|reflexivity].
Defined.

(** ** The paths of the test suite and the paths of the code *)

Lemma get_table_world (E : env) (table_id : string) (cache_dir : option string)
  (language : string) (w : world) :
  (get_table E table_id cache_dir language w).2
  = (download_table E table_id cache_dir language w).2.
Proof.
  rewrite get_table_run.
  destruct (download_table _ _ _ _ w) as [[p|e] w1]; [|done].
  rewrite read_csv_world. by destruct (read_csv E p (delimiter language) w1).1.
Qed.

(** X9: the path at which [test_cache_reuse] seeds a table,
    [<cache>/<id>.csv], is not the canonical path
    [<cache>/<id>-<lang>/<id>-<lang>.csv]; a file seeded there into a cache
    directory that is resolved, with nothing at the entry, gives no hit: the
    call requests the archive. *)
Theorem seeded_file_not_reused (E : env) (table_id : string)
  (cache_dir : option string) (language : string) (w : world) (c : content) :
  let cp := cache_dir_path E cache_dir in
  let seeded := World (<[seeded_csv_path cp table_id := File c]> (fs w)) (requests w) in
  Str.has_char "/" table_id = false → Str.has_char "/" language = false →
  get_cache_dir E cache_dir w = (Ok cp, w) →
  (∀ q, table_dir cp table_id language `prefix_of` q → fs w !! q = None) →
  seeded_csv_path cp table_id ≠ csv_path cp table_id language ∧
  fs seeded !! csv_path cp table_id language = None ∧
  requests (get_table E table_id cache_dir language seeded).2
  = requests w ++ [get_table_url table_id language].
Proof.
  intros cp seeded Hi Hl Hc Hfresh.
  destruct (paths_plain cp _ _ Hi Hl) as (Htd & Hzp & Hp).
  rewrite get_cache_dir_run in Hc. fold cp in Hc.
  destruct (mkdir_p cp (fs w)) as [m1|e] eqn:Hm1; [|done].
  assert (m1 = fs w) as -> by (injection Hc as <-; done). clear Hc.
  assert (length cp < length (seeded_csv_path cp table_id))%nat as Hlen.
  { unfold seeded_csv_path, joinpath.
    destruct (split_app_plain "/" table_id ".csv" eq_refl) as (init & l & _ & H2).
    assert (length (segments (table_id +:+ ".csv")) ≥ 1)%nat as Hs.
    { unfold segments. rewrite H2, List.filter_app, length_app. simpl.
      rewrite kept_segment_long; [simpl; lia|]. rewrite string_length_app. simpl. lia. }
    rewrite startswith_plain by (by rewrite has_char_app, Hi).
    rewrite length_app. lia. }
  assert (seeded_csv_path cp table_id ≠ csv_path cp table_id language) as Hne.
  { unfold seeded_csv_path. rewrite joinpath_plain.
    - rewrite Hp. intros H%(f_equal length). rewrite !length_app in H. simpl in H. lia.
    - by rewrite has_char_app, Hi.
    - intros H%(f_equal String.length). rewrite string_length_app in H. simpl in H. lia.
    - intros H%(f_equal String.length). rewrite string_length_app in H. simpl in H. lia. }
  assert (fs seeded !! csv_path cp table_id language = None) as Hmiss.
  { subst seeded. cbn [fs]. rewrite lookup_insert_ne by done.
    apply Hfresh. rewrite Htd, Hp. by exists [entry_name table_id language +:+ ".csv"];
      rewrite <- app_assoc. }
  split; [done|]. split; [done|].
  assert (seeded_csv_path cp table_id ≠ table_dir cp table_id language) as Hne2.
  { unfold seeded_csv_path. rewrite joinpath_plain.
    - rewrite Htd. intros H%app_inv_head. injection H as H.
      pose proof (entry_name_has_hyphen table_id language) as Hh. rewrite <- H in Hh.
      unfold entry_name in H. apply (f_equal Str.lower) in H.
      revert H. clear. induction table_id as [|a s IH]; [done|].
      rewrite !str_app_cons. simpl. intros [= H]. by apply IH.
    - by rewrite has_char_app, Hi.
    - intros H%(f_equal String.length). rewrite string_length_app in H. simpl in H. lia.
    - intros H%(f_equal String.length). rewrite string_length_app in H. simpl in H. lia. }
  rewrite get_table_world.
  rewrite (download_table_miss_requests E table_id cache_dir language seeded (fs seeded)
             (<[table_dir cp table_id language := Dir]> (fs seeded))); [done|..].
  - fold cp. apply mkdir_from_noop. intros k Hk. subst seeded. cbn [fs].
    rewrite lookup_insert_ne.
    + by eapply mkdir_from_dirs.
    + intros H%(f_equal length). simpl in H. rewrite length_take in H. lia.
  - done.
  - fold cp. rewrite Htd. unfold mkdir_p.
    rewrite (mkdir_from_snoc _ cp (entry_name table_id language) [] (fs seeded)); [done|..].
    + intros k Hk. subst seeded. cbn [fs]. rewrite lookup_insert_ne.
      * by eapply mkdir_from_dirs.
      * intros H%(f_equal length). simpl in H. rewrite length_take in H. lia.
    + simpl. subst seeded. cbn [fs]. rewrite lookup_insert_ne by (by rewrite <- Htd).
      apply Hfresh. by rewrite Htd.
Qed.

(** X9 on the world of [test_cache_reuse]: the call requests the archive
    although the table was seeded. *)
Lemma seeded_file_not_reused_witness :
  seeded_csv_path test_cache_path test_id = test_cache_path ++ ["14-10-0287.csv"] ∧
  is_file (fs seeded_world) (seeded_csv_path test_cache_path test_id) = true ∧
  requests (get_table mock_env test_id (Some temp_cache_dir) "eng" seeded_world).2
  = [get_table_url test_id "eng"].
Proof.
  destruct (seeded_file_not_reused mock_env test_id (Some temp_cache_dir) "eng"
              test_world (Bytes sample_csv_content) eq_refl eq_refl
              (test_world_resolved mock_env) (test_entry_fresh mock_env))
    as (_ & _ & Hreq).
  split; [reflexivity|]. split.
  - unfold is_file, seeded_world. cbn [fs]. by rewrite lookup_insert_eq.
  - exact Hreq.
Defined.

(** ** What a call leaves alone *)

Lemma mkdir_from_frame (target : path) (rest : list string) (base : path)
  (m m' : store) (q : path) :
  mkdir_from target base rest m = Ok m' →
  (∀ k, (0 < k ≤ length rest)%nat → q = base ++ take k rest → is_Some (m !! q)) →
  m' !! q = m !! q.
Proof.
  intros H Hq. destruct (m !! q) as [v|] eqn:Hv.
  - by eapply mkdir_from_keeps.
  - destruct (m' !! q) as [v|] eqn:Hv'; [|done].
    destruct (mkdir_from_new _ _ _ _ _ H _ _ Hv') as [?|[_ (k & Hk & Heq)]]; [congruence|].
    destruct (Hq k Hk Heq) as [v' ?]. congruence.
Qed.

Lemma take_parent_prefix (t : path) (k : nat) : take k (parent t) `prefix_of` t.
Proof.
  unfold parent. rewrite removelast_firstn_len, take_take. apply prefix_take.
Qed.

Lemma take_nonempty {A} (l : list A) (k : nat) : (0 < k ≤ length l)%nat → take k l ≠ [].
Proof. intros Hk H%(f_equal length). rewrite length_take in H. simpl in H. lia. Qed.

(** Extracting a member, whether it succeeds or not, changes nothing
    outside the target directory, once the directories down to the target
    directory are there. *)
Lemma extract_member_frame (z : archive) (td : path) (name : string)
  (m m' : store) (r : outcome unit) (q : path) :
  extract_member z td name m = (r, m') →
  ¬ td `prefix_of` q →
  (q ≠ [] → q `prefix_of` td → is_Some (m !! q)) →
  m' !! q = m !! q.
Proof.
  unfold extract_member. intros H Hout Hpre.
  assert (q ≠ td ++ arcname name) as Hne.
  { intros ->. apply Hout. by apply prefix_app_r. }
  destruct (make_upperdirs _ m) as [m1|e] eqn:Hmk; [|by injection H as _ <-].
  assert (m1 !! q = m !! q) as H1.
  { unfold make_upperdirs in Hmk. destruct (_ || _); [by injection Hmk as <-|].
    apply (makedirs_from_Ok (td ++ arcname name)) in Hmk.
    apply (mkdir_from_frame _ _ _ _ _ _ Hmk). intros k Hk Heq. simpl in Heq.
    assert (q `prefix_of` td ++ arcname name) as Hp
      by (rewrite Heq; apply take_parent_prefix).
    apply Hpre.
    - rewrite Heq. by apply take_nonempty.
    - destruct (prefix_weak_total q td (td ++ arcname name) Hp) as [?|?];
        [by apply prefix_app_r|done|done]. }
  rewrite <- H1.
  destruct (Str.endswith name "/").
  - destruct (is_dir m1 _); [by injection H as _ <-|].
    destruct (is_file m1 _); [by injection H as _ <-|].
    destruct (negb _); injection H as _ <-; [done|]. by rewrite lookup_insert_ne.
  - destruct (getinfo z name) as [data|]; [|by injection H as _ <-].
    destruct (write_file _ _ m1) as [m2|e] eqn:Hw; injection H as _ <-; [|done].
    apply write_file_lookup in Hw as [-> _]. by rewrite lookup_insert_ne.
Qed.

Lemma extract_names_frame (z : archive) (td : path) (names : list string) (q : path) :
  ¬ td `prefix_of` q →
  ∀ (m m' : store) (r : outcome unit),
  extract_names z td names m = (r, m') →
  (q ≠ [] → q `prefix_of` td → is_Some (m !! q)) →
  m' !! q = m !! q.
Proof.
  intros Hout. induction names as [|n names IH]; intros m m' r H Hpre; simpl in H.
  - by injection H as _ <-.
  - destruct (extract_member z td n m) as [[[]|e] m1] eqn:H1.
    + pose proof (extract_member_frame _ _ _ _ _ _ _ H1 Hout Hpre) as Hq.
      rewrite <- Hq. eapply IH; [exact H|]. by rewrite Hq.
    + injection H as _ <-. by eapply extract_member_frame.
Qed.

(** Outside the entry directory and the archive path, a call removes
    nothing, changes nothing, and adds at most the directories of the cache
    directory path. *)
Lemma download_table_frame (E : env) (table_id : string) (cache_dir : option string)
  (language : string) (w : world) (q : path) :
  let cp := cache_dir_path E cache_dir in
  let m' := fs (download_table E table_id cache_dir language w).2 in
  Str.has_char "/" table_id = false → Str.has_char "/" language = false →
  (∀ st rs z n,
     remote E (requests w) (get_table_url table_id language) = Response st rs (Archive z) →
     find_csv (namelist z) = Some n → safe_member_name n) →
  ¬ table_dir cp table_id language `prefix_of` q →
  q ≠ zip_path cp table_id language →
  (∀ v, fs w !! q = Some v → m' !! q = Some v) ∧
  (∀ v, m' !! q = Some v →
        fs w !! q = Some v ∨ (v = Dir ∧ q ≠ [] ∧ q `prefix_of` cp)).
Proof.
  intros cp m' Hi Hl Hsafe Hout Hzip. subst m'.
  destruct (paths_plain cp _ _ Hi Hl) as (Htd & Hzp & Hp).
  rewrite download_table_flat_eq. unfold download_table_flat.
  fold cp. fold (table_dir cp table_id language).
  fold (csv_path cp table_id language). fold (zip_path cp table_id language).
  set (td := table_dir cp table_id language) in *.
  set (zp := zip_path cp table_id language) in *.
  set (p := csv_path cp table_id language) in *.
  destruct (mkdir_p cp (fs w)) as [m1|e] eqn:Hm1; [|split; intros v Hv; cbn [snd] in *; auto].
  assert ((∀ v, fs w !! q = Some v → m1 !! q = Some v) ∧
          (∀ v, m1 !! q = Some v →
                fs w !! q = Some v ∨ (v = Dir ∧ q ≠ [] ∧ q `prefix_of` cp))) as Hstart.
  { split.
    - intros v. by eapply mkdir_from_keeps.
    - intros v Hv. destruct (mkdir_from_new _ _ _ _ _ Hm1 _ _ Hv) as [?|[-> (k & Hk & ->)]];
        [by left|].
      right. split; [done|]. simpl. split; [by apply take_nonempty|apply prefix_take]. }
  match goal with
  | |- context [fs ?r.2] =>
      enough (fs r.2 !! q = m1 !! q) as Heq by (by rewrite Heq)
  end.
  destruct (bool_decide (is_Some _) || bool_decide _); [done|].
  destruct (mkdir_p td m1) as [m2|e] eqn:Hm2; [|done].
  assert (∀ k, (0 < k)%nat → q = take k td → m1 !! q = Some Dir) as Hdirs.
  { intros k Hk Heq. destruct (decide (k ≤ length cp)%nat) as [Hle|Hgt].
    - rewrite Heq, Htd, take_app_le by done.
      apply (mkdir_from_dirs _ _ _ _ _ Hm1 k). lia.
    - exfalso. apply Hout. rewrite Heq, take_ge; [done|].
      rewrite Htd, length_app. simpl. lia. }
  assert (m2 !! q = m1 !! q) as H2.
  { apply (mkdir_from_frame _ _ _ _ _ _ Hm2). intros k Hk Heq. simpl in Heq.
    rewrite (Hdirs k); [done|lia|done]. }
  cbn [snd fs].
  destruct (remote E (requests w) _) as [msg|st rs b] eqn:Hrem; [done|].
  destruct ((400 <=? st)%nat && (st <? 600)%nat); [done|].
  destruct (write_file zp b m2) as [m3|e] eqn:Hw; [|done].
  assert (m3 !! q = m1 !! q) as H3.
  { apply write_file_lookup in Hw as [-> _]. by rewrite lookup_insert_ne. }
  destruct b as [bytes|z]; [done|].
  destruct (extract_names z td (namelist z) m3) as [r m4] eqn:Hx.
  assert (m4 !! q = m1 !! q) as H4.
  { rewrite <- H3. apply (extract_names_frame _ _ _ _ Hout _ _ _ Hx).
    intros Hne [k Hk]. rewrite H3.
    rewrite (Hdirs (length q)); [done|destruct q; [done|simpl; lia]|].
    by rewrite Hk, take_app_length. }
  destruct r as [[]|e]; [|done].
  destruct (find_csv (namelist z)) as [n|] eqn:Hf; [|done].
  specialize (Hsafe _ _ _ _ eq_refl Hf).
  rewrite (safe_member_path _ _ Hsafe).
  assert (q ≠ td ++ arcname n) as Hsrc.
  { intros ->. apply Hout. by apply prefix_app_r. }
  assert (q ≠ p) as Hdst.
  { intros ->. apply Hout. rewrite Htd, Hp.
    by exists [entry_name table_id language +:+ ".csv"]; rewrite <- app_assoc. }
  destruct (if bool_decide _ then _ else _) as [m5|e] eqn:Hr; [|done].
  assert (m5 !! q = m1 !! q) as H5.
  { destruct (bool_decide _); [|by injection Hr as <-].
    destruct (find_csv_Some _ _ Hf) as [Hin Hcsv].
    pose proof (extract_names_is_file _ _ _ _ _ Hx _ Hin (csv_name_not_dir _ Hcsv)) as Hfile.
    apply is_file_Some in Hfile as [c Hc].
    destruct (rename_path_file _ _ _ _ _ Hc Hr) as [-> _].
    by rewrite lookup_insert_ne, lookup_delete_ne. }
  destruct (unlink_file zp m5) as [m6|e] eqn:Hu; [|done].
  apply unlink_file_lookup in Hu as [_ ->]. cbn [snd fs].
  by rewrite lookup_delete_ne.
Qed.

(** X10: for a cache directory path in canonical spelling, an identifier
    and a language without slash and an archive that names its text member
    safely, a call of [download_table], whatever its outcome, touches only
    its entry directory, its archive path and the directories of the cache
    directory path: every other path in canonical spelling keeps what it
    held, and what is new elsewhere is a directory on the way to the cache
    directory. *)
Theorem download_table_touches_own_entry (E : env) (table_id : string)
  (cache_dir : option string) (language : string) (w : world) (q : path) :
  let cp := cache_dir_path E cache_dir in
  let w' := (download_table E table_id cache_dir language w).2 in
  canonical cp = true → canonical q = true →
  Str.has_char "/" table_id = false → Str.has_char "/" language = false →
  (∀ st rs z n,
     remote E (requests w) (get_table_url table_id language) = Response st rs (Archive z) →
     find_csv (namelist z) = Some n → safe_member_name n) →
  ¬ table_dir cp table_id language `prefix_of` q →
  q ≠ zip_path cp table_id language →
  (∀ v, fs w !! q = Some v → fs w' !! q = Some v) ∧
  (∀ v, fs w' !! q = Some v →
        fs w !! q = Some v ∨ (v = Dir ∧ q ≠ [] ∧ q `prefix_of` cp)) ∧
  (¬ q `prefix_of` cp → fs w' !! q = fs w !! q).
Proof.
  intros cp w' _ _ Hi Hl Hsafe Hout Hzip.
  destruct (download_table_frame E table_id cache_dir language w q Hi Hl Hsafe Hout Hzip)
    as [Hkeep Hnew].
  split; [done|]. split; [done|]. intros Hq. fold cp in Hnew. subst w'.
  destruct (fs (download_table E table_id cache_dir language w).2 !! q) as [v|] eqn:Hv.
  - destruct (Hnew v eq_refl) as [H|(_ & _ & H)]; [by rewrite H|by destruct Hq].
  - destruct (fs w !! q) as [v|] eqn:Hv'; [|done]. by pose proof (Hkeep v eq_refl).
Qed.

(** X10 on a fetch against the mock: a file next to the cache directory
    and the cache directory itself are as they were. *)
Lemma download_table_touches_own_entry_witness :
  fs fetched_world !! ["/"; "tmp"; "other.txt"] = None ∧
  fs fetched_world !! test_cache_path = Some Dir.
Proof.
  assert (∀ q : path,
    canonical q = true →
    ¬ table_dir test_cache_path test_id "eng" `prefix_of` q →
    q ≠ zip_path test_cache_path test_id "eng" →
    (∀ v, fs test_world !! q = Some v → fs fetched_world !! q = Some v) ∧
    (¬ q `prefix_of` test_cache_path → fs fetched_world !! q = fs test_world !! q)) as Hq.
  { intros q Hq H1 H2.
    destruct (download_table_touches_own_entry mock_env test_id (Some temp_cache_dir)
                "eng" test_world q eq_refl Hq eq_refl eq_refl) as (Hkeep & _ & Hsame).
    - intros st rs z n. apply mock_archive_safe.
    - exact H1.
    - exact H2.
    - split; [exact Hkeep|exact Hsame]. }
  split.
  - destruct (Hq ["/"; "tmp"; "other.txt"]) as [_ Hsame].
    + reflexivity.
    + intros H%prefix_length. simpl in H. lia.
    + discriminate.
    + rewrite Hsame; [reflexivity|]. intros [k Hk]. discriminate Hk.
  - destruct (Hq test_cache_path) as [Hkeep _].
    + reflexivity.
    + intros H%prefix_length. simpl in H. lia.
    + discriminate.
    + apply Hkeep. reflexivity.
Defined.

(** X11: the entries of the cache do not interfere: for a cache
    directory path in canonical spelling and an archive that names its text
    member safely, fetching one pair of identifier and language, whatever the
    outcome, leaves alone whatever lies in the entry directory of another
    pair, its canonical file among it, provided the two entries have
    different names and the one is not named as the archive of the other. *)
Theorem get_table_leaves_other_entries (E : env) (id1 l1 id2 l2 : string)
  (cache_dir : option string) (w : world) (tail : list string) :
  let cp := cache_dir_path E cache_dir in
  canonical cp = true → forallb proper_segment tail = true →
  Str.has_char "/" id1 = false → Str.has_char "/" l1 = false →
  Str.has_char "/" id2 = false → Str.has_char "/" l2 = false →
  (∀ st rs z n,
     remote E (requests w) (get_table_url id2 l2) = Response st rs (Archive z) →
     find_csv (namelist z) = Some n → safe_member_name n) →
  entry_name id1 l1 ≠ entry_name id2 l2 →
  entry_name id1 l1 ≠ entry_name id2 l2 +:+ ".zip" →
  fs (get_table E id2 cache_dir l2 w).2 !! (table_dir cp id1 l1 ++ tail)
  = fs w !! (table_dir cp id1 l1 ++ tail) ∧
  fs (get_table E id2 cache_dir l2 w).2 !! csv_path cp id1 l1
  = fs w !! csv_path cp id1 l1.
Proof.
  intros cp _ _ Hi1 Hl1 Hi2 Hl2 Hsafe Hne Hnz.
  destruct (paths_plain cp _ _ Hi1 Hl1) as (Htd1 & _ & Hp1).
  destruct (paths_plain cp _ _ Hi2 Hl2) as (Htd2 & Hzp2 & _).
  assert (∀ q : path, table_dir cp id1 l1 `prefix_of` q →
            fs (get_table E id2 cache_dir l2 w).2 !! q = fs w !! q) as Hgo.
  { intros q Hq. rewrite get_table_world.
    assert (length cp < length q)%nat as Hlen.
    { apply prefix_length in Hq. rewrite Htd1, length_app in Hq. simpl in Hq. lia. }
    assert (¬ table_dir cp id2 l2 `prefix_of` q) as Hout.
    { intros H2. rewrite Htd1 in Hq. rewrite Htd2 in H2.
      destruct (prefix_weak_total _ _ _ Hq H2) as [H|H];
        apply snoc_prefix_snoc in H; by subst. }
    assert (q ≠ zip_path cp id2 l2) as Hzip.
    { intros ->. rewrite Htd1, Hzp2 in Hq. by apply snoc_prefix_snoc in Hq. }
    destruct (download_table_frame E id2 cache_dir l2 w q Hi2 Hl2 Hsafe Hout Hzip)
      as [Hkeep Hnew]. fold cp in Hnew.
    destruct (fs (download_table E id2 cache_dir l2 w).2 !! q) as [v|] eqn:Hv.
    - destruct (Hnew v eq_refl) as [H|(_ & _ & H%prefix_length)]; [by rewrite H|lia].
    - destruct (fs w !! q) as [v|] eqn:Hv'; [|done]. by pose proof (Hkeep v eq_refl). }
  split; [apply Hgo; by apply prefix_app_r|]. apply Hgo. rewrite Htd1, Hp1.
  by exists [entry_name id1 l1 +:+ ".csv"]; rewrite <- app_assoc.
Qed.

(** X11 on the English table that was fetched, and a fetch of the French
    one after it. *)
Lemma get_table_leaves_other_entries_witness :
  fs (get_table fra_env test_id (Some temp_cache_dir) "fra" fetched_world).2 !! test_csv_path
  = Some (File (Bytes sample_csv_content)).
Proof.
  destruct (get_table_leaves_other_entries fra_env test_id "eng" test_id "fra"
              (Some temp_cache_dir) fetched_world ["14-10-0287-eng.csv"]
              eq_refl eq_refl eq_refl eq_refl eq_refl eq_refl) as [Hfile _].
  - intros st rs z n [= <- <- <-]. vm_compute. intros [= <-]. by split.
  - discriminate.
  - discriminate.
  - etransitivity; [exact Hfile|]. vm_compute. reflexivity.
Defined.

(** X12: the path at which [test_download_table] looks for a leftover
    archive, [<cache>/<id>.zip], is not the archive path of the code,
    [<cache>/<id>-<lang>.zip]: no call writes or removes anything there. *)
Theorem checked_zip_path_untouched (E : env) (table_id : string)
  (cache_dir : option string) (language : string) (w : world) :
  let cp := cache_dir_path E cache_dir in
  Str.has_char "/" table_id = false → Str.has_char "/" language = false →
  (∀ st rs z n,
     remote E (requests w) (get_table_url table_id language) = Response st rs (Archive z) →
     find_csv (namelist z) = Some n → safe_member_name n) →
  checked_zip_path cp table_id ≠ zip_path cp table_id language ∧
  fs (download_table E table_id cache_dir language w).2 !! checked_zip_path cp table_id
  = fs w !! checked_zip_path cp table_id.
Proof.
  intros cp Hi Hl Hsafe.
  destruct (paths_plain cp _ _ Hi Hl) as (Htd & Hzp & _).
  assert (checked_zip_path cp table_id = cp ++ [table_id +:+ ".zip"]) as Hc.
  { unfold checked_zip_path. apply joinpath_plain.
    - by rewrite has_char_app, Hi.
    - intros H%(f_equal String.length). rewrite string_length_app in H. simpl in H. lia.
    - intros H%(f_equal String.length). rewrite string_length_app in H. simpl in H. lia. }
  assert (∀ t, table_id +:+ ".zip" ≠ entry_name table_id language +:+ t) as Hne.
  { intros t. unfold entry_name. rewrite !str_app_assoc.
    clear. induction table_id as [|a s IH]; [done|].
    rewrite !str_app_cons. intros [= H]. by apply IH. }
  assert (checked_zip_path cp table_id ≠ zip_path cp table_id language) as Hzip.
  { rewrite Hc, Hzp. intros H%app_inv_head. injection H as H. by apply Hne in H. }
  split; [done|].
  assert (¬ table_dir cp table_id language `prefix_of` checked_zip_path cp table_id) as Hout.
  { rewrite Hc, Htd. intros H%snoc_prefix_snoc. symmetry in H.
    rewrite <- (str_app_nil_r (entry_name table_id language)) in H. by apply Hne in H. }
  destruct (download_table_frame E table_id cache_dir language w _ Hi Hl Hsafe Hout Hzip)
    as [Hkeep Hnew]. fold cp in Hnew.
  destruct (fs (download_table E table_id cache_dir language w).2
              !! checked_zip_path cp table_id) as [v|] eqn:Hv.
  - destruct (Hnew v eq_refl) as [H|(_ & _ & H%prefix_length)]; [by rewrite H|].
    rewrite Hc, length_app in H. simpl in H. lia.
  - destruct (fs w !! checked_zip_path cp table_id) as [v|] eqn:Hv'; [|done].
    by pose proof (Hkeep v eq_refl).
Qed.

(** X12 on the mock of the tests: no file at [<cache>/14-10-0287.zip]
    after the call, as there was none before. *)
Lemma checked_zip_path_untouched_witness :
  checked_zip_path test_cache_path test_id = test_cache_path ++ ["14-10-0287.zip"] ∧
  fs fetched_world !! checked_zip_path test_cache_path test_id = None.
Proof.
  destruct (checked_zip_path_untouched mock_env test_id (Some temp_cache_dir) "eng"
              test_world eq_refl eq_refl) as [_ Hsame].
  - intros st rs z n. apply mock_archive_safe.
  - split; [reflexivity|]. etransitivity; [exact Hsame|].
    apply test_world_fresh. simpl. lia.
Defined.

(** ** A fetch after a failed one *)

Lemma extract_member_off_target (z : archive) (td : path) (name : string)
  (m m' : store) (r : outcome unit) (q : path) :
  extract_member z td name m = (r, m') →
  ¬ q `prefix_of` td ++ arcname name →
  m' !! q = m !! q.
Proof.
  unfold extract_member. intros H Hout.
  assert (q ≠ td ++ arcname name) as Hne by (by intros ->).
  destruct (make_upperdirs _ m) as [m1|e] eqn:Hmk; [|by injection H as _ <-].
  assert (m1 !! q = m !! q) as H1.
  { unfold make_upperdirs in Hmk. destruct (_ || _); [by injection Hmk as <-|].
    apply (makedirs_from_Ok (td ++ arcname name)) in Hmk.
    apply (mkdir_from_frame _ _ _ _ _ _ Hmk). intros k Hk Heq. simpl in Heq.
    exfalso. apply Hout. rewrite Heq. apply take_parent_prefix. }
  rewrite <- H1.
  destruct (Str.endswith name "/").
  - destruct (is_dir m1 _); [by injection H as _ <-|].
    destruct (is_file m1 _); [by injection H as _ <-|].
    destruct (negb _); injection H as _ <-; [done|]. by rewrite lookup_insert_ne.
  - destruct (getinfo z name) as [data|]; [|by injection H as _ <-].
    destruct (write_file _ _ m1) as [m2|e] eqn:Hw; injection H as _ <-; [|done].
    apply write_file_lookup in Hw as [-> _]. by rewrite lookup_insert_ne.
Qed.

Lemma extract_names_off_target (z : archive) (td : path) (names : list string) (q : path) :
  (∀ n, n ∈ names → ¬ q `prefix_of` td ++ arcname n) →
  ∀ (m m' : store) (r : outcome unit),
  extract_names z td names m = (r, m') → m' !! q = m !! q.
Proof.
  induction names as [|n names IH]; intros Hout m m' r H; simpl in H.
  - by injection H as _ <-.
  - assert (¬ q `prefix_of` td ++ arcname n) as Hn by (apply Hout; by left).
    destruct (extract_member z td n m) as [[[]|e] m1] eqn:H1.
    + rewrite <- (extract_member_off_target _ _ _ _ _ _ _ H1 Hn).
      eapply IH; [|exact H]. intros k Hk. apply Hout. by right.
    + injection H as _ <-. by eapply extract_member_off_target.
Qed.

(** With the cache directory resolved, an entry directory that is missing
    or there with no directory in it, a free canonical path, no directory
    at the archive path, a reply that is no error and a flat archive, the
    call gets through the extraction. *)
Lemma used_entry_extraction_done (E : env) (table_id : string)
  (cache_dir : option string) (language : string) (w w1 : world) (cp : path)
  (st : nat) (rs : string) (z : archive) :
  get_cache_dir E cache_dir w = (Ok cp, w1) →
  Str.has_char "/" table_id = false → Str.has_char "/" language = false →
  is_file (fs w1) (table_dir cp table_id language) = false →
  (∀ x, fs w1 !! (table_dir cp table_id language ++ [x]) ≠ Some Dir) →
  fs w1 !! csv_path cp table_id language = None →
  fs w1 !! zip_path cp table_id language ≠ Some Dir →
  remote E (requests w) (get_table_url table_id language) = Response st rs (Archive z) →
  ¬ (400 ≤ st < 600)%nat →
  Forall flat_name (namelist z) →
  ∃ w4, extraction_done E table_id cache_dir language w z w4 ∧
        (∀ x, fs w4 !! (table_dir cp table_id language ++ [x]) ≠ Some Dir).
Proof.
  intros Hc Hi Hl Hnf Hfree Hmiss Hzp Hrem Hst Hflat.
  destruct (paths_plain cp _ _ Hi Hl) as (Htd & Hzip & Hcsv).
  set (name := entry_name table_id language) in *.
  pose proof Hc as Hc'. rewrite get_cache_dir_run in Hc'.
  destruct (mkdir_p _ (fs w)) as [m1|e] eqn:Hm1; [|done]. injection Hc' as <- <-.
  cbn [fs requests] in *. set (cp := cache_dir_path E cache_dir) in *.
  rewrite Htd in Hnf, Hfree. rewrite Hzip in Hzp.
  assert (∀ k, (0 < k ≤ length cp)%nat → m1 !! ([] ++ take k cp) = Some Dir) as Hdirs.
  { intros k Hk. by eapply mkdir_from_dirs. }
  assert (∃ m2, mkdir_p (cp ++ [name]) m1 = Ok m2 ∧ m2 !! (cp ++ [name]) = Some Dir ∧
                (∀ q, q ≠ cp ++ [name] → m2 !! q = m1 !! q)) as (m2 & Hmk & Htd2 & Hsame).
  { destruct (m1 !! (cp ++ [name])) as [[|c]|] eqn:Ht.
    - exists m1. split; [|done]. apply mkdir_from_noop. intros k Hk. simpl.
      destruct (decide (k ≤ length cp)%nat) as [Hle|Hgt].
      + rewrite take_app_le by done. apply Hdirs. lia.
      + rewrite take_ge; [done|]. rewrite length_app. simpl. lia.
    - unfold is_file in Hnf. by rewrite Ht in Hnf.
    - exists (<[cp ++ [name] := Dir]> m1). split; [|split].
      + unfold mkdir_p. by rewrite (mkdir_from_snoc _ cp name [] m1).
      + apply lookup_insert_eq.
      + intros q Hq. by rewrite lookup_insert_ne. }
  assert (cp ++ [name +:+ ".zip"] ≠ cp ++ [name]) as Hne.
  { intros Heq%app_inv_head. injection Heq as Heq. by apply ext_ne in Heq. }
  assert (write_file (cp ++ [name +:+ ".zip"]) (Archive z) m2
          = Ok (<[cp ++ [name +:+ ".zip"] := File (Archive z)]> m2)) as Hw.
  { apply write_file_ok; [by destruct cp| |].
    - rewrite parent_snoc. eapply kinds_kept_is_dir; [by eapply mkdir_from_kinds|].
      by eapply mkdir_p_is_dir.
    - by rewrite Hsame. }
  assert (∀ x, cp ++ [name +:+ ".zip"] ≠ (cp ++ [name]) ++ [x]) as Hlen1.
  { intros x Heq. apply (f_equal length) in Heq. rewrite !length_app in Heq.
    simpl in Heq. lia. }
  assert (∀ x, (cp ++ [name]) ++ [x] ≠ cp ++ [name]) as Hlen2.
  { intros x Heq. apply (f_equal length) in Heq. rewrite !length_app in Heq.
    simpl in Heq. lia. }
  destruct (extract_names_flat z (cp ++ [name]) (namelist z) ltac:(by destruct cp) Hflat
              ltac:(done) (<[cp ++ [name +:+ ".zip"] := File (Archive z)]> m2))
    as (m4 & Hx & Hfree4).
  { by rewrite lookup_insert_ne. }
  { intros x. rewrite lookup_insert_ne by done. rewrite Hsame by done. apply Hfree. }
  exists (World m4 (requests w ++ [get_table_url table_id language])).
  split; [|by rewrite Htd].
  exists cp, (World m1 (requests w)), (World m2 (requests w)),
    st, rs, (World (<[cp ++ [name +:+ ".zip"] := File (Archive z)]> m2)
                   (requests w ++ [get_table_url table_id language])).
  rewrite Htd, Hzip. cbn [fs requests].
  split_and!; try done.
  - unfold mkdir. rewrite on_store_run. cbn [fs requests]. by rewrite Hmk.
  - unfold write_bytes. rewrite on_store_run. cbn [fs requests]. by rewrite Hw.
  - unfold extractall. cbn [fs requests]. by rewrite Hx.
Qed.

(** Such a call, served a flat archive with distinct names, returns the
    canonical path with the bytes of the first text member there. *)
Lemma used_entry_fetch_ok (E : env) (table_id : string)
  (cache_dir : option string) (language : string) (w w1 : world) (cp : path)
  (st : nat) (rs : string) (z : archive) (n data : string) :
  get_cache_dir E cache_dir w = (Ok cp, w1) →
  Str.has_char "/" table_id = false → Str.has_char "/" language = false →
  is_file (fs w1) (table_dir cp table_id language) = false →
  (∀ x, fs w1 !! (table_dir cp table_id language ++ [x]) ≠ Some Dir) →
  fs w1 !! csv_path cp table_id language = None →
  fs w1 !! zip_path cp table_id language ≠ Some Dir →
  remote E (requests w) (get_table_url table_id language) = Response st rs (Archive z) →
  ¬ (400 ≤ st < 600)%nat →
  Forall flat_name (namelist z) → NoDup (namelist z) →
  find_csv (namelist z) = Some n → (n, data) ∈ z →
  ∃ w', download_table E table_id cache_dir language w
          = (Ok (csv_path cp table_id language), w') ∧
        fs w' !! csv_path cp table_id language = Some (File (Bytes data)) ∧
        fs w' !! zip_path cp table_id language = None ∧
        requests w' = requests w ++ [get_table_url table_id language].
Proof.
  intros Hc Hi Hl Hnf Hfree Hmiss Hzp Hrem Hst Hflat Hnd Hf Hmem.
  destruct (used_entry_extraction_done _ _ _ _ _ _ _ _ _ _ Hc Hi Hl Hnf Hfree Hmiss Hzp
              Hrem Hst Hflat) as (w4 & Hdone & Hfree4).
  assert (cache_dir_path E cache_dir = cp) as Hcp.
  { rewrite get_cache_dir_run in Hc. destruct (mkdir_p _ _); [|done]. by injection Hc. }
  subst cp.
  assert (flat_name n) as Hn.
  { destruct (find_csv_Some _ _ Hf) as [Hin _].
    by apply (proj1 (Forall_forall _ _) Hflat). }
  destruct (extracted_member_moved E table_id cache_dir language w z w4 n data Hdone
              Hi Hl Hf) as (w' & Hrun & _ & Hcontent & _ & Hzip & Hreq).
  - by apply flat_name_safe.
  - intros k d Hkd Ha.
    assert (flat_name k) as Hk.
    { apply (proj1 (Forall_forall _ _) Hflat). unfold namelist.
      apply list_elem_of_fmap. by exists (k, d). }
    rewrite (flat_name_arcname _ Hk), (flat_name_arcname _ Hn) in Ha.
    injection Ha as ->. split; [done|]. by eapply NoDup_names_content.
  - destruct (paths_plain (cache_dir_path E cache_dir) _ _ Hi Hl) as (Htd & _ & Hp).
    rewrite Hp.
    change (cache_dir_path E cache_dir
            ++ [entry_name table_id language; entry_name table_id language +:+ ".csv"])
      with (cache_dir_path E cache_dir
            ++ [entry_name table_id language] ++ [entry_name table_id language +:+ ".csv"]).
    rewrite app_assoc, <- Htd. apply Hfree4.
  - exists w'. by split.
Qed.

(** X13: a failed fetch does not stand in the way of the next one.  In a
    fresh entry, when the first reply makes the call fail (the transport is
    refused, the status is an error, the body is no archive, or the archive
    is flat without text member) and the second reply is a flat archive with
    distinct names and a text member, the first call raises and the same
    call made again returns the canonical path, with the bytes of the member
    there, no archive file left, and two requests in all. *)
Theorem download_table_recovers_after_failure (E : env) (table_id : string)
  (cache_dir : option string) (language : string) (w w1 : world)
  (st : nat) (rs : string) (z : archive) (n data : string) :
  let cp := cache_dir_path E cache_dir in
  let td := table_dir cp table_id language in
  let zp := zip_path cp table_id language in
  let p := csv_path cp table_id language in
  let u := get_table_url table_id language in
  Str.has_char "/" table_id = false → Str.has_char "/" language = false →
  get_cache_dir E cache_dir w = (Ok cp, w1) →
  (∀ q, td `prefix_of` q → fs w1 !! q = None) →
  fs w1 !! zp = None →
  failing_reply (remote E (requests w) u) →
  remote E (requests w ++ [u]) u = Response st rs (Archive z) →
  ¬ (400 ≤ st < 600)%nat →
  Forall flat_name (namelist z) → NoDup (namelist z) →
  find_csv (namelist z) = Some n → (n, data) ∈ z →
  ∃ e w', download_table E table_id cache_dir language w = (Raise e, w') ∧
  ∃ w'', download_table E table_id cache_dir language w' = (Ok p, w'') ∧
         fs w'' !! p = Some (File (Bytes data)) ∧
         fs w'' !! zp = None ∧
         requests w'' = requests w ++ [u; u].
Proof.
  intros cp td zp p u Hi Hl Hc Hfresh Hzp Hfail Hrem2 Hst2 Hflat Hnd Hf Hmem.
  destruct (paths_plain cp _ _ Hi Hl) as (Htd & Hzpe & Hp).
  fold td in Htd. fold zp in Hzpe. fold p in Hp.
  pose proof Hc as Hc'. rewrite get_cache_dir_run in Hc'. fold cp in Hc'.
  destruct (mkdir_p cp (fs w)) as [m1|e1] eqn:Hm1; [|done]. injection Hc' as <-.
  cbn [fs requests] in *.
  (* What the second call needs of the world the first one leaves. *)
  assert (∀ e (m : store),
    download_table E table_id cache_dir language w
      = (Raise e, World m (requests w ++ [u])) →
    (∀ q, m1 !! q = Some Dir → m !! q = Some Dir) →
    m !! td = Some Dir →
    (∀ x, m !! (td ++ [x]) ≠ Some Dir) →
    m !! p = None → m !! zp ≠ Some Dir →
    ∃ e w', download_table E table_id cache_dir language w = (Raise e, w') ∧
    ∃ w'', download_table E table_id cache_dir language w' = (Ok p, w'') ∧
           fs w'' !! p = Some (File (Bytes data)) ∧
           fs w'' !! zp = None ∧
           requests w'' = requests w ++ [u; u]) as Hnext.
  { intros e m Hrun Hd Htdm Hfreem Hpm Hzpm.
    exists e, (World m (requests w ++ [u])). split; [done|].
    destruct (used_entry_fetch_ok E table_id cache_dir language
                (World m (requests w ++ [u])) (World m (requests w ++ [u])) cp
                st rs z n data) as (w'' & Hrun2 & Hc2 & Hz2 & Hr2); try done.
    - rewrite get_cache_dir_run. fold cp. cbn [fs requests].
      by rewrite (mkdir_p_dirs_noop cp m1 m Hd ltac:(by eexists)).
    - cbn [fs]. fold td. unfold is_file. by rewrite Htdm.
    - exists w''. split; [done|]. split; [done|]. split; [done|].
      rewrite Hr2. cbn [requests]. by rewrite <- app_assoc. }
  assert (mkdir_p td m1 = Ok (<[td := Dir]> m1)) as Hmk.
  { rewrite Htd. unfold mkdir_p. rewrite (mkdir_from_snoc _ cp _ [] m1); [done|..].
    - intros k Hk. by eapply mkdir_from_dirs.
    - simpl. rewrite <- Htd. by apply Hfresh. }
  assert (td ≠ p) as Htp.
  { rewrite Htd, Hp. intros H%(f_equal length). rewrite !length_app in H. simpl in H. lia. }
  assert (zp ≠ td) as Hzt.
  { rewrite Htd, Hzpe. intros H%app_inv_head. injection H as H. by apply ext_ne in H. }
  assert (∀ x, td ++ [x] ≠ td) as Hlen.
  { intros x H%(f_equal length). rewrite length_app in H. simpl in H. lia. }
  assert (∀ x, td ++ [x] ≠ zp) as Hlen'.
  { intros x H%(f_equal length). rewrite Htd, Hzpe, !length_app in H. simpl in H. lia. }
  assert (m1 !! p = None) as Hmiss.
  { apply Hfresh. rewrite Htd, Hp.
    by exists [entry_name table_id language +:+ ".csv"]; rewrite <- app_assoc. }
  assert (∀ x, m1 !! (td ++ [x]) = None) as Hbelow.
  { intros x. apply Hfresh. by apply prefix_app_r. }
  assert (∀ b, write_file zp b (<[td := Dir]> m1) = Ok (<[zp := File b]> (<[td := Dir]> m1)))
    as Hw.
  { intros b. apply write_file_ok.
    - rewrite Hzpe. by destruct cp.
    - rewrite Hzpe, parent_snoc.
      eapply kinds_kept_is_dir; [by eapply mkdir_from_kinds|]. by eapply mkdir_p_is_dir.
    - rewrite lookup_insert_ne by done. by rewrite Hzp. }
  assert (∀ r, download_table E table_id cache_dir language w
    = match remote E (requests w) u with
      | Refused msg => (Raise (ConnectionError msg),
                        World (<[td := Dir]> m1) (requests w ++ [u]))
      | Response st1 rs1 b =>
          if (400 <=? st1)%nat && (st1 <? 600)%nat
          then (Raise (HTTPError st1 rs1 u), World (<[td := Dir]> m1) (requests w ++ [u]))
          else match b with
               | Bytes _ => (Raise BadZipFile,
                             World (<[zp := File b]> (<[td := Dir]> m1)) (requests w ++ [u]))
               | Archive _ => r
               end
      end ∨ ∃ st1 rs1 z1, remote E (requests w) u = Response st1 rs1 (Archive z1) ∧
                          (400 <=? st1)%nat && (st1 <? 600)%nat = false) as Hrun.
  { intros r. rewrite download_table_flat_eq. unfold download_table_flat.
    fold cp. fold (table_dir cp table_id language).
    fold (csv_path cp table_id language). fold (zip_path cp table_id language).
    fold p. fold zp. fold td. fold u.
    rewrite Hm1, Hmiss.
    rewrite bool_decide_eq_false_2 by (intros [? ?]; done).
    rewrite bool_decide_eq_false_2
      by (apply joinpath_ext_nonempty; [done|simpl; lia]).
    cbn [orb]. rewrite Hmk.
    destruct (remote E (requests w) u) as [msg|st1 rs1 b]; [by left|].
    destruct ((400 <=? st1)%nat && (st1 <? 600)%nat) eqn:Hst1; [by left|].
    rewrite Hw. destruct b as [s|z1]; [by left|]. right. by exists st1, rs1, z1. }
  assert (∀ q, m1 !! q = Some Dir → <[td := Dir]> m1 !! q = Some Dir) as Hd2.
  { intros q Hq. by eapply mkdir_from_keeps. }
  assert (∀ e, download_table E table_id cache_dir language w
               = (Raise e, World (<[td := Dir]> m1) (requests w ++ [u])) → 
          ∃ e w', download_table E table_id cache_dir language w = (Raise e, w') ∧
          ∃ w'', download_table E table_id cache_dir language w' = (Ok p, w'') ∧
                 fs w'' !! p = Some (File (Bytes data)) ∧
                 fs w'' !! zp = None ∧
                 requests w'' = requests w ++ [u; u]) as Hcase_a.
  { intros e Hrun1. apply (Hnext e _ Hrun1); [done|..].
    - apply lookup_insert_eq.
    - intros x. rewrite lookup_insert_ne by done. by rewrite Hbelow.
    - by rewrite lookup_insert_ne.
    - rewrite lookup_insert_ne by done. by rewrite Hzp. }
  destruct (remote E (requests w) u) as [msg|st1 rs1 b] eqn:Hrem1.
  { destruct (Hrun (Raise BadZipFile, w)) as [H|(? & ? & ? & ? & _)]; [|done].
    by eapply Hcase_a. }
  destruct ((400 <=? st1)%nat && (st1 <? 600)%nat) eqn:Hst1.
  { destruct (Hrun (Raise BadZipFile, w)) as [H|(st' & rs' & z' & Heq & Hn)];
      [|injection Heq as <- <- ->; congruence].
    by eapply Hcase_a. }
  assert (¬ (400 ≤ st1 < 600)%nat) as Hok1.
  { intros [H1 H2]. apply Nat.leb_le in H1. apply Nat.ltb_lt in H2.
    by rewrite H1, H2 in Hst1. }
  destruct Hfail as [?|Hfail]; [done|].
  destruct b as [s|z1].
  { destruct (Hrun (Raise BadZipFile, w)) as [H|(? & ? & ? & ? & _)]; [|done].
    apply (Hnext _ _ H).
    - intros q Hq. rewrite lookup_insert_ne; [by apply Hd2|].
      intros <-. rewrite Hzp in Hq. done.
    - rewrite lookup_insert_ne by done. apply lookup_insert_eq.
    - intros x. rewrite !lookup_insert_ne by done. by rewrite Hbelow.
    - rewrite lookup_insert_ne by (apply zip_path_ne_csv_path).
      by rewrite lookup_insert_ne.
    - by rewrite lookup_insert_eq. }
  destruct Hfail as [Hflat1 Hnone1].
  assert (m1 !! zp ≠ Some Dir) as Hzp' by (by rewrite Hzp).
  destruct (fresh_fetch_extraction_done E table_id cache_dir language w
              (World m1 (requests w)) cp st1 rs1 z1
              Hc Hi Hl Hfresh Hzp' Hrem1 Hok1 Hflat1)
    as (w4 & Hdone & Hfree4).
  destruct (no_csv_leaves_archive E table_id cache_dir language w z1 w4 Hdone Hnone1)
    as (Hrun1 & Hzip4 & Hdir4 & _ & Hreq4 & _).
  fold cp in Hzip4, Hdir4. fold zp in Hzip4. fold td in Hdir4, Hfree4. fold u in Hreq4.
  apply extraction_done_stores in Hdone
    as (m1' & m2 & st' & rs' & m3 & Hm1' & _ & Hm2 & _ & _ & Hw3 & Hx & _).
  fold cp in Hm1', Hm2, Hw3, Hx. fold td in Hm2, Hx. fold zp in Hw3.
  rewrite Hm1 in Hm1'. injection Hm1' as <-. rewrite Hmk in Hm2. injection Hm2 as <-.
  rewrite Hw in Hw3. injection Hw3 as <-.
  destruct w4 as [m4 log4]. cbn [fs requests] in *. subst log4.
  apply (Hnext _ _ Hrun1).
  - intros q Hq. apply (extract_names_kinds _ _ _ _ _ Hx).
    rewrite lookup_insert_ne; [by apply Hd2|]. intros <-. rewrite Hzp in Hq. done.
  - apply is_dir_lookup; [|done]. rewrite Htd. by destruct cp.
  - done.
  - rewrite (λ Hout, extract_names_off_target _ _ _ p Hout _ _ _ Hx).
    + rewrite lookup_insert_ne by (apply zip_path_ne_csv_path).
      by rewrite lookup_insert_ne.
    + intros k Hk Hpre.
      assert (flat_name k) as Hfk by (by apply (proj1 (Forall_forall _ _) Hflat1)).
      rewrite (flat_name_arcname _ Hfk), Hp in Hpre.
      change (cp ++ [entry_name table_id language; entry_name table_id language +:+ ".csv"])
        with (cp ++ [entry_name table_id language]
                 ++ [entry_name table_id language +:+ ".csv"]) in Hpre.
      rewrite app_assoc, <- Htd in Hpre. apply snoc_prefix_snoc in Hpre. subst k.
      apply find_csv_none in Hnone1.
      apply (proj1 (Forall_forall _ _) Hnone1) in Hk. apply Hk.
      exists (entry_name table_id language), "c"%char, "s"%char, "v"%char. auto.
  - apply is_file_Some in Hzip4 as [c Hc4]. by rewrite Hc4.
Qed.

(** X13 on a remote side that answers 503 once and then serves the
    archive of the tests. *)
Lemma download_table_recovers_after_failure_witness :
  ∃ e w', download_table flaky_env test_id (Some temp_cache_dir) "eng" test_world
          = (Raise e, w') ∧
  ∃ w'', download_table flaky_env test_id (Some temp_cache_dir) "eng" w'
         = (Ok test_csv_path, w'') ∧
         fs w'' !! test_csv_path = Some (File (Bytes sample_csv_content)) ∧
         length (requests w'') = 2%nat.
Proof.
  destruct (download_table_recovers_after_failure flaky_env test_id
              (Some temp_cache_dir) "eng" test_world test_world 200 "OK" mock_zip_file
              "14100287.csv" sample_csv_content eq_refl eq_refl
              (test_world_resolved flaky_env) (test_entry_fresh flaky_env))
    as (e & w' & Hrun1 & w'' & Hrun2 & Hfile & _ & Hreq).
  - apply test_world_fresh. simpl. lia.
  - left. lia.
  - reflexivity.
  - lia.
  - repeat constructor.
  - apply NoDup_singleton.
  - reflexivity.
  - apply list_elem_of_In. simpl. tauto.
  - exists e, w'. split; [exact Hrun1|]. exists w''.
    split; [exact Hrun2|]. split; [exact Hfile|]. by rewrite Hreq.
Defined.

(** ** A text member with an absolute name *)




(** ** The other members of the archive *)


